(** * PyWhisper: the chunked-transcription pipeline of [whisper_gui.py]

    A shallow embedding of [WhisperTranscriber] (normalise, split,
    transcribe, timestamp formatting) and of [WhisperGUI.start_transcription]
    (the orchestration with its clean-up), followed by the properties of the
    design document that can be settled on it. The start-up checks, the
    language grid of [setup_ui], [clear_output] and [save_output] are
    embedded as well, and the file ends with properties of the code beyond
    the design document: what each step leaves on disk, the windows of
    [split_audio] to the millisecond, the request and the errors of
    [transcribe], and timestamps of whole milliseconds.

    Conventions of the embedding:
    - Python [float] values are binary64 numbers; a finite binary64 number is
      represented by the rational it denotes ([Q]) and every arithmetic
      operation rounds its exact result to the nearest binary64 number, ties
      to even ([Float64.rnd]).
    - A Python [str] is held as its UTF-8 encoding, one [ascii] per byte;
      [strip] removes the white space of [str.isspace], whose characters take
      one, two or three bytes.
    - The file system, the encoder, the decoder and the remote service are
      black boxes: what they answer is read from an environment [env]; what
      the program does to them is recorded in the [world]. *)

From Stdlib Require Import ZArith QArith Qround Qpower Qabs Lqa Lia String Ascii List.
From Corelib Require Import SpecFloat.
From stdpp Require Import base gmap strings list.

Local Open Scope Z_scope.
#[local] Set Warnings "-clear-no-such-hyp".

(* ===================================================================== *)
(** ** Binary64 arithmetic, as Python's [float] uses it *)
(* ===================================================================== *)

Module Float64.

(** [2^z] for any integer exponent. *)
Definition pow2 (z : Z) : Q := (2 # 1) ^ z.

(** The binary exponent of a positive rational: [2^e <= q < 2^(e+1)]. *)
Definition ilog2 (q : Q) : Z :=
  let d := Z.log2 (Qnum q) - Z.log2 (Zpos (Qden q)) in
  if Qle_bool (pow2 d) q then d else d - 1.

(** Nearest integer, ties to the even one. *)
Definition round_half_even (s : Q) : Z :=
  let f := Qfloor s in
  match Qcompare (s - inject_Z f) (1 # 2) with
  | Lt => f
  | Gt => f + 1
  | Eq => if Z.even f then f else f + 1
  end.

(** Rounding of a positive rational to 53 significant bits. The exponent
    range of binary64 is not modelled: every quantity of this program lies
    between [2^-1022] and [2^1024], where binary64 numbers are normal. *)
Definition rnd_pos (q : Q) : Q :=
  let e := ilog2 q in
  Qred (inject_Z (round_half_even (q * pow2 (52 - e))) * pow2 (e - 52)).

Definition rnd (q : Q) : Q :=
  let r := Qred q in
  match Qnum r with
  | Z0 => 0%Q
  | Zpos _ => rnd_pos r
  | Zneg _ => Qopp (rnd_pos (Qopp r))
  end.

(** [float(z)], the conversion Python applies to an [int] operand. *)
Definition float_of_int (z : Z) : Q := rnd (inject_Z z).

(** [a / b] on two [int]s: the correctly rounded quotient. *)
Definition int_truediv (a b : Z) : Q := rnd (inject_Z a / inject_Z b).

(** [x / y] and [x * y] on [float]s. *)
Definition float_div (x y : Q) : Q := rnd (x / y).
Definition float_mul (x y : Q) : Q := rnd (x * y).

(** [x // y] and [x % y] on [float]s with [y > 0]. The remainder of binary64
    numbers is always a binary64 number, so [%] does not round; [//] is
    [(x - x % y) / y], which is exact while [x] is below [2^53]. *)
Definition float_floordiv (x y : Q) : Q := inject_Z (Qfloor (x / y)).
Definition float_mod (x y : Q) : Q := (x - y * inject_Z (Qfloor (x / y)))%Q.

(** [int(x)]: truncation towards zero. *)
Definition int_of_float (x : Q) : Z := Z.quot (Qnum x) (Zpos (Qden x)).

(** [math.ceil(x)]. *)
Definition math_ceil (x : Q) : Z := Qceiling x.

(** The same operations in the Standard Library's executable specification
    of IEEE 754 ([SpecFloat], precision 53, maximal exponent 1024); used to
    cross-check [rnd] on the inputs this development evaluates. *)
Definition sf_of_int (z : Z) : spec_float := binary_normalize 53 1024 z 0 false.

Definition sf_value (f : spec_float) : Q :=
  match f with
  | S754_finite s m e =>
      let v := (inject_Z (Zpos m) * pow2 e)%Q in if s then Qopp v else v
  | _ => 0%Q
  end.

Definition sf_int_truediv (a b : Z) : spec_float :=
  SFdiv 53 1024 (sf_of_int a) (sf_of_int b).

Definition sf_int_mul (i : Z) (x : spec_float) : spec_float :=
  SFmul 53 1024 (sf_of_int i) x.

End Float64.

Import Float64.

(* ===================================================================== *)
(** ** Python strings *)
(* ===================================================================== *)

Definition LF : ascii := ascii_of_nat 10.

Definition nl : string := String LF EmptyString.

Definition digit_char (d : Z) : ascii := ascii_of_nat (48 + Z.to_nat d).

Definition is_digit (c : ascii) : bool :=
  let n := nat_of_ascii c in (48 <=? n)%nat && (n <=? 57)%nat.

Fixpoint all_digits (s : string) : bool :=
  match s with
  | EmptyString => true
  | String c s' => is_digit c && all_digits s'
  end.

(** Decimal digits of a non-negative integer, most significant first. *)
Fixpoint str_digits (fuel : nat) (n : Z) (acc : string) : string :=
  let acc' := String (digit_char (n mod 10)) acc in
  match fuel with
  | O => acc'
  | S fuel' => if n <? 10 then acc' else str_digits fuel' (n / 10) acc'
  end.

(** [str(n)] for an [int]. *)
Definition py_str (n : Z) : string :=
  if n <? 0
  then String "-" (str_digits (Z.to_nat (Z.log2 (- n))) (- n) EmptyString)
  else str_digits (Z.to_nat (Z.log2 n)) n EmptyString.

Fixpoint zeros (n : nat) : string :=
  match n with
  | O => EmptyString
  | S k => String "0" (zeros k)
  end.

(** Sign-aware zero padding to a minimal width (the [0] flag of the format
    mini-language). *)
Definition zero_pad (width : nat) (sign body : string) : string :=
  sign +:+ zeros (width - String.length sign - String.length body) +:+ body.

Definition sign_of (negative : bool) : string :=
  if negative then String "-" EmptyString else EmptyString.

(** [f"{z:02d}"]. *)
Definition format_02d (z : Z) : string :=
  zero_pad 2 (sign_of (z <? 0)) (py_str (Z.abs z)).

(** [f"{x:06.3f}"]: the exact value of [x] correctly rounded to three
    decimals, then padded. *)
Definition format_06_3f (x : Q) : string :=
  let t := round_half_even (Qabs x * inject_Z 1000) in
  zero_pad 6 (sign_of (Qle_bool x 0 && negb (Qeq_bool x 0)))
    (py_str (t / 1000) +:+ String "." (zero_pad 3 EmptyString (py_str (t mod 1000)))).

(** [s.replace(a, b)] for one-character [a] and [b]. *)
Fixpoint replace_char (a b : ascii) (s : string) : string :=
  match s with
  | EmptyString => EmptyString
  | String c s' => String (if Ascii.eqb c a then b else c) (replace_char a b s')
  end.

(** White space, as [str.strip] and [str.isspace] see it: U+0009 to U+000D,
    U+001C to U+0020, U+0085, U+00A0, U+1680, U+2000 to U+200A, U+2028,
    U+2029, U+202F, U+205F and U+3000. A [str] is held as its UTF-8
    encoding, in which these characters take one, two or three bytes. *)
Definition is_space1 (a : ascii) : bool :=
  let n := nat_of_ascii a in
  ((9 <=? n)%nat && (n <=? 13)%nat) || ((28 <=? n)%nat && (n <=? 32)%nat).

Definition is_space2 (a b : ascii) : bool :=
  let n := nat_of_ascii a in
  let m := nat_of_ascii b in
  (n =? 194)%nat && ((m =? 133)%nat || (m =? 160)%nat).

Definition is_space3 (a b c : ascii) : bool :=
  let n := nat_of_ascii a in
  let m := nat_of_ascii b in
  let k := nat_of_ascii c in
  ((n =? 225)%nat && (m =? 154)%nat && (k =? 128)%nat)
  || ((n =? 226)%nat && (m =? 128)%nat
      && (((128 <=? k)%nat && (k <=? 138)%nat)
          || (k =? 168)%nat || (k =? 169)%nat || (k =? 175)%nat))
  || ((n =? 226)%nat && (m =? 129)%nat && (k =? 159)%nat)
  || ((n =? 227)%nat && (m =? 128)%nat && (k =? 128)%nat).

(** Whether a string is exactly one white-space character. *)
Definition is_space_char (s : string) : bool :=
  match s with
  | String a EmptyString => is_space1 a
  | String a (String b EmptyString) => is_space2 a b
  | String a (String b (String c EmptyString)) => is_space3 a b c
  | _ => false
  end.

(** [s.lstrip()]: white-space characters are dropped from the left. *)
Fixpoint lstrip (s : string) : string :=
  match s with
  | EmptyString => EmptyString
  | String a s1 =>
      if is_space1 a then lstrip s1
      else
        match s1 with
        | EmptyString => s
        | String b s2 =>
            if is_space2 a b then lstrip s2
            else
              match s2 with
              | EmptyString => s
              | String c s3 => if is_space3 a b c then lstrip s3 else s
              end
        end
  end.

(** [s.rstrip()]: what is kept of [s] from some byte on is that byte and what
    is kept after it, unless these bytes are one white-space character,
    which then is the last thing dropped. *)
Fixpoint rstrip (s : string) : string :=
  match s with
  | EmptyString => EmptyString
  | String a s' =>
      let r := String a (rstrip s') in
      if is_space_char r then EmptyString else r
  end.

(** [s.strip()]. *)
Definition py_strip (s : string) : string := rstrip (lstrip s).

(** Truth value of a [str]. *)
Definition truthy (s : string) : bool :=
  match s with EmptyString => false | _ => true end.

(* ===================================================================== *)
(** ** The world the program acts on *)
(* ===================================================================== *)

(** An audio stream held by pydub: where its first millisecond lies in the
    file it was decoded from, its length in milliseconds ([len(audio)]),
    channel count and sample rate. *)
Record audio_segment := {
  seg_offset : Z;
  seg_len : Z;
  seg_channels : Z;
  seg_frame_rate : Z
}.

(** The arguments of one [AudioSegment.export] call. *)
Record export_call := {
  exp_audio : audio_segment;
  exp_path : string;
  exp_format : string;
  exp_codec : string;
  exp_bitrate : option string;
  exp_parameters : list string
}.

(** The keyword arguments of one [client.audio.transcriptions.create] call. *)
Record request := {
  req_file : string;
  req_model : string;
  req_language : option string;
  req_prompt : option string;
  req_response_format : string
}.

Inductive exn :=
| ValueError (msg : string)
| FileNotFoundError (path : string)
| CouldntDecodeError (path : string)
| CouldntEncodeError (path : string)
| ZeroDivisionError
| AttributeError (name : string)
| APIError
| Exception (msg : string).

(** [str(e)]. *)
Definition exn_str (e : exn) : string :=
  match e with
  | ValueError msg => msg
  | FileNotFoundError path => "No such file or directory: " +:+ path
  | CouldntDecodeError path => "Decoding failed: " +:+ path
  | CouldntEncodeError path => "Encoding failed: " +:+ path
  | ZeroDivisionError => "division by zero"
  | AttributeError name =>
      "'WhisperTranscriber' object has no attribute '" +:+ name +:+ "'"
  | APIError => "Connection error."
  | Exception msg => msg
  end.

(** What the black boxes answer. *)
Record env := {
  (** [tempfile.NamedTemporaryFile(suffix=..., delete=False).name] *)
  tmp_name : string -> string;
  (** [AudioSegment.from_file(path)]; [None] when the file cannot be decoded *)
  decode : string -> option audio_segment;
  (** whether [AudioSegment.export] succeeds *)
  encoder_ok : export_call -> bool;
  (** [os.path.getsize] of the file written at this path *)
  encoded_size : string -> Z;
  (** whether [self.client] is set *)
  client : bool;
  (** the remote call; [None] when it raises. The answer is the body when the
      response format is ['srt'] and the [text] attribute of the returned
      object when it is ['json']. *)
  api : request -> option string
}.

(** The state the program reads and writes. *)
Record world := {
  (** paths that exist on disk *)
  disk : gset string;
  (** temporary files created, oldest first *)
  temps : list string;
  (** encoder calls made, oldest first *)
  exports : list export_call;
  (** requests sent to the service, oldest first *)
  uploads : list request;
  (** arguments of the [os.unlink] calls, oldest first *)
  unlinks : list string;
  (** the status bar *)
  status : string;
  (** the transcription text widget *)
  output_text : string;
  (** [self.srt_content], when the attribute is set *)
  srt_content : option string;
  (** exceptions reported by the [except] clause of [start_transcription] *)
  reported : list exn;
  (** the local variable [audio_file] of [start_transcription], once bound *)
  local_audio_file : option string
}.

Definition with_disk (d : gset string) (w : world) : world :=
  {| disk := d; temps := temps w; exports := exports w; uploads := uploads w;
     unlinks := unlinks w; status := status w; output_text := output_text w;
     srt_content := srt_content w; reported := reported w;
     local_audio_file := local_audio_file w |}.

Definition with_temps (t : list string) (w : world) : world :=
  {| disk := disk w; temps := t; exports := exports w; uploads := uploads w;
     unlinks := unlinks w; status := status w; output_text := output_text w;
     srt_content := srt_content w; reported := reported w;
     local_audio_file := local_audio_file w |}.

Definition with_exports (x : list export_call) (w : world) : world :=
  {| disk := disk w; temps := temps w; exports := x; uploads := uploads w;
     unlinks := unlinks w; status := status w; output_text := output_text w;
     srt_content := srt_content w; reported := reported w;
     local_audio_file := local_audio_file w |}.

Definition with_uploads (u : list request) (w : world) : world :=
  {| disk := disk w; temps := temps w; exports := exports w; uploads := u;
     unlinks := unlinks w; status := status w; output_text := output_text w;
     srt_content := srt_content w; reported := reported w;
     local_audio_file := local_audio_file w |}.

Definition with_unlinks (u : list string) (w : world) : world :=
  {| disk := disk w; temps := temps w; exports := exports w; uploads := uploads w;
     unlinks := u; status := status w; output_text := output_text w;
     srt_content := srt_content w; reported := reported w;
     local_audio_file := local_audio_file w |}.

Definition with_status (s : string) (w : world) : world :=
  {| disk := disk w; temps := temps w; exports := exports w; uploads := uploads w;
     unlinks := unlinks w; status := s; output_text := output_text w;
     srt_content := srt_content w; reported := reported w;
     local_audio_file := local_audio_file w |}.

Definition with_output_text (s : string) (w : world) : world :=
  {| disk := disk w; temps := temps w; exports := exports w; uploads := uploads w;
     unlinks := unlinks w; status := status w; output_text := s;
     srt_content := srt_content w; reported := reported w;
     local_audio_file := local_audio_file w |}.

Definition with_srt_content (s : option string) (w : world) : world :=
  {| disk := disk w; temps := temps w; exports := exports w; uploads := uploads w;
     unlinks := unlinks w; status := status w; output_text := output_text w;
     srt_content := s; reported := reported w;
     local_audio_file := local_audio_file w |}.

Definition with_reported (r : list exn) (w : world) : world :=
  {| disk := disk w; temps := temps w; exports := exports w; uploads := uploads w;
     unlinks := unlinks w; status := status w; output_text := output_text w;
     srt_content := srt_content w; reported := r;
     local_audio_file := local_audio_file w |}.

Definition with_local_audio_file (a : option string) (w : world) : world :=
  {| disk := disk w; temps := temps w; exports := exports w; uploads := uploads w;
     unlinks := unlinks w; status := status w; output_text := output_text w;
     srt_content := srt_content w; reported := reported w;
     local_audio_file := a |}.

(* ===================================================================== *)
(** ** Computations that may raise *)
(* ===================================================================== *)

Inductive result (A : Type) :=
| Ok (a : A)
| Raise (e : exn).

Arguments Ok {A} a.
Arguments Raise {A} e.

Definition M (A : Type) : Type := world -> result A * world.

Definition ret {A} (a : A) : M A := fun w => (Ok a, w).

Definition raise {A} (e : exn) : M A := fun w => (Raise e, w).

Definition bind {A B} (m : M A) (k : A -> M B) : M B :=
  fun w =>
    match m w with
    | (Ok a, w') => k a w'
    | (Raise e, w') => (Raise e, w')
    end.

Notation "x <- m ;; k" := (bind m (fun x => k))
  (at level 100, m at next level, right associativity).
Notation "m ;;; k" := (bind m (fun _ => k))
  (at level 100, right associativity).

(** [try: body / except Exception as e: handler e]. *)
Definition try_except {A} (body : M A) (handler : exn -> M A) : M A :=
  fun w =>
    match body w with
    | (Ok a, w') => (Ok a, w')
    | (Raise e, w') => handler e w'
    end.

(** [try: body / finally: final]. *)
Definition try_finally {A} (body : M A) (final : M unit) : M A :=
  fun w =>
    match body w with
    | (r, w') =>
        match final w' with
        | (Ok _, w'') => (r, w'')
        | (Raise e, w'') => (Raise e, w'')
        end
    end.

Definition modify (f : world -> world) : M unit := fun w => (Ok tt, f w).

(** [os.path.exists(path)]. *)
Definition os_path_exists (path : string) : M bool :=
  fun w => (Ok (bool_decide (path ∈ disk w)), w).

(** [os.unlink(path)]. *)
Definition os_unlink (path : string) : M unit :=
  fun w =>
    let w' := with_unlinks (unlinks w ++ [path]) w in
    if bool_decide (path ∈ disk w)
    then (Ok tt, with_disk (disk w ∖ {[ path ]}) w')
    else (Raise (FileNotFoundError path), w').

(* ===================================================================== *)
(** ** class WhisperTranscriber *)
(* ===================================================================== *)

(** One subtitle segment, as [_generate_srt] reads it. *)
Record segment := {
  segment_start : Q;
  segment_end : Q;
  segment_text : string
}.

(** The names the class body binds. *)
Definition WhisperTranscriber_attrs : list string :=
  [ "CHUNK_SIZE"; "API_UPLOAD_URL"; "__init__"; "check_ffmpeg"; "load_config";
    "optimize_audio"; "split_audio"; "transcribe"; "_generate_srt";
    "_format_timestamp" ]%string.

(** The names [__init__] binds on the instance. *)
Definition WhisperTranscriber_instance_attrs : list string :=
  [ "api_key"; "client" ]%string.

Definition has_attr (name : string) : bool :=
  existsb (String.eqb name)
    (WhisperTranscriber_instance_attrs ++ WhisperTranscriber_attrs).

(** [enumerate(l, start)]. *)
Fixpoint enumerate {A} (start : Z) (l : list A) : list (Z * A) :=
  match l with
  | [] => []
  | x :: l' => (start, x) :: enumerate (start + 1) l'
  end.

(** [audio[start:end]] on an [AudioSegment], the bounds in milliseconds. *)
Definition slice (audio : audio_segment) (start end_ : Z) : audio_segment :=
  let s := Z.min start (seg_len audio) in
  let e := Z.min end_ (seg_len audio) in
  {| seg_offset := seg_offset audio + s;
     seg_len := Z.max 0 (e - s);
     seg_channels := seg_channels audio;
     seg_frame_rate := seg_frame_rate audio |}.

Definition set_channels (c : Z) (audio : audio_segment) : audio_segment :=
  {| seg_offset := seg_offset audio; seg_len := seg_len audio;
     seg_channels := c; seg_frame_rate := seg_frame_rate audio |}.

Definition set_frame_rate (r : Z) (audio : audio_segment) : audio_segment :=
  {| seg_offset := seg_offset audio; seg_len := seg_len audio;
     seg_channels := seg_channels audio; seg_frame_rate := r |}.

(** [_format_timestamp]. *)
Definition _format_timestamp (seconds : Q) : string :=
  let hours := int_of_float (float_floordiv seconds (inject_Z 3600)) in
  let minutes :=
    int_of_float (float_floordiv (float_mod seconds (inject_Z 3600)) (inject_Z 60)) in
  let seconds := float_mod seconds (inject_Z 60) in
  replace_char "." ","
    (format_02d hours +:+ ":" +:+ format_02d minutes +:+ ":" +:+ format_06_3f seconds).

(** [_generate_srt]. *)
Definition srt_block (i : Z) (s : segment) : string :=
  let start := _format_timestamp (segment_start s) in
  let end_ := _format_timestamp (segment_end s) in
  let text := py_strip (segment_text s) in
  py_str i +:+ nl +:+ start +:+ " --> " +:+ end_ +:+ nl +:+ text +:+ nl.

Definition _generate_srt (segments : list segment) : string :=
  String.concat nl (map (fun p => srt_block (fst p) (snd p)) (enumerate 1 segments)).

(** The keyword arguments [transcribe] passes to the service. *)
Definition build_request (audio_file model_name : string) (create_srt : bool)
    (prompt_text language : option string) : request :=
  {| req_file := audio_file;
     req_model := model_name;
     req_language :=
       match language with
       | Some l => if String.eqb l "auto" then None else Some l
       | None => None
       end;
     req_prompt :=
       match prompt_text with
       | Some p => if truthy p && truthy (py_strip p) then Some p else None
       | None => None
       end;
     req_response_format := if create_srt then "srt"%string else "json"%string |}.

(** The settings of the two encoder calls. *)
Definition speech_parameters : list string :=
  [ "-ar"; "16000"; "-ac"; "1"; "-aq"; "4" ]%string.

Definition optimize_export (audio : audio_segment) (output_path : string) : export_call :=
  {| exp_audio := audio; exp_path := output_path;
     exp_format := "ogg"; exp_codec := "libvorbis";
     exp_bitrate := Some "32k"%string;
     exp_parameters := speech_parameters |}.

Definition chunk_export (chunk : audio_segment) (name : string) : export_call :=
  {| exp_audio := chunk; exp_path := name;
     exp_format := "ogg"; exp_codec := "libvorbis";
     exp_bitrate := None;
     exp_parameters := speech_parameters |}.

(** [int(i * chunk_duration)]: where window [i] starts and window [i - 1]
    ends. *)
Definition window_bound (chunk_duration : Q) (i : Z) : Z :=
  int_of_float (float_mul (float_of_int i) chunk_duration).

(** [math.ceil(file_size_mb / chunk_size_mb)], with
    [file_size_mb = file_size / (1024 * 1024)]. *)
Definition num_chunks_of (file_size chunk_size_mb : Z) : Z :=
  let file_size_mb := int_truediv file_size (1024 * 1024) in
  math_ceil (float_div file_size_mb (float_of_int chunk_size_mb)).

(** The time windows [(start, end)] of the loop of [split_audio], for an
    audio of [len] milliseconds cut into [num_chunks]. *)
Definition chunk_windows (len num_chunks : Z) : list (Z * Z) :=
  let chunk_duration := int_truediv len num_chunks in
  map (fun i : nat =>
         (window_bound chunk_duration (Z.of_nat i),
          window_bound chunk_duration (Z.of_nat i + 1)))
      (seq 0 (Z.to_nat num_chunks)).

Section Program.

Variable E : env.

(** What [self.transcriber.combine_srt] would be bound to if the class
    defined it. *)
Variable combine_srt_body : list string -> string.

Definition os_path_getsize (path : string) : M Z :=
  fun w =>
    if bool_decide (path ∈ disk w)
    then (Ok (encoded_size E path), w)
    else (Raise (FileNotFoundError path), w).

Definition NamedTemporaryFile (suffix : string) : M string :=
  fun w =>
    let name := tmp_name E suffix in
    (Ok name, with_temps (temps w ++ [name]) (with_disk (disk w ∪ {[ name ]}) w)).

Definition AudioSegment_from_file (path : string) : M audio_segment :=
  fun w =>
    if bool_decide (path ∈ disk w)
    then match decode E path with
         | Some audio => (Ok audio, w)
         | None => (Raise (CouldntDecodeError path), w)
         end
    else (Raise (FileNotFoundError path), w).

Definition AudioSegment_export (call : export_call) : M unit :=
  fun w =>
    let w' := with_exports (exports w ++ [call]) w in
    if encoder_ok E call
    then (Ok tt, with_disk (disk w' ∪ {[ exp_path call ]}) w')
    else (Raise (CouldntEncodeError (exp_path call)), w').

Definition transcriptions_create (req : request) : M string :=
  fun w =>
    let w' := with_uploads (uploads w ++ [req]) w in
    match api E req with
    | Some transcript => (Ok transcript, w')
    | None => (Raise APIError, w')
    end.

(** [optimize_audio]. *)
Definition optimize_audio (input_file : string) : M string :=
  try_except
    (audio <- AudioSegment_from_file input_file ;;
     let audio := set_channels 1 audio in
     let audio := set_frame_rate 16000 audio in
     output_path <- NamedTemporaryFile ".ogg" ;;
     AudioSegment_export (optimize_export audio output_path) ;;;
     _ <- os_path_getsize output_path ;;
     ret output_path)
    (fun e => raise e).

(** The loop of [split_audio], over the indices still to do. *)
Fixpoint split_loop (audio : audio_segment) (chunk_duration : Q)
    (indices : list nat) (chunks : list string) : M (list string) :=
  match indices with
  | [] => ret chunks
  | i :: rest =>
      let start := window_bound chunk_duration (Z.of_nat i) in
      let end_ := window_bound chunk_duration (Z.of_nat i + 1) in
      let chunk := slice audio start end_ in
      temp_file <- NamedTemporaryFile ("_chunk" +:+ py_str (Z.of_nat i) +:+ ".ogg") ;;
      AudioSegment_export (chunk_export chunk temp_file) ;;;
      _ <- os_path_getsize temp_file ;;
      split_loop audio chunk_duration rest (chunks ++ [temp_file])
  end.

(** [split_audio]. *)
Definition split_audio (input_file : string) (chunk_size_mb : Z) : M (list string) :=
  file_size <- os_path_getsize input_file ;;
  if file_size <=? chunk_size_mb * 1024 * 1024 then ret [input_file]
  else if chunk_size_mb =? 0 then raise ZeroDivisionError
  else
    let num_chunks := num_chunks_of file_size chunk_size_mb in
    audio <- AudioSegment_from_file input_file ;;
    if num_chunks =? 0 then raise ZeroDivisionError
    else
      let chunk_duration := int_truediv (seg_len audio) num_chunks in
      split_loop audio chunk_duration (seq 0 (Z.to_nat num_chunks)) [].

(** [transcribe]: the pair [(text, srt)] it returns. *)
Definition transcribe (audio_file model_name : string) (create_srt : bool)
    (prompt_text language : option string) : M (string * option string) :=
  try_except
    (if negb (client E)
     then raise (ValueError "OpenAI client not initialized. Check your API key.")
     else
       _ <- os_path_getsize audio_file ;;
       transcript <-
         transcriptions_create
           (build_request audio_file model_name create_srt prompt_text language) ;;
       if create_srt then ret (transcript, Some transcript)
       else ret (transcript, None))
    (fun e => raise (Exception ("Transcription error: " +:+ exn_str e))).

(** The attribute lookup [self.transcriber.combine_srt]. *)
Definition getattr_combine_srt : M (list string -> string) :=
  if has_attr "combine_srt" then ret combine_srt_body
  else raise (AttributeError "combine_srt").

(* ===================================================================== *)
(** ** class WhisperGUI *)
(* ===================================================================== *)

(** The variables of the form. *)
Record gui := {
  file_path : string;
  model_var : string;
  lang_var : string;
  prompt_text : string;
  create_srt : bool
}.

Definition update_status (message : string) : M unit := modify (with_status message).

(** The language [start_transcription] passes on. *)
Definition gui_language (g : gui) : option string :=
  if String.eqb (lang_var g) "auto" then None else Some (lang_var g).

(** The [for] loop of [start_transcription] over the chunks still to do;
    [i] counts from 1 and [n] is [len(chunks)]. *)
Fixpoint transcribe_chunks (g : gui) (n : nat) (i : Z) (chunks : list string)
    (full_text srt_parts : list string) : M (list string * list string) :=
  match chunks with
  | [] => ret (full_text, srt_parts)
  | chunk :: rest =>
      update_status ("Processing chunk " +:+ py_str i +:+ " of "
                     +:+ py_str (Z.of_nat n) +:+ "...") ;;;
      let lang := gui_language g in
      r <- transcribe chunk (model_var g) (create_srt g)
             (Some (py_strip (prompt_text g))) lang ;;
      let text := fst r in
      let srt := snd r in
      let full_text := full_text ++ [text] in
      let srt_parts :=
        match srt with
        | Some s => if truthy s then srt_parts ++ [s] else srt_parts
        | None => srt_parts
        end in
      try_except (os_unlink chunk) (fun _ => ret tt) ;;;
      transcribe_chunks g n (i + 1) rest full_text srt_parts
  end.

Definition blank_line : string := nl +:+ nl.

(** The request [start_transcription] has [transcribe] send for a chunk. *)
Definition gui_request (g : gui) (chunk : string) : request :=
  build_request chunk (model_var g) (create_srt g)
    (Some (py_strip (prompt_text g))) (gui_language g).

(** The body of the [try] of [start_transcription], first half: normalise
    and split. *)
Definition start_transcription_prepare (g : gui) : M (list string) :=
  update_status "Starting transcription..." ;;;
  audio_file <- optimize_audio (file_path g) ;;
  modify (with_local_audio_file (Some audio_file)) ;;;
  update_status "Preparing audio chunks..." ;;;
  split_audio audio_file 20.

(** Second half: transcribe each chunk and combine the results. *)
Definition start_transcription_combine (g : gui) (chunks : list string) : M unit :=
  update_status "Transcribing... (This may take a while)" ;;;
  r <- transcribe_chunks g (length chunks) 1 chunks [] [] ;;
  let full_text := fst r in
  let srt_parts := snd r in
  let combined_text := String.concat blank_line full_text in
  modify (with_output_text combined_text) ;;;
  (if create_srt g && negb (bool_decide (srt_parts = []))
   then combine_srt <- getattr_combine_srt ;;
        modify (with_srt_content (Some (combine_srt srt_parts)))
   else ret tt) ;;;
  update_status "Transcription complete!".

Definition start_transcription_body (g : gui) : M unit :=
  chunks <- start_transcription_prepare g ;;
  start_transcription_combine g chunks.

(** The [except] clause. *)
Definition start_transcription_except (e : exn) : M unit :=
  modify (fun w => with_reported (reported w ++ [e]) w) ;;;
  update_status "Error occurred during transcription".

(** The [finally] clause. *)
Definition start_transcription_finally : M unit :=
  try_except
    (fun w =>
       match local_audio_file w with
       | Some audio_file =>
           (present <- os_path_exists audio_file ;;
            if present then os_unlink audio_file else ret tt) w
       | None => (Ok tt, w)
       end)
    (fun _ => ret tt).

(** [start_transcription]. *)
Definition start_transcription (g : gui) : M unit :=
  fun w =>
    if negb (truthy (file_path g)) || negb (bool_decide (file_path g ∈ disk w))
    then (Ok tt, w)
    else
      try_finally
        (try_except (start_transcription_body g) start_transcription_except)
        start_transcription_finally
        (with_local_audio_file None w).

End Program.

(* ===================================================================== *)
(** ** The rest of the two classes *)
(* ===================================================================== *)

(** *** [check_ffmpeg], [load_config] and [check_dependencies] *)

(** The machine the program starts on: what each library call of the
    start-up, and the read of the model variable, does there. An exception is the [Raise] of a result; any
    exception a call may raise other than those named in [exn]
    ([PermissionError], for one) is some [Raise e] all the same. *)
Record host := {
  (** [subprocess.run(['ffmpeg', '-version'], ...)]: the exit status of
      ffmpeg, or the exception the call raises *)
  run_ffmpeg : result Z;
  (** [load_dotenv()] *)
  load_dotenv : result unit;
  (** [os.getenv('OPENAI_API_KEY')] *)
  getenv_api_key : option string;
  (** [openai.OpenAI(api_key=key)] *)
  new_client : string -> result unit;
  (** [self.model_var.get()] *)
  model_var_get : result string
}.

(** The attributes of a [WhisperTranscriber]; [self_client] holds the key the
    client was built with. *)
Record transcriber := {
  self_api_key : option string;
  self_client : option string
}.

(** [__init__]. *)
Definition new_transcriber : transcriber :=
  {| self_api_key := None; self_client := None |}.

(** [check_ffmpeg]: the exit status is not looked at, and only
    [FileNotFoundError] is caught. *)
Definition check_ffmpeg (H : host) : result bool :=
  match run_ffmpeg H with
  | Ok _ => Ok true
  | Raise (FileNotFoundError _) => Ok false
  | Raise e => Raise e
  end.

(** [load_config]. *)
Definition load_config (H : host) (t : transcriber) : result unit * transcriber :=
  match load_dotenv H with
  | Raise e => (Raise e, t)
  | Ok _ =>
      let t := {| self_api_key := getenv_api_key H; self_client := self_client t |} in
      match self_api_key t with
      | Some key =>
          if truthy key
          then match new_client H key with
               | Ok _ => (Ok tt, {| self_api_key := self_api_key t; self_client := Some key |})
               | Raise e => (Raise e, t)
               end
          else (Raise (ValueError "OpenAI API key not found in .env file"), t)
      | None => (Raise (ValueError "OpenAI API key not found in .env file"), t)
      end
  end.

(** [check_dependencies]: the call of [check_ffmpeg] is outside the [try];
    inside it come [load_config] and then the message that reads the model
    variable. *)
Definition check_dependencies (H : host) (t : transcriber) : result bool * transcriber :=
  match check_ffmpeg H with
  | Raise e => (Raise e, t)
  | Ok false => (Ok false, t)
  | Ok true =>
      match load_config H t with
      | (Ok _, t') =>
          match model_var_get H with
          | Ok _ => (Ok true, t')
          | Raise _ => (Ok false, t')
          end
      | (Raise _, t') => (Ok false, t')
      end
  end.

(** *** [setup_ui]: the grid of language buttons *)

Definition common_langs : list (string * string) :=
  [ ("Auto-detect", "auto"); ("English", "en"); ("Italiano", "it");
    ("Español", "es"); ("Français", "fr"); ("Deutsch", "de"); ("中文", "zh") ]%string.

(** One [ttk.Radiobutton] of the language frame and the cell [grid] puts it
    in. *)
Record radio := {
  rb_text : string;
  rb_value : string;
  rb_row : Z;
  rb_column : Z
}.

(** The loop over [common_langs], from the current [row] and [col]. *)
Fixpoint language_grid (langs : list (string * string)) (row col : Z) : list radio :=
  match langs with
  | [] => []
  | (lang_name, lang_code) :: rest =>
      let rb := {| rb_text := lang_name; rb_value := lang_code;
                   rb_row := row; rb_column := col |} in
      let col := col + 1 in
      if 3 <? col then rb :: language_grid rest (row + 1) 0
      else rb :: language_grid rest row col
  end.

(** *** [clear_output] and [save_output] *)

(** What the save dialog and the file system answer. *)
Record desk := {
  (** [os.path.splitext(os.path.basename(path))[0]] *)
  initialfile : string -> string;
  (** [filedialog.asksaveasfilename(..., initialfile=...)]: the name chosen,
      empty when the dialog is cancelled, or the exception the call raises *)
  asksaveasfilename : string -> result string;
  (** whether [open(filename, 'w')] succeeds; it creates the file *)
  open_ok : string -> bool;
  (** whether [f.write(text)] succeeds *)
  write_ok : string -> bool
}.

(** What [save_output] did. *)
Inductive saving :=
| NoTranscription
| Cancelled
| Saved (filename text : string)
| SaveFailed (filename : string).

(** [self.output_text.get(1.0, tk.END)]: the text of the widget and the
    newline Tk ends it with. *)
Definition output_text_get (w : world) : string := output_text w +:+ nl.

(** [clear_output]. *)
Definition clear_output : M unit := modify (with_output_text EmptyString).

(** [save_output]: the dialog is outside the [try], [open] and the write are
    inside it. *)
Definition save_output (D : desk) (g : gui) : M saving :=
  fun w =>
    let text := py_strip (output_text_get w) in
    if negb (truthy text) then (Ok NoTranscription, w)
    else
      match asksaveasfilename D (initialfile D (file_path g)) with
      | Raise e => (Raise e, w)
      | Ok filename =>
          if truthy filename
          then if open_ok D filename
               then let w' := with_disk (disk w ∪ {[ filename ]}) w in
                    if write_ok D filename
                    then (Ok (Saved filename text), w')
                    else (Ok (SaveFailed filename), w')
               else (Ok (SaveFailed filename), w)
          else (Ok Cancelled, w)
      end.

(* ===================================================================== *)
(** ** Vocabulary of the statements *)
(* ===================================================================== *)

(** Zero padding of a digit string to two places. *)
Definition pad2 (s : string) : string := zeros (2 - String.length s) +:+ s.

(** An effect [m] keeps a relation [R] between the world before and after. *)
Definition preserves {A} (R : world -> world -> Prop) (m : M A) : Prop :=
  forall w, R w (snd (m w)).

(** What normalising and splitting never touch. *)
Definition quiet (w w' : world) : Prop :=
  uploads w' = uploads w /\ unlinks w' = unlinks w /\
  output_text w' = output_text w /\ srt_content w' = srt_content w /\
  reported w' = reported w.

(** What only the end of a successful run, or the [except] clause, writes. *)
Definition unwritten (w w' : world) : Prop :=
  output_text w' = output_text w /\ srt_content w' = srt_content w /\
  reported w' = reported w.

Definition encoder_works (E : env) : Prop := forall call, encoder_ok E call = true.

(** The audio [optimize_audio] hands to the encoder. *)
Definition normalized (audio : audio_segment) : audio_segment :=
  set_frame_rate 16000 (set_channels 1 audio).

Definition after_export (call : export_call) (w : world) : world :=
  let w' := with_exports (exports w ++ [call]) w in
  with_disk (disk w' ∪ {[ exp_path call ]}) w'.

Definition after_tempfile (name : string) (w : world) : world :=
  with_temps (temps w ++ [name]) (with_disk (disk w ∪ {[ name ]}) w).

(** The world after a successful [optimize_audio]. *)
Definition after_optimize (E : env) (audio : audio_segment) (w : world) : world :=
  let name := tmp_name E ".ogg" in
  after_export (optimize_export (normalized audio) name) (after_tempfile name w).

(** The temporary file of chunk [i]. *)
Definition chunk_name (E : env) (i : nat) : string :=
  tmp_name E ("_chunk" +:+ py_str (Z.of_nat i) +:+ ".ogg").

Definition chunk_status (n : nat) (i : Z) : string :=
  "Processing chunk " +:+ py_str i +:+ " of " +:+ py_str (Z.of_nat n) +:+ "...".

Definition transcribing : string := "Transcribing... (This may take a while)".

(** The world once the request for a chunk has been sent, and once the chunk
    has been transcribed and its file deleted. *)
Definition after_upload (g : gui) (n : nat) (i : Z) (chunk : string) (w : world) : world :=
  let ws := with_status (chunk_status n i) w in
  with_uploads (uploads ws ++ [gui_request g chunk]) ws.

Definition after_chunk (g : gui) (n : nat) (i : Z) (chunk : string) (w : world) : world :=
  let wu := after_upload g n i chunk w in
  with_disk (disk wu ∖ {[ chunk ]}) (with_unlinks (unlinks wu ++ [chunk]) wu).

(** What the service answers for a chunk. *)
Definition gui_answer (E : env) (g : gui) (chunk : string) : string :=
  match api E (gui_request g chunk) with
  | Some transcript => transcript
  | None => EmptyString
  end.

(** The [srt_parts] the loop collects over chunks that all succeed. *)
Definition srt_parts_of (E : env) (g : gui) (chunks : list string) : list string :=
  if create_srt g then List.filter truthy (map (gui_answer E g) chunks) else [].

(** [w1] is [w] after the chunks were transcribed and deleted, in order. *)
Definition ran_chunks (g : gui) (chunks : list string) (w w1 : world) : Prop :=
  disk w1 = disk w ∖ list_to_set chunks /\
  uploads w1 = uploads w ++ map (gui_request g) chunks /\
  unlinks w1 = unlinks w ++ chunks /\
  temps w1 = temps w /\ exports w1 = exports w /\
  output_text w1 = output_text w /\ srt_content w1 = srt_content w /\
  reported w1 = reported w /\ local_audio_file w1 = local_audio_file w.

(** The chunk files are distinct, on disk, and the service answers each. *)
Definition chunks_ready (E : env) (g : gui) (chunks : list string) (w : world) : Prop :=
  NoDup chunks /\
  forall c, c ∈ chunks -> c ∈ disk w /\ is_Some (api E (gui_request g c)).

(** The world after the [finally] clause and after the [except] clause. *)
Definition finally_world (w : world) : world :=
  match local_audio_file w with
  | Some audio_file =>
      if bool_decide (audio_file ∈ disk w)
      then with_disk (disk w ∖ {[ audio_file ]})
             (with_unlinks (unlinks w ++ [audio_file]) w)
      else w
  | None => w
  end.

Definition except_world (e : exn) (w : world) : world :=
  with_status "Error occurred during transcription"
    (with_reported (reported w ++ [e]) w).

(** [start_transcription] gets past its first test. *)
Definition run_starts (g : gui) (w : world) : Prop :=
  truthy (file_path g) = true /\ file_path g ∈ disk w.

(** The temporary files that are still on disk. *)
Definition leftover_temps (w : world) : list string :=
  List.filter (fun path => bool_decide (path ∈ disk w)) (temps w).

(** The span of the decoded file that an encoder call writes. *)
Definition export_window (call : export_call) : Z * Z :=
  let a := exp_audio call in (seg_offset a, seg_offset a + seg_len a).

(** Agreement of [rnd] with [SpecFloat] on one quotient and one product. *)
Definition agrees_div (a b : Z) : bool :=
  Qeq_bool (sf_value (sf_int_truediv a b)) (int_truediv a b).

Definition agrees_mul (i a b : Z) : bool :=
  Qeq_bool (sf_value (sf_int_mul i (sf_int_truediv a b)))
    (float_mul (float_of_int i) (int_truediv a b)).

(** Zero padding of a digit string to three places. *)
Definition pad3 (s : string) : string := zeros (3 - String.length s) +:+ s.

(** The timestamp of a whole number of milliseconds, field by field. *)
Definition srt_time (T : Z) : string :=
  pad2 (py_str (T / 3600000)) +:+ ":" +:+
  pad2 (py_str (T / 60000 mod 60)) +:+ ":" +:+
  pad2 (py_str (T / 1000 mod 60)) +:+ "," +:+
  pad3 (py_str (T mod 1000)).

(** The value a string of decimal digits denotes, read after [acc]. *)
Fixpoint read_digits (s : string) (acc : Z) : Z :=
  match s with
  | EmptyString => acc
  | String c s' => read_digits s' (10 * acc + (Z.of_nat (nat_of_ascii c) - 48))
  end.

(** Every character is white space. *)
Fixpoint all_space (s : string) : bool :=
  match s with
  | EmptyString => true
  | String a s1 =>
      if is_space1 a then all_space s1
      else
        match s1 with
        | EmptyString => false
        | String b s2 =>
            if is_space2 a b then all_space s2
            else
              match s2 with
              | EmptyString => false
              | String c s3 => is_space3 a b c && all_space s3
              end
        end
  end.

(** The message of the [ValueError] that [transcribe] raises without a
    client. *)
Definition not_initialized : string :=
  "OpenAI client not initialized. Check your API key.".

(** No file is removed, and every temporary file created in between is on
    disk at the end. *)
Definition keeps_files (w w' : world) : Prop :=
  disk w ⊆ disk w' /\ forall p, p ∈ temps w' -> p ∈ temps w \/ p ∈ disk w'.

(** The suffix [split_audio] asks a temporary file for. *)
Definition chunk_suffix (i : nat) : string :=
  "_chunk" +:+ py_str (Z.of_nat i) +:+ ".ogg".

(** The encoder call for chunk [i] of [audio]. *)
Definition chunk_call (E : env) (audio : audio_segment) (cd : Q) (i : nat) : export_call :=
  chunk_export
    (slice audio (window_bound cd (Z.of_nat i)) (window_bound cd (Z.of_nat i + 1)))
    (chunk_name E i).


(* ===================================================================== *)
(** ** Concrete runs *)
(* ===================================================================== *)

Module Scenario.

Definition MB : Z := 1024 * 1024.

Definition talk : string := "/home/user/talk.mp3".

Definition tmp (suffix : string) : string := "/tmp/tmpq3x7" +:+ suffix.

Definition stereo (len : Z) : audio_segment :=
  {| seg_offset := 0; seg_len := len; seg_channels := 2; seg_frame_rate := 44100 |}.

(** A machine on which decoding and encoding work, the normalised artifact
    has [size] bytes and the recording lasts [len] milliseconds. *)
Definition studio (size len : Z) (service : request -> option string) : env :=
  {| tmp_name := tmp;
     decode := fun path =>
       if String.eqb path talk then Some (stereo len)
       else Some (normalized (stereo len));
     encoder_ok := fun _ => true;
     encoded_size := fun path => if String.eqb path (tmp ".ogg") then size else MB;
     client := true;
     api := service |}.

Definition idle : world :=
  {| disk := {[ talk ]}; temps := []; exports := []; uploads := []; unlinks := [];
     status := "Ready to transcribe!"; output_text := EmptyString;
     srt_content := None; reported := []; local_audio_file := None |}.

Definition form (srt : bool) : gui :=
  {| file_path := talk; model_var := "whisper-1"; lang_var := "auto";
     prompt_text := EmptyString; create_srt := srt |}.

(** A service that answers every request with the same words, or with the
    same one-cue subtitle document. *)
Definition hears_words (r : request) : option string := Some "spoken words"%string.

Definition one_cue : string :=
  _generate_srt
    [ {| segment_start := 0; segment_end := 2; segment_text := "spoken words" |} ].

Definition hears_cues (r : request) : option string := Some one_cue.

(** A service whose call raises for one file. *)
Definition fails_on (bad : string) (r : request) : option string :=
  if String.eqb (req_file r) bad then None else Some "spoken words"%string.

Definition chunk0 : string := tmp "_chunk0.ogg".
Definition chunk1 : string := tmp "_chunk1.ogg".
Definition chunk2 : string := tmp "_chunk2.ogg".

(** 55 MB normalised, 20 MB limit: three chunks. *)
Definition three_chunks (service : request -> option string) : env :=
  studio (55 * MB) 13750000 service.

(** 10 MB normalised: under the limit. *)
Definition one_chunk (service : request -> option string) : env :=
  studio (10 * MB) 2500000 service.

(** Nine hours of audio in 130 MB: seven chunks. *)
Definition nine_hours : env := studio (130 * MB) 32400000 hears_words.

(** The world in which [split_audio] starts on the 55 MB artifact. *)
Definition split_ready : world :=
  after_optimize (three_chunks hears_words) (stereo 13750000) idle.

(** The world in which the transcription loop starts. *)
Definition prepared (E : env) (g : gui) : world :=
  snd (start_transcription_prepare E g (with_local_audio_file None idle)).

(** A stand-in for the body [combine_srt] does not have. *)
Definition no_combiner (parts : list string) : string := EmptyString.

(** The same machine started without an API key: [self.client] is unset. *)
Definition without_client (E : env) : env :=
  {| tmp_name := tmp_name E; decode := decode E; encoder_ok := encoder_ok E;
     encoded_size := encoded_size E; client := false; api := api E |}.

(** The same machine with an encoder that fails. *)
Definition broken_encoder (E : env) : env :=
  {| tmp_name := tmp_name E; decode := decode E; encoder_ok := fun _ => false;
     encoded_size := encoded_size E; client := client E; api := api E |}.

(** U+00A0 and U+3000, as UTF-8 writes them. *)
Definition no_break_space : string :=
  String (ascii_of_nat 194) (String (ascii_of_nat 160) EmptyString).

Definition ideographic_space : string :=
  String (ascii_of_nat 227)
    (String (ascii_of_nat 128) (String (ascii_of_nat 128) EmptyString)).

(** Two cues given in whole milliseconds. *)
Definition two_cues : list segment :=
  [ {| segment_start := int_truediv 0 1000; segment_end := int_truediv 2500 1000;
       segment_text := " Good morning. " |};
    {| segment_start := int_truediv 2500 1000; segment_end := int_truediv 3723004 1000;
       segment_text := "Welcome back." |} ].

End Scenario.

(* ===================================================================== *)
(** ** Facts about binary64 rounding *)
(* ===================================================================== *)

Lemma pow2_pos z : (0 < pow2 z)%Q.
Proof. apply Qpower_0_lt. reflexivity. Qed.

Lemma pow2_add a b : (pow2 (a + b) == pow2 a * pow2 b)%Q.
Proof. apply Qpower_plus. discriminate. Qed.

Lemma pow2_Z z : 0 <= z -> (pow2 z == inject_Z (2 ^ z))%Q.
Proof. intros Hz. unfold pow2. now rewrite Zpower_Qpower. Qed.

Lemma pow2_lt_inv a b : (pow2 a < pow2 b)%Q -> a < b.
Proof. intros H. apply (Qpower_lt_compat_l_inv (2 # 1)); [exact H | reflexivity]. Qed.

Lemma round_half_even_comp s t : (s == t)%Q -> round_half_even s = round_half_even t.
Proof.
  intros E. unfold round_half_even.
  now rewrite (Qfloor_comp _ _ E), E.
Qed.

Lemma round_half_even_Z z : round_half_even (inject_Z z) = z.
Proof.
  unfold round_half_even. rewrite Qfloor_Z.
  destruct (Qcompare _ _) eqn:C; [apply Qeq_alt in C; lra | reflexivity |].
  apply Qgt_alt in C. lra.
Qed.

Lemma round_half_even_near s :
  (s - (1 # 2) <= inject_Z (round_half_even s) <= s + (1 # 2))%Q.
Proof.
  unfold round_half_even.
  pose proof (Qfloor_le s) as Hl. pose proof (Qlt_floor s) as Hu.
  rewrite inject_Z_plus in Hu. change (inject_Z 1) with 1%Q in Hu.
  destruct (Qcompare _ _) eqn:C.
  - apply Qeq_alt in C.
    destruct (Z.even _); rewrite ?inject_Z_plus;
      change (inject_Z 1) with 1%Q; lra.
  - apply Qlt_alt in C. lra.
  - apply Qgt_alt in C. rewrite inject_Z_plus.
    change (inject_Z 1) with 1%Q. lra.
Qed.

Lemma Qmake_pos_lt (q : Q) : (0 < q)%Q <-> 0 < Qnum q.
Proof. unfold Qlt. simpl. lia. Qed.

Lemma ilog2_lower q : (0 < q)%Q -> (pow2 (ilog2 q) <= q)%Q.
Proof.
  intros Hq. unfold ilog2.
  destruct (Qle_bool _ _) eqn:B; [now apply Qle_bool_iff in B|]. clear B.
  destruct q as [a b]. apply Qmake_pos_lt in Hq. cbn [Qnum Qden] in *.
  destruct (Z.log2_spec a Hq) as [Ha _].
  destruct (Z.log2_spec (Z.pos b) ltac:(lia)) as [_ Hb].
  pose proof (Z.log2_nonneg a) as Hla. pose proof (Z.log2_nonneg (Z.pos b)) as Hlb.
  set (la := Z.log2 a) in *. set (lb := Z.log2 (Z.pos b)) in *.
  apply (Qmult_le_r _ _ (pow2 (Z.succ lb))); [apply pow2_pos|].
  rewrite <- pow2_add. replace (la - lb - 1 + Z.succ lb) with la by lia.
  rewrite (pow2_Z la), (pow2_Z (Z.succ lb)) by lia.
  unfold Qle, Qmult, inject_Z; simpl Qnum; simpl Qden.
  rewrite Pos.mul_1_r, !Z.mul_1_r.
  apply Z.le_trans with (a * Z.pos b); [nia|nia].
Qed.

Lemma ilog2_upper q : (0 < q)%Q -> (q < pow2 (ilog2 q + 1))%Q.
Proof.
  intros Hq. unfold ilog2.
  destruct (Qle_bool _ _) eqn:B.
  2:{ replace (_ - 1 + 1) with (Z.log2 (Qnum q) - Z.log2 (Z.pos (Qden q))) by lia.
      apply Qnot_le_lt. intros H. apply Qle_bool_iff in H. congruence. }
  clear B.
  destruct q as [a b]. apply Qmake_pos_lt in Hq. cbn [Qnum Qden] in *.
  destruct (Z.log2_spec a Hq) as [_ Ha].
  destruct (Z.log2_spec (Z.pos b) ltac:(lia)) as [Hb _].
  pose proof (Z.log2_nonneg a) as Hla. pose proof (Z.log2_nonneg (Z.pos b)) as Hlb.
  set (la := Z.log2 a) in *. set (lb := Z.log2 (Z.pos b)) in *.
  apply (Qmult_lt_r _ _ (pow2 lb)); [apply pow2_pos|].
  rewrite <- pow2_add. replace (la - lb + 1 + lb) with (Z.succ la) by lia.
  rewrite (pow2_Z lb), (pow2_Z (Z.succ la)) by lia.
  unfold Qlt, Qmult, inject_Z; simpl Qnum; simpl Qden.
  rewrite !Z.mul_1_r.
  apply Z.le_lt_trans with (a * Z.pos b); [nia|nia].
Qed.


Lemma rnd_pos_error q :
  (0 < q)%Q ->
  (q - q * pow2 (-53) <= rnd_pos q <= q + q * pow2 (-53))%Q.
Proof.
  intros Hq. unfold rnd_pos. rewrite Qred_correct.
  pose proof (ilog2_lower q Hq) as He.
  set (e := ilog2 q) in *.
  pose proof (round_half_even_near (q * pow2 (52 - e))) as [Hl Hu].
  set (m := inject_Z (round_half_even (q * pow2 (52 - e)))) in *.
  pose proof (pow2_pos (e - 52)) as HP.
  pose proof (pow2_pos (-53)) as H53.
  assert (E1 : (pow2 (52 - e) * pow2 (e - 52) == 1)%Q).
  { rewrite <- pow2_add. now replace (52 - e + (e - 52)) with 0 by lia. }
  assert (E2 : (pow2 (e - 52) == 2 * (pow2 e * pow2 (-53)))%Q).
  { rewrite <- pow2_add. change 2%Q with (pow2 1). rewrite <- pow2_add.
    now replace (1 + (e + -53)) with (e - 52) by lia. }
  assert (E3 : (pow2 e * pow2 (-53) <= q * pow2 (-53))%Q).
  { apply Qmult_le_compat_r; [exact He | now apply Qlt_le_weak]. }
  apply (Qmult_le_compat_r _ _ (pow2 (e - 52))) in Hl; [|now apply Qlt_le_weak].
  apply (Qmult_le_compat_r _ _ (pow2 (e - 52))) in Hu; [|now apply Qlt_le_weak].
  assert (E4 : (q * pow2 (52 - e) * pow2 (e - 52) == q)%Q).
  { rewrite <- Qmult_assoc, E1. ring. }
  set (P := pow2 (e - 52)) in *. set (U := pow2 (-53)) in *.
  set (s := (q * pow2 (52 - e))%Q) in *.
  assert (Hl' : (s * P - (1 # 2) * P <= m * P)%Q) by (ring_simplify in Hl; lra).
  assert (Hu' : (m * P <= s * P + (1 # 2) * P)%Q) by (ring_simplify in Hu; lra).
  rewrite E4 in Hl', Hu'. rewrite E2 in Hl', Hu'. split; lra.
Qed.

Lemma rnd_pos_exact q z j :
  0 < z < 2 ^ 53 -> (q == inject_Z z * pow2 j)%Q -> (rnd_pos q == q)%Q.
Proof.
  intros Hz E. unfold rnd_pos. rewrite Qred_correct.
  assert (Hq : (0 < q)%Q).
  { rewrite E. apply Qmult_lt_0_compat; [|apply pow2_pos].
    change 0%Q with (inject_Z 0). rewrite <- Zlt_Qlt. lia. }
  pose proof (ilog2_lower q Hq) as He.
  set (e := ilog2 q) in *.
  assert (Hlt : e < j + 53).
  { apply pow2_lt_inv. eapply Qle_lt_trans; [exact He|].
    rewrite E, Z.add_comm, pow2_add, (pow2_Z 53) by lia.
    apply Qmult_lt_compat_r; [apply pow2_pos|]. rewrite <- Zlt_Qlt. lia. }
  assert (Es : (q * pow2 (52 - e) == inject_Z (z * 2 ^ (j + 52 - e)))%Q).
  { rewrite E, <- Qmult_assoc, <- pow2_add, inject_Z_mult.
    rewrite <- pow2_Z by lia. now replace (j + (52 - e)) with (j + 52 - e) by lia. }
  rewrite (round_half_even_comp _ _ Es), round_half_even_Z.
  rewrite <- Es, <- Qmult_assoc, <- pow2_add.
  replace (52 - e + (e - 52)) with 0 by lia. change (pow2 0) with 1%Q. ring.
Qed.

Lemma rnd_comp q q' : (q == q')%Q -> rnd q = rnd q'.
Proof. intros E. unfold rnd. now rewrite (Qred_complete _ _ E). Qed.

Lemma rnd_of_pos q : (0 < q)%Q -> rnd q = rnd_pos (Qred q).
Proof.
  intros Hq. unfold rnd.
  assert (H : (0 < Qred q)%Q) by now rewrite Qred_correct.
  apply Qmake_pos_lt in H. destruct (Qnum (Qred q)); try lia. reflexivity.
Qed.

Lemma rnd_error q :
  (0 < q)%Q -> (q - q * pow2 (-53) <= rnd q <= q + q * pow2 (-53))%Q.
Proof.
  intros Hq. rewrite (rnd_of_pos q Hq).
  assert (H : (0 < Qred q)%Q) by now rewrite Qred_correct.
  pose proof (rnd_pos_error _ H) as B.
  pose proof (Qred_correct q) as E.
  assert (E' : (Qred q * pow2 (-53) == q * pow2 (-53))%Q) by now rewrite E.
  lra.
Qed.

Lemma rnd_exact q z j :
  0 < z < 2 ^ 53 -> (q == inject_Z z * pow2 j)%Q -> (rnd q == q)%Q.
Proof.
  intros Hz E.
  assert (Hq : (0 < q)%Q).
  { rewrite E. apply Qmult_lt_0_compat; [|apply pow2_pos].
    change 0%Q with (inject_Z 0). rewrite <- Zlt_Qlt. lia. }
  rewrite (rnd_of_pos q Hq).
  rewrite (rnd_pos_exact (Qred q) z j Hz); [apply Qred_correct|].
  now rewrite Qred_correct.
Qed.

Lemma rnd_exact_int z : 0 <= z < 2 ^ 53 -> (rnd (inject_Z z) == inject_Z z)%Q.
Proof.
  intros Hz. destruct (Z.eq_dec z 0) as [->|Hn]; [reflexivity|].
  apply (rnd_exact _ z 0); [lia|]. change (pow2 0) with 1%Q. ring.
Qed.



Lemma Qceiling_unique (x : Q) (k : Z) :
  (inject_Z (k - 1) < x)%Q -> (x <= inject_Z k)%Q -> Qceiling x = k.
Proof.
  intros Hl Hu.
  pose proof (Qle_ceiling x) as H1. pose proof (Qceiling_lt x) as H2.
  assert (k - 1 < Qceiling x) by (rewrite Zlt_Qlt; lra).
  assert (Qceiling x - 1 < k) by (rewrite Zlt_Qlt; lra).
  lia.
Qed.

Lemma num_chunks_of_exact (S c : Z) :
  0 < c -> c * 1048576 < S < 2 ^ 53 ->
  num_chunks_of S c = (S + c * 1048576 - 1) / (c * 1048576).
Proof.
  intros Hc HS. unfold num_chunks_of, math_ceil, float_div, float_of_int, int_truediv.
  change (1024 * 1024) with 1048576.
  set (M := c * 1048576) in *.
  set (q := (inject_Z S / inject_Z M)%Q).
  assert (HM : (0 < inject_Z M)%Q).
  { change 0%Q with (inject_Z 0). rewrite <- Zlt_Qlt. lia. }
  assert (Ex : (rnd (inject_Z S / inject_Z 1048576) == inject_Z S * pow2 (-20))%Q).
  { assert (E : (inject_Z S / inject_Z 1048576 == inject_Z S * pow2 (-20))%Q) by reflexivity.
    rewrite (rnd_exact _ S (-20)); [exact E | lia | exact E]. }
  assert (Ec : (rnd (inject_Z c) == inject_Z c)%Q) by (apply rnd_exact_int; lia).
  assert (Eq : (rnd (inject_Z S / inject_Z 1048576) / rnd (inject_Z c) == q)%Q).
  { rewrite Ex, Ec. unfold q, M. rewrite inject_Z_mult.
    change (pow2 (-20)) with (/ inject_Z 1048576)%Q.
    assert (0 < inject_Z c)%Q by (change 0%Q with (inject_Z 0); rewrite <- Zlt_Qlt; lia).
    field. lra. }
  rewrite (rnd_comp _ _ Eq).
  set (k := (S + M - 1) / M).
  assert (Hk : (k - 1) * M < S <= k * M).
  { pose proof (Z.div_mod (S + M - 1) M ltac:(lia)) as D.
    pose proof (Z.mod_pos_bound (S + M - 1) M ltac:(lia)) as B.
    fold k in D. nia. }
  assert (Hk1 : 1 <= k) by nia.
  assert (Hqm : (q * inject_Z M == inject_Z S)%Q) by (unfold q; field; lra).
  destruct (Z.eq_dec S (k * M)) as [Heq|Hne].
  - assert (E : (q == inject_Z k)%Q).
    { unfold q. rewrite Heq, inject_Z_mult. field. lra. }
    rewrite (rnd_comp _ _ E).
    rewrite (Qceiling_comp _ _ (rnd_exact_int k ltac:(nia))). apply Qceiling_Z.
  - assert (Hq : (0 < q)%Q).
    { unfold q. apply Qlt_shift_div_l; [exact HM|].
      rewrite Qmult_0_l. change 0%Q with (inject_Z 0). rewrite <- Zlt_Qlt. lia. }
    pose proof (rnd_error q Hq) as [Hl Hu].
    set (U := pow2 (-53)) in *.
    assert (HsU : (inject_Z S * U < 1)%Q).
    { assert (E : (inject_Z (2 ^ 53) * U == 1)%Q) by reflexivity.
      rewrite <- E. apply Qmult_lt_compat_r; [apply pow2_pos|].
      rewrite <- Zlt_Qlt. lia. }
    assert (HsU0 : (0 < inject_Z S * U)%Q).
    { apply Qmult_lt_0_compat; [|apply pow2_pos].
      change 0%Q with (inject_Z 0). rewrite <- Zlt_Qlt. lia. }
    assert (B1 : (inject_Z S + 1 <= inject_Z k * inject_Z M)%Q).
    { rewrite <- inject_Z_mult. change 1%Q with (inject_Z 1).
      rewrite <- inject_Z_plus, <- Zle_Qle. lia. }
    assert (B2 : (inject_Z (k - 1) * inject_Z M + 1 <= inject_Z S)%Q).
    { rewrite <- inject_Z_mult. change 1%Q with (inject_Z 1).
      rewrite <- inject_Z_plus, <- Zle_Qle. lia. }
    apply Qceiling_unique.
    + apply Qlt_le_trans with (q - q * U)%Q; [|exact Hl].
      apply (Qmult_lt_r _ _ (inject_Z M) HM).
      assert (E : ((q - q * U) * inject_Z M == inject_Z S - inject_Z S * U)%Q)
        by (rewrite <- Hqm; ring).
      rewrite E. lra.
    + apply Qle_trans with (q + q * U)%Q; [exact Hu|].
      apply (Qmult_le_r _ _ (inject_Z M) HM).
      assert (E : ((q + q * U) * inject_Z M == inject_Z S + inject_Z S * U)%Q)
        by (rewrite <- Hqm; ring).
      rewrite E. lra.
Qed.


(* ===================================================================== *)
(** ** Facts about strings and decimal digits *)
(* ===================================================================== *)

(** ** Strings *)

Lemma append_cons (c : ascii) (a b : string) :
  String c a +:+ b = String c (a +:+ b).
Proof. reflexivity. Qed.

Lemma append_empty_l (a : string) : EmptyString +:+ a = a.
Proof. reflexivity. Qed.

Lemma length_append (a b : string) :
  String.length (a +:+ b) = (String.length a + String.length b)%nat.
Proof.
  induction a as [|c a IH]; [reflexivity|].
  rewrite append_cons. simpl. now rewrite IH.
Qed.

Lemma append_assoc (a b c : string) : (a +:+ b) +:+ c = a +:+ (b +:+ c).
Proof.
  induction a as [|x a IH]; [reflexivity|].
  rewrite !append_cons. now rewrite IH.
Qed.

Lemma all_digits_append (a b : string) :
  all_digits (a +:+ b) = all_digits a && all_digits b.
Proof.
  induction a as [|c a IH]; [reflexivity|].
  rewrite append_cons. simpl. now rewrite IH, andb_assoc.
Qed.

Lemma all_digits_zeros (n : nat) : all_digits (zeros n) = true.
Proof. induction n as [|n IH]; simpl; [reflexivity | exact IH]. Qed.

Lemma length_zeros (n : nat) : String.length (zeros n) = n.
Proof. induction n as [|n IH]; simpl; [reflexivity | now rewrite IH]. Qed.

Lemma replace_char_append (x y : ascii) (a b : string) :
  replace_char x y (a +:+ b) = replace_char x y a +:+ replace_char x y b.
Proof.
  induction a as [|c a IH]; [reflexivity|].
  rewrite append_cons. simpl. now rewrite IH.
Qed.

Lemma replace_dot_digits (s : string) :
  all_digits s = true -> replace_char "." "," s = s.
Proof.
  induction s as [|c s IH]; simpl; [reflexivity|].
  intros H. apply andb_prop in H as [Hc Hs]. rewrite (IH Hs).
  destruct (Ascii.eqb_spec c ".") as [->|_]; [discriminate Hc | reflexivity].
Qed.

Lemma is_digit_digit_char (d : Z) : 0 <= d < 10 -> is_digit (digit_char d) = true.
Proof.
  intros H.
  assert (C : d = 0 \/ d = 1 \/ d = 2 \/ d = 3 \/ d = 4 \/ d = 5 \/ d = 6 \/ d = 7
              \/ d = 8 \/ d = 9) by lia.
  repeat (destruct C as [-> | C]; [reflexivity|]). now subst.
Qed.

Lemma str_digits_O (n : Z) (acc : string) :
  str_digits O n acc = String (digit_char (n mod 10)) acc.
Proof. reflexivity. Qed.

Lemma str_digits_S (fuel : nat) (n : Z) (acc : string) :
  str_digits (S fuel) n acc =
  if n <? 10 then String (digit_char (n mod 10)) acc
  else str_digits fuel (n / 10) (String (digit_char (n mod 10)) acc).
Proof. reflexivity. Qed.

Lemma all_digits_cons (c : ascii) (s : string) :
  all_digits (String c s) = is_digit c && all_digits s.
Proof. reflexivity. Qed.

Lemma all_digits_str_digits (fuel : nat) (n : Z) (acc : string) :
  0 <= n -> all_digits acc = true -> all_digits (str_digits fuel n acc) = true.
Proof.
  revert n acc. induction fuel as [|fuel IH]; intros n acc Hn Hacc.
  - rewrite str_digits_O, all_digits_cons, Hacc.
    now rewrite is_digit_digit_char by (apply Z.mod_pos_bound; lia).
  - rewrite str_digits_S. destruct (n <? 10).
    + rewrite all_digits_cons, Hacc.
      now rewrite is_digit_digit_char by (apply Z.mod_pos_bound; lia).
    + apply IH; [apply Z.div_pos; lia|].
      rewrite all_digits_cons, Hacc.
      now rewrite is_digit_digit_char by (apply Z.mod_pos_bound; lia).
Qed.

Lemma all_digits_py_str (n : Z) : 0 <= n -> all_digits (py_str n) = true.
Proof.
  intros Hn. unfold py_str. destruct (Z.ltb_spec n 0); [lia|].
  now apply all_digits_str_digits.
Qed.

Lemma str_digits_1 (fuel : nat) (n : Z) (acc : string) :
  0 <= n < 10 -> str_digits fuel n acc = String (digit_char n) acc.
Proof.
  intros Hn. rewrite <- (Z.mod_small n 10) at 2 by lia.
  destruct fuel; [apply str_digits_O|]. rewrite str_digits_S.
  destruct (Z.ltb_spec n 10); [reflexivity | lia].
Qed.

Lemma py_str_1 (n : Z) :
  0 <= n < 10 -> py_str n = String (digit_char n) EmptyString.
Proof.
  intros Hn. unfold py_str. destruct (Z.ltb_spec n 0); [lia|].
  now apply str_digits_1.
Qed.

Lemma py_str_2 (n : Z) :
  10 <= n < 100 ->
  py_str n = String (digit_char (n / 10)) (String (digit_char (n mod 10)) EmptyString).
Proof.
  intros Hn. unfold py_str. destruct (Z.ltb_spec n 0); [lia|].
  assert (3 <= Z.log2 n) by (apply Z.log2_le_pow2; lia).
  destruct (Z.to_nat (Z.log2 n)) eqn:F; [lia|]. rewrite str_digits_S.
  destruct (Z.ltb_spec n 10); [lia|].
  apply str_digits_1. split; [apply Z.div_pos; lia | apply Z.div_lt_upper_bound; lia].
Qed.

Lemma py_str_3 (n : Z) :
  100 <= n < 1000 ->
  py_str n = String (digit_char (n / 100))
               (String (digit_char (n / 10 mod 10))
                  (String (digit_char (n mod 10)) EmptyString)).
Proof.
  intros Hn. unfold py_str. destruct (Z.ltb_spec n 0); [lia|].
  assert (6 <= Z.log2 n) by (apply Z.log2_le_pow2; lia).
  destruct (Z.to_nat (Z.log2 n)) as [|[|f]] eqn:F; [lia|lia|].
  rewrite str_digits_S. destruct (Z.ltb_spec n 10); [lia|].
  rewrite str_digits_S. destruct (Z.ltb_spec (n / 10) 10) as [L|_].
  { assert (10 <= n / 10) by (apply Z.div_le_lower_bound; lia). lia. }
  rewrite Z.div_div by lia. change (10 * 10) with 100.
  apply str_digits_1. split; [apply Z.div_pos; lia | apply Z.div_lt_upper_bound; lia].
Qed.

Lemma length_py_str_le_2 (n : Z) :
  0 <= n < 100 -> (1 <= String.length (py_str n) <= 2)%nat.
Proof.
  intros Hn. destruct (Z.lt_ge_cases n 10).
  - rewrite py_str_1 by lia. simpl. lia.
  - rewrite py_str_2 by lia. simpl. lia.
Qed.

Lemma length_py_str_le_3 (n : Z) :
  0 <= n < 1000 -> (1 <= String.length (py_str n) <= 3)%nat.
Proof.
  intros Hn. destruct (Z.lt_ge_cases n 100).
  - pose proof (length_py_str_le_2 n ltac:(lia)). lia.
  - rewrite py_str_3 by lia. simpl. lia.
Qed.


(* ===================================================================== *)
(** ** Timestamps *)
(* ===================================================================== *)

Lemma int_of_float_inject (z : Z) : int_of_float (inject_Z z) = z.
Proof. unfold int_of_float, inject_Z. cbn [Qnum Qden]. apply Z.quot_1_r. Qed.

Lemma float_mod_range (x y : Q) :
  (0 < y)%Q -> (0 <= float_mod x y)%Q /\ (float_mod x y < y)%Q.
Proof.
  intros Hy. unfold float_mod.
  pose proof (Qfloor_le (x / y)) as Hl. pose proof (Qlt_floor (x / y)) as Hu.
  rewrite inject_Z_plus in Hu. change (inject_Z 1) with 1%Q in Hu.
  set (f := inject_Z (Qfloor (x / y))) in *.
  assert (E : (x / y * y == x)%Q) by (field; lra).
  apply (Qmult_le_compat_r _ _ y) in Hl; [|lra].
  apply (Qmult_lt_compat_r _ _ y) in Hu; [|lra].
  rewrite E in Hl, Hu. split; lra.
Qed.

Lemma Qfloor_nonneg (x : Q) : (0 <= x)%Q -> 0 <= Qfloor x.
Proof. intros H. apply (Qfloor_resp_le 0 x) in H. exact H. Qed.

Lemma Qfloor_lt (x : Q) (k : Z) : (x < inject_Z k)%Q -> Qfloor x < k.
Proof.
  intros H. pose proof (Qfloor_le x). rewrite Zlt_Qlt. lra.
Qed.


Lemma format_02d_nonneg (z : Z) : 0 <= z -> format_02d z = pad2 (py_str z).
Proof.
  intros Hz. unfold format_02d, zero_pad, pad2.
  destruct (Z.ltb_spec z 0); [lia|]. rewrite Z.abs_eq by lia.
  cbn [sign_of String.length]. rewrite append_empty_l. now rewrite Nat.sub_0_r.
Qed.

Lemma all_digits_pad2 (z : Z) : 0 <= z -> all_digits (pad2 (py_str z)) = true.
Proof.
  intros Hz. unfold pad2.
  now rewrite all_digits_append, all_digits_zeros, all_digits_py_str.
Qed.

Lemma length_pad2_ge (s : string) : (2 <= String.length (pad2 s))%nat.
Proof. unfold pad2. rewrite length_append, length_zeros. lia. Qed.

Lemma length_pad2 (z : Z) : 0 <= z < 100 -> String.length (pad2 (py_str z)) = 2%nat.
Proof.
  intros Hz. unfold pad2. rewrite length_append, length_zeros.
  pose proof (length_py_str_le_2 z Hz). lia.
Qed.

Lemma format_06_3f_shape (x : Q) :
  (0 <= x)%Q -> (x < 60)%Q ->
  exists ip fp : Z,
    0 <= ip <= 60 /\ 0 <= fp < 1000 /\
    format_06_3f x =
      pad2 (py_str ip) +:+ String "." (zero_pad 3 EmptyString (py_str fp)).
Proof.
  intros H0 H60. unfold format_06_3f.
  assert (Hs : Qle_bool x 0 && negb (Qeq_bool x 0) = false).
  { destruct (Qle_bool x 0) eqn:L; [|reflexivity].
    apply Qle_bool_iff in L. assert (E : (x == 0)%Q) by lra.
    apply Qeq_bool_iff in E. now rewrite E. }
  rewrite Hs. cbn [sign_of].
  assert (Ea : (Qabs x * inject_Z 1000 == x * inject_Z 1000)%Q)
    by now rewrite Qabs_pos.
  rewrite (round_half_even_comp _ _ Ea).
  pose proof (round_half_even_near (x * inject_Z 1000)) as [Hl Hu].
  set (t := round_half_even (x * inject_Z 1000)) in *.
  change (inject_Z 1000) with 1000%Q in Hl, Hu.
  assert (Ht : 0 <= t <= 60000).
  { split.
    - assert (-1 < t); [|lia]. rewrite Zlt_Qlt. change (inject_Z (-1)) with (-1)%Q. lra.
    - assert (t < 60001); [|lia]. rewrite Zlt_Qlt.
      change (inject_Z 60001) with 60001%Q. lra. }
  exists (t / 1000), (t mod 1000).
  assert (Hip : 0 <= t / 1000 <= 60).
  { split; [apply Z.div_pos; lia | apply Z.div_le_upper_bound; lia]. }
  pose proof (Z.mod_pos_bound t 1000 ltac:(lia)) as Hfp.
  split; [exact Hip|]. split; [exact Hfp|].
  unfold zero_pad, pad2. rewrite !append_empty_l.
  cbn [String.length]. rewrite !Nat.sub_0_r.
  pose proof (length_py_str_le_2 (t / 1000) ltac:(lia)) as L2.
  pose proof (length_py_str_le_3 (t mod 1000) Hfp) as L3.
  rewrite append_assoc. f_equal.
  rewrite length_append. cbn [String.length].
  rewrite length_append, length_zeros. f_equal. lia.
Qed.

Lemma zero_pad_3_digits (fp : Z) :
  0 <= fp < 1000 ->
  all_digits (zero_pad 3 EmptyString (py_str fp)) = true /\
  String.length (zero_pad 3 EmptyString (py_str fp)) = 3%nat.
Proof.
  intros H. unfold zero_pad. rewrite append_empty_l. cbn [String.length].
  rewrite Nat.sub_0_r, all_digits_append, all_digits_zeros, length_append, length_zeros.
  pose proof (length_py_str_le_3 fp H).
  rewrite all_digits_py_str by lia. split; [reflexivity | lia].
Qed.

(** The shape of what [_format_timestamp] returns for a non-negative time:
    hours, minutes and seconds separated by colons and then, after a comma,
    the milliseconds; every field is made of decimal digits, hours are padded
    to at least two digits (exactly two below 100 hours), minutes and seconds
    have exactly two digits and milliseconds exactly three. *)
Lemma format_timestamp_shape (seconds : Q) :
  (0 <= seconds)%Q ->
  exists hh mm ss mmm : string,
    _format_timestamp seconds = hh +:+ ":" +:+ mm +:+ ":" +:+ ss +:+ "," +:+ mmm
    /\ hh = format_02d (Qfloor (seconds / inject_Z 3600))
    /\ all_digits hh = true /\ all_digits mm = true
    /\ all_digits ss = true /\ all_digits mmm = true
    /\ (2 <= String.length hh)%nat
    /\ (Qfloor (seconds / inject_Z 3600) < 100 -> String.length hh = 2%nat)
    /\ String.length mm = 2%nat /\ String.length ss = 2%nat
    /\ String.length mmm = 3%nat.
Proof.
  intros H0. unfold _format_timestamp, float_floordiv.
  rewrite !int_of_float_inject.
  change (inject_Z 3600) with 3600%Q. change (inject_Z 60) with 60%Q.
  set (hours := Qfloor (seconds / 3600)).
  set (minutes := Qfloor (float_mod seconds 3600 / 60)).
  assert (Hh : 0 <= hours).
  { apply Qfloor_nonneg. apply Qle_shift_div_l; lra. }
  destruct (float_mod_range seconds 3600 ltac:(lra)) as [Hm0 Hm1].
  assert (Hm : 0 <= minutes < 60).
  { split.
    - apply Qfloor_nonneg. apply Qle_shift_div_l; lra.
    - apply Qfloor_lt. change (inject_Z 60) with 60%Q.
      apply Qlt_shift_div_r; lra. }
  destruct (float_mod_range seconds 60 ltac:(lra)) as [Hs0 Hs1].
  destruct (format_06_3f_shape _ Hs0 Hs1) as (ip & fp & Hip & Hfp & ->).
  destruct (zero_pad_3_digits fp Hfp) as [Dm Lm].
  rewrite !format_02d_nonneg by lia.
  exists (pad2 (py_str hours)), (pad2 (py_str minutes)), (pad2 (py_str ip)),
    (zero_pad 3 EmptyString (py_str fp)).
  split.
  { rewrite !replace_char_append.
    rewrite (replace_dot_digits (pad2 (py_str hours))),
      (replace_dot_digits (pad2 (py_str minutes))),
      (replace_dot_digits (pad2 (py_str ip))) by (apply all_digits_pad2; lia).
    change (replace_char "." "," ":") with ":"%string.
    change (replace_char "." "," (String "." ?s))
      with (String "," (replace_char "." "," s)).
    rewrite (replace_dot_digits _ Dm). reflexivity. }
  split; [reflexivity|].
  rewrite !all_digits_pad2 by lia.
  rewrite (length_pad2 minutes) by lia. rewrite (length_pad2 ip) by lia.
  repeat split; try assumption; [apply length_pad2_ge|].
  intros Hlt. apply length_pad2. fold hours in Hlt. lia.
Qed.


(* ===================================================================== *)
(** ** Sequencing, and what each step leaves alone *)
(* ===================================================================== *)

Section Monad_facts.
Context {A B : Type}.

Lemma bind_ok (m : M A) (k : A -> M B) (w w' : world) (a : A) :
  m w = (Ok a, w') -> bind m k w = k a w'.
Proof. intros H. unfold bind. now rewrite H. Qed.

Lemma bind_raise (m : M A) (k : A -> M B) (w w' : world) (e : exn) :
  m w = (Raise e, w') -> bind m k w = (Raise e, w').
Proof. intros H. unfold bind. now rewrite H. Qed.

Lemma try_except_ok (m : M A) (h : exn -> M A) (w w' : world) (a : A) :
  m w = (Ok a, w') -> try_except m h w = (Ok a, w').
Proof. intros H. unfold try_except. now rewrite H. Qed.

End Monad_facts.

(** ** Effects that leave part of the world alone *)


Section Preserves.
Variable R : world -> world -> Prop.
Hypothesis R_refl : forall w, R w w.
Hypothesis R_trans : forall a b c, R a b -> R b c -> R a c.

Lemma preserves_ret {A} (a : A) : preserves R (ret a).
Proof. intros w. apply R_refl. Qed.

Lemma preserves_raise {A} (e : exn) : preserves R (@raise A e).
Proof. intros w. apply R_refl. Qed.

Lemma preserves_bind {A B} (m : M A) (k : A -> M B) :
  preserves R m -> (forall a, preserves R (k a)) -> preserves R (bind m k).
Proof.
  intros Hm Hk w. unfold bind. specialize (Hm w).
  destruct (m w) as [[a|e] w1]; cbn [snd] in *; [|exact Hm].
  eapply R_trans; [exact Hm | apply Hk].
Qed.

Lemma preserves_try_except {A} (m : M A) (h : exn -> M A) :
  preserves R m -> (forall e, preserves R (h e)) -> preserves R (try_except m h).
Proof.
  intros Hm Hh w. unfold try_except. specialize (Hm w).
  destruct (m w) as [[a|e] w1]; cbn [snd] in *; [exact Hm|].
  eapply R_trans; [exact Hm | apply Hh].
Qed.

Lemma preserves_modify (f : world -> world) :
  (forall w, R w (f w)) -> preserves R (modify f).
Proof. intros H w. apply H. Qed.

End Preserves.


Lemma quiet_refl w : quiet w w.
Proof. now repeat split. Qed.

Lemma quiet_trans a b c : quiet a b -> quiet b c -> quiet a c.
Proof. unfold quiet. intros (?&?&?&?&?) (?&?&?&?&?). repeat split; congruence. Qed.

Section Program_facts.
Variable E : env.

Lemma quiet_getsize path : preserves quiet (os_path_getsize E path).
Proof. intros w. unfold os_path_getsize. destruct (bool_decide _); apply quiet_refl. Qed.

Lemma quiet_tempfile suffix : preserves quiet (NamedTemporaryFile E suffix).
Proof. intros w. now repeat split. Qed.

Lemma quiet_from_file path : preserves quiet (AudioSegment_from_file E path).
Proof.
  intros w. unfold AudioSegment_from_file.
  destruct (bool_decide _); [destruct (decode E path)|]; apply quiet_refl.
Qed.

Lemma quiet_export call : preserves quiet (AudioSegment_export E call).
Proof.
  intros w. unfold AudioSegment_export. destruct (encoder_ok E call); now repeat split.
Qed.

Lemma quiet_update_status s : preserves quiet (update_status s).
Proof. intros w. now repeat split. Qed.

Ltac quiet_step :=
  first
    [ apply (preserves_bind quiet quiet_trans)
    | apply (preserves_try_except quiet quiet_trans)
    | apply (preserves_ret quiet quiet_refl)
    | apply (preserves_raise quiet quiet_refl)
    | apply quiet_getsize | apply quiet_tempfile | apply quiet_from_file
    | apply quiet_export | apply quiet_update_status
    | intro ].

Lemma quiet_optimize_audio input : preserves quiet (optimize_audio E input).
Proof. unfold optimize_audio. repeat quiet_step. Qed.

Lemma quiet_split_loop audio cd indices :
  forall chunks, preserves quiet (split_loop E audio cd indices chunks).
Proof.
  induction indices as [|i rest IH]; intros chunks; cbn [split_loop].
  - repeat quiet_step.
  - repeat (apply IH || quiet_step).
Qed.

Lemma quiet_split_audio input c : preserves quiet (split_audio E input c).
Proof.
  unfold split_audio. apply (preserves_bind quiet quiet_trans); [apply quiet_getsize|].
  intros size. destruct (_ <=? _); [repeat quiet_step|].
  destruct (_ =? _); [repeat quiet_step|].
  apply (preserves_bind quiet quiet_trans); [apply quiet_from_file|].
  intros audio. destruct (_ =? _); [repeat quiet_step|]. apply quiet_split_loop.
Qed.

Lemma quiet_prepare (g : gui) : preserves quiet (start_transcription_prepare E g).
Proof.
  unfold start_transcription_prepare.
  repeat (apply quiet_optimize_audio || apply quiet_split_audio
          || (apply preserves_modify; intro; now repeat split) || quiet_step).
Qed.

End Program_facts.


(* ===================================================================== *)
(** ** The transcription loop *)
(* ===================================================================== *)

Section Loop_facts.
Variable E : env.
Hypothesis client_set : client E = true.

Lemma transcribe_ok chunk model cs prompt lang w t :
  chunk ∈ disk w ->
  api E (build_request chunk model cs prompt lang) = Some t ->
  transcribe E chunk model cs prompt lang w =
    (Ok (t, if cs then Some t else None),
     with_uploads (uploads w ++ [build_request chunk model cs prompt lang]) w).
Proof.
  intros Hd Ha. unfold transcribe, try_except, bind, os_path_getsize, transcriptions_create.
  rewrite client_set. cbn [negb]. rewrite (bool_decide_true _ Hd), Ha.
  now destruct cs.
Qed.

Lemma transcribe_api_fail chunk model cs prompt lang w :
  chunk ∈ disk w ->
  api E (build_request chunk model cs prompt lang) = None ->
  transcribe E chunk model cs prompt lang w =
    (Raise (Exception ("Transcription error: " +:+ exn_str APIError)),
     with_uploads (uploads w ++ [build_request chunk model cs prompt lang]) w).
Proof.
  intros Hd Ha. unfold transcribe, try_except, bind, os_path_getsize, transcriptions_create.
  rewrite client_set. cbn [negb]. now rewrite (bool_decide_true _ Hd), Ha.
Qed.

Lemma transcribe_chunks_cons_ok g n i c rest full srt w t :
  c ∈ disk w -> api E (gui_request g c) = Some t ->
  transcribe_chunks E g n i (c :: rest) full srt w =
  transcribe_chunks E g n (i + 1) rest (full ++ [t])
    (if create_srt g && truthy t then srt ++ [t] else srt)
    (after_chunk g n i c w).
Proof.
  intros Hd Ha. cbn [transcribe_chunks].
  unfold bind at 1. unfold update_status at 1, modify at 1.
  fold (chunk_status n i).
  rewrite (bind_ok _ _ _ _ _ (transcribe_ok c (model_var g) (create_srt g) (Some (py_strip (prompt_text g)))
       (gui_language g) (with_status (chunk_status n i) w) t Hd Ha)).
  cbn [fst snd].
  fold (gui_request g c). fold (after_upload g n i c w).
  unfold bind at 1, try_except at 1, os_unlink at 1.
  assert (Hd' : c ∈ disk (after_upload g n i c w)) by exact Hd.
  rewrite (bool_decide_true _ Hd'). fold (after_chunk g n i c w).
  destruct (create_srt g); cbn [andb]; [|reflexivity].
  destruct (truthy t); reflexivity.
Qed.

Lemma transcribe_chunks_cons_fail g n i c rest full srt w :
  c ∈ disk w -> api E (gui_request g c) = None ->
  transcribe_chunks E g n i (c :: rest) full srt w =
    (Raise (Exception ("Transcription error: " +:+ exn_str APIError)),
     after_upload g n i c w).
Proof.
  intros Hd Ha. cbn [transcribe_chunks].
  unfold bind at 1. unfold update_status at 1, modify at 1.
  fold (chunk_status n i).
  now rewrite (bind_raise _ _ _ _ _
    (transcribe_api_fail c (model_var g) (create_srt g) (Some (py_strip (prompt_text g)))
       (gui_language g) (with_status (chunk_status n i) w) Hd Ha)).
Qed.

Lemma ran_chunks_nil g w : ran_chunks g [] w w.
Proof.
  unfold ran_chunks. cbn [map]. rewrite !app_nil_r, list_to_set_nil.
  repeat split. set_solver.
Qed.

Lemma ran_chunks_cons g n i c rest w w1 :
  ran_chunks g rest (after_chunk g n i c w) w1 -> ran_chunks g (c :: rest) w w1.
Proof.
  unfold ran_chunks. cbn [after_chunk after_upload with_disk with_unlinks with_uploads
    with_status disk uploads unlinks temps exports output_text srt_content reported
    local_audio_file map].
  intros (Hd & Hu & Hl & ? & ? & ? & ? & ? & ?).
  rewrite Hd, Hu, Hl, list_to_set_cons, <- !app_assoc.
  repeat split; try assumption. set_solver.
Qed.

Lemma transcribe_chunks_prefix g n pre rest :
  forall i full srt w,
    chunks_ready E g pre w ->
    exists w1,
      ran_chunks g pre w w1 /\
      transcribe_chunks E g n i (pre ++ rest) full srt w =
      transcribe_chunks E g n (i + Z.of_nat (length pre)) rest
        (full ++ map (gui_answer E g) pre) (srt ++ srt_parts_of E g pre) w1.
Proof.
  induction pre as [|c pre IH]; intros i full srt w [Hnd Hin].
  - exists w. split; [apply ran_chunks_nil|].
    cbn [app length map]. unfold srt_parts_of. cbn [map List.filter].
    rewrite Z.add_0_r, !app_nil_r. now destruct (create_srt g); rewrite ?app_nil_r.
  - destruct (Hin c ltac:(set_solver)) as [Hd [t Ht]].
    apply NoDup_cons in Hnd as [Hc Hnd].
    cbn [app]. rewrite (transcribe_chunks_cons_ok g n i c _ full srt w t Hd Ht).
    destruct (IH (i + 1) (full ++ [t])
                (if create_srt g && truthy t then srt ++ [t] else srt)
                (after_chunk g n i c w)) as (w1 & Hran & Heq).
    { split; [exact Hnd|]. intros c' Hc'. destruct (Hin c' ltac:(set_solver)) as [Hd' Ha'].
      split; [|exact Ha'].
      cbn [after_chunk after_upload with_disk with_unlinks with_uploads with_status disk].
      set_solver. }
    exists w1. split; [eapply ran_chunks_cons; exact Hran|].
    rewrite Heq. cbn [length map]. f_equal; [lia | | ].
    + unfold gui_answer at 2. rewrite Ht. now rewrite <- app_assoc.
    + unfold srt_parts_of. cbn [map]. unfold gui_answer at 2. rewrite Ht.
      destruct (create_srt g); cbn [andb List.filter]; [|reflexivity].
      destruct (truthy t); cbn [app]; [now rewrite <- app_assoc | reflexivity].
Qed.

End Loop_facts.


(* ===================================================================== *)
(** ** One run of [start_transcription] *)
(* ===================================================================== *)

Section Run_facts.
Variable E : env.
Variable combine_srt_body : list string -> string.

Lemma finally_eq w : start_transcription_finally w = (Ok tt, finally_world w).
Proof.
  unfold start_transcription_finally, finally_world, try_except.
  destruct (local_audio_file w) as [a|]; [|reflexivity].
  unfold bind, os_path_exists, os_unlink.
  repeat case_bool_decide; solve [reflexivity | contradiction].
Qed.

Lemma except_eq e w : start_transcription_except e w = (Ok tt, except_world e w).
Proof. reflexivity. Qed.

Lemma start_transcription_eq g w :
  run_starts g w ->
  start_transcription E combine_srt_body g w =
    match start_transcription_body E combine_srt_body g (with_local_audio_file None w) with
    | (Ok a, w') => (Ok a, finally_world w')
    | (Raise e, w') => (Ok tt, finally_world (except_world e w'))
    end.
Proof.
  intros [Hp Hd]. unfold start_transcription.
  rewrite Hp, (bool_decide_true _ Hd). cbn [negb orb].
  unfold try_finally, try_except.
  destruct (start_transcription_body _ _ _ _) as [[a|e] w'].
  - now rewrite finally_eq.
  - now rewrite except_eq, finally_eq.
Qed.

Lemma body_eq g w0 chunks w2 :
  start_transcription_prepare E g w0 = (Ok chunks, w2) ->
  start_transcription_body E combine_srt_body g w0 =
  start_transcription_combine E combine_srt_body g chunks w2.
Proof. intros H. unfold start_transcription_body. now rewrite (bind_ok _ _ _ _ _ H). Qed.

Lemma has_attr_combine_srt : has_attr "combine_srt" = false.
Proof. reflexivity. Qed.

Lemma getattr_combine_srt_raises w :
  getattr_combine_srt combine_srt_body w = (Raise (AttributeError "combine_srt"), w).
Proof. unfold getattr_combine_srt. now rewrite has_attr_combine_srt. Qed.


(** The second half when a chunk fails at the network call. *)
Lemma combine_fails g pre bad post w2 :
  client E = true ->
  chunks_ready E g pre w2 -> bad ∈ disk w2 -> bad ∉ pre ->
  api E (gui_request g bad) = None ->
  exists w3,
    start_transcription_combine E combine_srt_body g (pre ++ bad :: post) w2 =
      (Raise (Exception ("Transcription error: " +:+ exn_str APIError)), w3) /\
    uploads w3 = uploads w2 ++ map (gui_request g) (pre ++ [bad]) /\
    output_text w3 = output_text w2 /\ srt_content w3 = srt_content w2 /\
    reported w3 = reported w2.
Proof.
  intros Hc Hready Hbad Hnotin Hapi. unfold start_transcription_combine.
  unfold bind at 1, update_status at 1, modify at 1. fold transcribing.
  set (n := length (pre ++ bad :: post)).
  destruct (transcribe_chunks_prefix E Hc g n pre (bad :: post) 1 [] []
              (with_status transcribing w2) Hready)
    as (w1 & Hran & Heq).
  destruct Hran as (Hd & Hu & _ & _ & _ & Ho & Hs & Hr & _).
  cbn [with_status disk uploads output_text srt_content reported] in Hd, Hu, Ho, Hs, Hr.
  assert (Hb1 : bad ∈ disk w1).
  { rewrite Hd. apply elem_of_difference. split; [exact Hbad|].
    now rewrite elem_of_list_to_set. }
  rewrite (transcribe_chunks_cons_fail E Hc g n _ bad post _ _ w1 Hb1 Hapi) in Heq.
  eexists. split; [now rewrite (bind_raise _ _ _ _ _ Heq)|].
  cbn [after_upload with_uploads with_status uploads output_text srt_content reported].
  rewrite Hu, map_app, <- app_assoc. now repeat split.
Qed.

(** The second half when every chunk is transcribed. *)
Lemma combine_succeeds g chunks w2 :
  client E = true ->
  chunks_ready E g chunks w2 ->
  exists w3,
    ran_chunks g chunks w2 w3 /\
    output_text (snd (start_transcription_combine E combine_srt_body g chunks w2)) =
      String.concat blank_line (map (gui_answer E g) chunks) /\
    (if create_srt g && negb (bool_decide (srt_parts_of E g chunks = []))
     then start_transcription_combine E combine_srt_body g chunks w2 =
            (Raise (AttributeError "combine_srt"),
             with_output_text (String.concat blank_line (map (gui_answer E g) chunks)) w3)
     else start_transcription_combine E combine_srt_body g chunks w2 =
            (Ok tt,
             with_status "Transcription complete!"
               (with_output_text (String.concat blank_line (map (gui_answer E g) chunks)) w3))).
Proof.
  intros Hc Hready. unfold start_transcription_combine. fold transcribing.
  set (n := length chunks).
  destruct (transcribe_chunks_prefix E Hc g n chunks [] 1 [] []
              (with_status transcribing w2) Hready)
    as (w1 & Hran & Heq).
  rewrite app_nil_r in Heq. cbn [transcribe_chunks app] in Heq. unfold ret in Heq.
  exists w1. split; [exact Hran|].
  rewrite (bind_ok (update_status transcribing) _ w2 _ tt eq_refl).
  rewrite (bind_ok _ _ _ _ _ Heq). cbn [fst snd].
  rewrite (bind_ok (modify _) _ w1 _ tt eq_refl).
  destruct (create_srt g && negb (bool_decide (srt_parts_of E g chunks = []))) eqn:B.
  - rewrite (bind_raise _ _ _ _ _
               (bind_raise _ _ _ _ _ (getattr_combine_srt_raises _))).
    split; reflexivity.
  - rewrite (bind_ok (ret tt) _ _ _ tt eq_refl). split; reflexivity.
Qed.

End Run_facts.


(* ===================================================================== *)
(** ** Normalising and splitting *)
(* ===================================================================== *)

Section Steps.
Variable E : env.

Lemma getsize_ok path w :
  path ∈ disk w -> os_path_getsize E path w = (Ok (encoded_size E path), w).
Proof. intros H. unfold os_path_getsize. now rewrite (bool_decide_true _ H). Qed.

Lemma from_file_ok path audio w :
  path ∈ disk w -> decode E path = Some audio ->
  AudioSegment_from_file E path w = (Ok audio, w).
Proof.
  intros H D. unfold AudioSegment_from_file. now rewrite (bool_decide_true _ H), D.
Qed.

Lemma export_ok call w :
  encoder_ok E call = true ->
  AudioSegment_export E call w = (Ok tt, after_export call w).
Proof. intros H. unfold AudioSegment_export. now rewrite H. Qed.

Lemma tempfile_eq suffix w :
  NamedTemporaryFile E suffix w = (Ok (tmp_name E suffix), after_tempfile (tmp_name E suffix) w).
Proof. reflexivity. Qed.

Lemma optimize_audio_ok input audio w :
  encoder_works E ->
  input ∈ disk w -> decode E input = Some audio ->
  optimize_audio E input w = (Ok (tmp_name E ".ogg"), after_optimize E audio w).
Proof.
  intros He Hd Hdec. unfold optimize_audio. apply try_except_ok.
  rewrite (bind_ok _ _ _ _ _ (from_file_ok _ _ _ Hd Hdec)).
  rewrite (bind_ok _ _ _ _ _ (tempfile_eq _ _)).
  rewrite (bind_ok _ _ _ _ _ (export_ok _ _ (He _))).
  fold (normalized audio). fold (after_optimize E audio w).
  assert (Hin : tmp_name E ".ogg" ∈ disk (after_optimize E audio w))
    by (cbn; set_solver).
  now rewrite (bind_ok _ _ _ _ _ (getsize_ok _ _ Hin)).
Qed.

Lemma split_audio_small input c w :
  input ∈ disk w -> encoded_size E input <= c * 1024 * 1024 ->
  split_audio E input c w = (Ok [input], w).
Proof.
  intros Hd Hs. unfold split_audio.
  rewrite (bind_ok _ _ _ _ _ (getsize_ok _ _ Hd)).
  destruct (Z.leb_spec (encoded_size E input) (c * 1024 * 1024)); [reflexivity | lia].
Qed.

Lemma split_loop_ok audio cd indices :
  encoder_works E ->
  forall chunks w,
  exists w',
    split_loop E audio cd indices chunks w =
      (Ok (chunks ++ map (chunk_name E) indices), w') /\
    length (exports w') = (length (exports w) + length indices)%nat /\
    disk w ⊆ disk w'.
Proof.
  intros He. induction indices as [|i rest IH]; intros chunks w.
  - exists w. cbn [split_loop map length]. rewrite app_nil_r, Nat.add_0_r. now split.
  - cbn [split_loop].
    rewrite (bind_ok _ _ _ _ _ (tempfile_eq _ _)). fold (chunk_name E i).
    rewrite (bind_ok _ _ _ _ _ (export_ok _ _ (He _))).
    set (w1 := after_export _ _).
    assert (Hin : chunk_name E i ∈ disk w1) by (cbn; set_solver).
    rewrite (bind_ok _ _ _ _ _ (getsize_ok _ _ Hin)). subst w1.
    destruct (IH (chunks ++ [chunk_name E i])
                 (after_export
                    (chunk_export
                       (slice audio (window_bound cd (Z.of_nat i))
                          (window_bound cd (Z.of_nat i + 1))) (chunk_name E i))
                    (after_tempfile (chunk_name E i) w)))
      as (w' & Heq & Hlen & Hsub).
    exists w'. rewrite Heq. cbn [map length]. rewrite <- app_assoc. split; [reflexivity|].
    split.
    + rewrite Hlen. cbn. rewrite length_app. cbn. lia.
    + etrans; [|exact Hsub]. cbn. set_solver.
Qed.

End Steps.

Lemma Qceiling_div (S M : Z) :
  0 < M -> Qceiling (inject_Z S / inject_Z M) = (S + M - 1) / M.
Proof.
  intros HM. set (k := (S + M - 1) / M).
  assert (Hk : (k - 1) * M < S <= k * M).
  { pose proof (Z.div_mod (S + M - 1) M ltac:(lia)) as D.
    pose proof (Z.mod_pos_bound (S + M - 1) M ltac:(lia)) as B.
    fold k in D. nia. }
  assert (HMq : (0 < inject_Z M)%Q).
  { change 0%Q with (inject_Z 0). rewrite <- Zlt_Qlt. lia. }
  apply Qceiling_unique.
  - apply Qlt_shift_div_l; [exact HMq|].
    rewrite <- inject_Z_mult, <- Zlt_Qlt. lia.
  - apply Qle_shift_div_r; [exact HMq|].
    rewrite <- inject_Z_mult, <- Zle_Qle. lia.
Qed.

(** C3. For a normalised artifact of S bytes and a limit of [chunk_size_mb]
    mebibytes, [split_audio] returns the artifact's own path alone, without
    any encoder call (the world is unchanged), when S is at most the limit,
    and otherwise returns exactly ceil(S / limit) chunk paths, one encoder
    call each. The sizes are those binary64 represents exactly (below
    2^53 bytes). *)
Theorem split_audio_count (E : env) (input : string) (c : Z) (w : world)
    (audio : audio_segment) :
  encoder_works E ->
  input ∈ disk w ->
  decode E input = Some audio ->
  0 < c ->
  0 <= encoded_size E input < 2 ^ 53 ->
  (encoded_size E input <= c * 1024 * 1024 ->
     split_audio E input c w = (Ok [input], w)) /\
  (c * 1024 * 1024 < encoded_size E input ->
     exists chunks w',
       split_audio E input c w = (Ok chunks, w') /\
       Z.of_nat (length chunks) =
         Qceiling (inject_Z (encoded_size E input) / inject_Z (c * 1024 * 1024)) /\
       length (exports w') = (length (exports w) + length chunks)%nat).
Proof.
  intros He Hd Hdec Hc HS. split; [now apply split_audio_small|].
  intros Hbig. unfold split_audio.
  rewrite (bind_ok _ _ _ _ _ (getsize_ok _ _ _ Hd)).
  destruct (Z.leb_spec (encoded_size E input) (c * 1024 * 1024)) as [?|_]; [lia|].
  destruct (Z.eqb_spec c 0) as [?|_]; [lia|].
  rewrite (bind_ok _ _ _ _ _ (from_file_ok _ _ _ _ Hd Hdec)).
  rewrite num_chunks_of_exact by lia.
  rewrite Qceiling_div by lia.
  replace (c * 1024 * 1024) with (c * 1048576) by lia.
  set (n := (encoded_size E input + c * 1048576 - 1) / (c * 1048576)).
  assert (Hn : 1 <= n).
  { apply Z.div_le_lower_bound; lia. }
  destruct (Z.eqb_spec n 0) as [?|_]; [lia|].
  destruct (split_loop_ok E audio (int_truediv (seg_len audio) n)
              (seq 0 (Z.to_nat n)) He [] w) as (w' & Heq & Hlen & _).
  exists (map (chunk_name E) (seq 0 (Z.to_nat n))), w'.
  rewrite Heq. split; [reflexivity|].
  rewrite length_map, length_seq in *. split; [lia | exact Hlen].
Qed.


(* ===================================================================== *)
(** ** Failure, subtitle mode and the single-chunk run *)
(* ===================================================================== *)

Lemma finally_world_keeps w :
  status (finally_world w) = status w /\
  reported (finally_world w) = reported w /\
  uploads (finally_world w) = uploads w /\
  output_text (finally_world w) = output_text w /\
  srt_content (finally_world w) = srt_content w.
Proof.
  unfold finally_world. destruct (local_audio_file w); [|now repeat split].
  destruct (bool_decide _); now repeat split.
Qed.


Lemma unwritten_refl w : unwritten w w.
Proof. now repeat split. Qed.

Lemma unwritten_trans a b c : unwritten a b -> unwritten b c -> unwritten a c.
Proof. unfold unwritten. intros (?&?&?) (?&?&?). repeat split; congruence. Qed.

Section Loop_frame.
Variable E : env.

Lemma unwritten_transcribe audio model srt prompt lang :
  preserves unwritten (transcribe E audio model srt prompt lang).
Proof.
  intros w. unfold transcribe, try_except, bind, raise, ret, os_path_getsize,
    transcriptions_create.
  destruct (client E); cbn [negb]; [|apply unwritten_refl].
  destruct (bool_decide _); [|apply unwritten_refl].
  destruct (api E _); [destruct srt|]; now repeat split.
Qed.

Lemma unwritten_unlink path :
  preserves unwritten (try_except (os_unlink path) (fun _ => ret tt)).
Proof.
  intros w. unfold try_except, os_unlink, ret.
  destruct (bool_decide _); now repeat split.
Qed.

Lemma unwritten_transcribe_chunks g n chunks :
  forall i full srt, preserves unwritten (transcribe_chunks E g n i chunks full srt).
Proof.
  induction chunks as [|c rest IH]; intros i full srt; cbn [transcribe_chunks].
  - apply (preserves_ret unwritten unwritten_refl).
  - apply (preserves_bind unwritten unwritten_trans).
    { apply preserves_modify. intros w. now repeat split. }
    intros _. apply (preserves_bind unwritten unwritten_trans).
    { apply unwritten_transcribe. }
    intros r. apply (preserves_bind unwritten unwritten_trans).
    { apply unwritten_unlink. }
    intros _. apply IH.
Qed.

(** Whatever makes the loop raise, the run reports it and writes neither the
    transcription text nor the subtitle content. *)
Lemma loop_failure_discards_results (combine_srt_body : list string -> string)
    (g : gui) (w w2 w3 : world) (chunks : list string) (e : exn) :
  run_starts g w ->
  start_transcription_prepare E g (with_local_audio_file None w) = (Ok chunks, w2) ->
  transcribe_chunks E g (length chunks) 1 chunks [] [] (with_status transcribing w2)
    = (Raise e, w3) ->
  let r := start_transcription E combine_srt_body g w in
  fst r = Ok tt /\
  status (snd r) = "Error occurred during transcription"%string /\
  reported (snd r) = reported w ++ [e] /\
  uploads (snd r) = uploads w3 /\
  output_text (snd r) = output_text w /\
  srt_content (snd r) = srt_content w.
Proof.
  intros Hrun Hprep Hloop r. subst r.
  rewrite (start_transcription_eq E combine_srt_body g w Hrun).
  rewrite (body_eq E combine_srt_body g _ _ _ Hprep).
  unfold start_transcription_combine. fold transcribing.
  rewrite (bind_ok (update_status transcribing) _ w2 _ tt eq_refl).
  rewrite (bind_raise _ _ _ _ _ Hloop).
  pose proof (unwritten_transcribe_chunks g (length chunks) chunks 1 [] []
                (with_status transcribing w2)) as Hu.
  rewrite Hloop in Hu. destruct Hu as (Ho & Hs & Hr).
  pose proof (quiet_prepare E g (with_local_audio_file None w)) as Hq.
  rewrite Hprep in Hq. destruct Hq as (_ & _ & Hqo & Hqs & Hqr).
  cbn [snd with_local_audio_file with_status output_text srt_content reported] in *.
  destruct (finally_world_keeps (except_world e w3)) as (Ks & Kr & Ku & Ko & Kc).
  cbn [fst snd]. rewrite Ks, Kr, Ku, Ko, Kc.
  cbn [except_world with_status with_reported status reported uploads output_text
         srt_content].
  rewrite Ho, Hs, Hr, Hqo, Hqs, Hqr. now repeat split.
Qed.

End Loop_frame.

(** C8. When the network call for a chunk fails after the chunks before it
    were transcribed, the run fails as a whole: the only requests sent are
    those for the chunks up to the failing one (no later chunk is
    transcribed), the error is reported, and neither the transcription text
    nor the subtitle content is written. *)
Theorem failed_chunk_aborts_run (E : env) (combine_srt_body : list string -> string)
    (g : gui) (w w2 : world) (chunks pre post : list string) (bad : string) :
  run_starts g w ->
  start_transcription_prepare E g (with_local_audio_file None w) = (Ok chunks, w2) ->
  chunks = pre ++ bad :: post ->
  client E = true ->
  chunks_ready E g pre w2 ->
  bad ∈ disk w2 -> bad ∉ pre ->
  api E (gui_request g bad) = None ->
  let r := start_transcription E combine_srt_body g w in
  fst r = Ok tt /\
  status (snd r) = "Error occurred during transcription"%string /\
  reported (snd r) =
    reported w ++ [Exception "Transcription error: Connection error."] /\
  uploads (snd r) = uploads w ++ map (gui_request g) (pre ++ [bad]) /\
  output_text (snd r) = output_text w /\
  srt_content (snd r) = srt_content w.
Proof.
  intros Hrun Hprep -> Hc Hready Hbad Hnotin Hapi r. subst r.
  rewrite (start_transcription_eq E combine_srt_body g w Hrun).
  rewrite (body_eq E combine_srt_body g _ _ _ Hprep).
  destruct (combine_fails E combine_srt_body g pre bad post w2 Hc Hready Hbad Hnotin Hapi)
    as (w3 & -> & Hu & Ho & Hs & Hr).
  pose proof (quiet_prepare E g (with_local_audio_file None w)) as Hq.
  rewrite Hprep in Hq. destruct Hq as (Hqu & _ & Hqo & Hqs & Hqr).
  cbn [snd with_local_audio_file uploads output_text srt_content reported] in *.
  destruct (finally_world_keeps (except_world (Exception ("Transcription error: " +:+ exn_str APIError)) w3))
    as (Ks & Kr & Ku & Ko & Kc).
  cbn [fst snd]. rewrite Ks, Kr, Ku, Ko, Kc.
  cbn [except_world with_status with_reported status reported uploads output_text srt_content].
  rewrite Hu, Ho, Hs, Hr, Hqu, Hqo, Hqs, Hqr. now repeat split.
Qed.

Lemma transcribe_srt_pair (E : env) audio model prompt lang w r w' :
  transcribe E audio model true prompt lang w = (Ok r, w') -> snd r = Some (fst r).
Proof.
  unfold transcribe, try_except, bind, raise, ret, os_path_getsize, transcriptions_create.
  destruct (client E); cbn [negb]; [|discriminate].
  destruct (bool_decide _); [|discriminate].
  destruct (api E _); [|discriminate].
  intros [= <- _]. reflexivity.
Qed.

(** C9. In subtitle mode [transcribe] returns the same value as text and as
    subtitles, every request asks for the ['srt'] format, and so the text
    shown for the run is the blank-line join of the subtitle documents the
    service returned for the chunks. *)
Theorem srt_mode_text_is_srt (E : env) (combine_srt_body : list string -> string)
    (g : gui) (w w2 : world) (chunks : list string) :
  run_starts g w ->
  create_srt g = true ->
  start_transcription_prepare E g (with_local_audio_file None w) = (Ok chunks, w2) ->
  client E = true ->
  chunks_ready E g chunks w2 ->
  (forall audio model prompt lang w0 r w0',
     transcribe E audio model (create_srt g) prompt lang w0 = (Ok r, w0') ->
     snd r = Some (fst r)) /\
  (forall c, req_response_format (gui_request g c) = "srt"%string) /\
  output_text (snd (start_transcription E combine_srt_body g w)) =
    String.concat blank_line (map (gui_answer E g) chunks).
Proof.
  intros Hrun Hsrt Hprep Hc Hready. rewrite Hsrt. split; [|split].
  - intros. eapply transcribe_srt_pair; eassumption.
  - intros c. unfold gui_request, build_request. cbn [req_response_format].
    now rewrite Hsrt.
  - rewrite (start_transcription_eq E combine_srt_body g w Hrun).
    rewrite (body_eq E combine_srt_body g _ _ _ Hprep).
    destruct (combine_succeeds E combine_srt_body g chunks w2 Hc Hready)
      as (w3 & _ & _ & Hres).
    destruct (create_srt g && _) in Hres; rewrite Hres; cbn [snd].
    + now destruct (finally_world_keeps (except_world (AttributeError "combine_srt")
        (with_output_text (String.concat blank_line (map (gui_answer E g) chunks)) w3)))
        as (_ & _ & _ & -> & _).
    + now destruct (finally_world_keeps
        (with_status "Transcription complete!"
           (with_output_text (String.concat blank_line (map (gui_answer E g) chunks)) w3)))
        as (_ & _ & _ & -> & _).
Qed.



(** In subtitle mode, whenever every chunk is transcribed and some answer is
    not empty, the run ends in the [except] clause with [AttributeError]:
    the combination step is never executed. *)
Lemma subtitle_run_never_combines (E : env) (combine_srt_body : list string -> string)
    (g : gui) (w w2 : world) (chunks : list string) :
  run_starts g w ->
  create_srt g = true ->
  start_transcription_prepare E g (with_local_audio_file None w) = (Ok chunks, w2) ->
  client E = true ->
  chunks_ready E g chunks w2 ->
  srt_parts_of E g chunks <> [] ->
  let r := start_transcription E combine_srt_body g w in
  reported (snd r) = reported w ++ [AttributeError "combine_srt"] /\
  srt_content (snd r) = srt_content w /\
  status (snd r) = "Error occurred during transcription"%string.
Proof.
  intros Hrun Hsrt Hprep Hc Hready Hparts r. subst r.
  rewrite (start_transcription_eq E combine_srt_body g w Hrun).
  rewrite (body_eq E combine_srt_body g _ _ _ Hprep).
  destruct (combine_succeeds E combine_srt_body g chunks w2 Hc Hready)
    as (w3 & Hran & _ & Hres).
  rewrite Hsrt, (bool_decide_false _ Hparts) in Hres. cbn [andb negb] in Hres.
  rewrite Hres. cbn [snd].
  destruct Hran as (_ & _ & _ & _ & _ & _ & Hs3 & Hr3 & _).
  pose proof (quiet_prepare E g (with_local_audio_file None w)) as Hq.
  rewrite Hprep in Hq. destruct Hq as (_ & _ & _ & Hqs & Hqr).
  cbn [snd with_local_audio_file srt_content reported] in Hqs, Hqr.
  set (w4 := except_world _ _).
  destruct (finally_world_keeps w4) as (Ks & Kr & _ & _ & Kc).
  rewrite Ks, Kr, Kc. subst w4.
  cbn [except_world with_status with_reported with_output_text status reported
         srt_content].
  rewrite Hs3, Hr3, Hqs, Hqr. now repeat split.
Qed.

(* ===================================================================== *)
(** ** Checks on concrete values, and the runs that go wrong *)
(* ===================================================================== *)

Example rnd_agrees_with_SpecFloat :
  forallb (fun p => agrees_div (fst p) (snd p))
    [(32400000, 7); (13750000, 3); (57671680, 1048576); (136314880, 1048576);
     (61, 7); (1, 10); (1, 3)] = true /\
  forallb (fun i => agrees_mul i 32400000 7 && agrees_mul i 13750000 3)
    [1; 2; 3; 4; 5; 6; 7] = true.
Proof. split; vm_compute; reflexivity. Qed.

Example py_str_examples :
  map py_str [0; 7; 10; 99; 100; 12345; -5] =
  ["0"; "7"; "10"; "99"; "100"; "12345"; "-5"]%string.
Proof. vm_compute. reflexivity. Qed.

Example format_timestamp_examples :
  map _format_timestamp [0%Q; 1 # 2; 7323 # 1; 1 # 16; 599996 # 10000; 360000 # 1] =
  ["00:00:00,000"; "00:00:00,500"; "02:02:03,000"; "00:00:00,062";
   "00:00:60,000"; "100:00:00,000"]%string.
Proof. vm_compute. reflexivity. Qed.

Lemma enumerate_indices {A} (l : list A) (start : Z) :
  map fst (enumerate start l) = map (fun k : nat => start + Z.of_nat k) (seq 0 (length l)).
Proof.
  revert start. induction l as [|x l IH]; intros start; [reflexivity|].
  cbn [enumerate map length seq fst]. rewrite IH, <- seq_shift, map_map.
  f_equal; [lia|]. apply map_ext. intros k. lia.
Qed.

Lemma window_bound_0 (cd : Q) : window_bound cd 0 = 0.
Proof.
  unfold window_bound, float_mul.
  assert (E : (float_of_int 0 * cd == 0)%Q) by (change (float_of_int 0) with 0%Q; ring).
  now rewrite (rnd_comp _ _ E).
Qed.

Lemma chunk_windows_contiguous (len n : Z) (i : nat) (a b : Z * Z) :
  chunk_windows len n !! i = Some a -> chunk_windows len n !! S i = Some b ->
  snd a = fst b.
Proof.
  unfold chunk_windows. rewrite !list_lookup_fmap.
  intros Ha Hb.
  destruct (seq 0 (Z.to_nat n) !! i) as [x|] eqn:Ex; [|discriminate].
  destruct (seq 0 (Z.to_nat n) !! S i) as [y|] eqn:Ey; [|discriminate].
  apply lookup_seq in Ex as [-> _]. apply lookup_seq in Ey as [-> _].
  cbn in Ha, Hb. injection Ha as <-. injection Hb as <-. cbn [fst snd].
  f_equal. lia.
Qed.



(** C1. Subtitle mode, three chunks, every chunk transcribed: the
    combination step is the call [self.transcriber.combine_srt(srt_parts)],
    and the class binds no such name, so the lookup raises [AttributeError];
    the run ends in the error state and no combined subtitle document
    exists, whatever a [combine_srt] would have computed. *)
Theorem combine_srt_is_unbound (combine_srt_body : list string -> string) :
  let r := start_transcription (Scenario.three_chunks Scenario.hears_cues)
             combine_srt_body (Scenario.form true) Scenario.idle in
  map req_file (uploads (snd r)) = [Scenario.chunk0; Scenario.chunk1; Scenario.chunk2] /\
  reported (snd r) = [AttributeError "combine_srt"] /\
  status (snd r) = "Error occurred during transcription"%string /\
  srt_content (snd r) = None.
Proof. vm_compute. repeat split. Qed.

(** C2. Second of three chunks fails at the network call: the first chunk
    file was deleted after its transcription and the normalised artifact is
    deleted by the [finally] clause, but the files of the second and third
    chunk are never unlinked and remain on disk. *)
Theorem failed_run_leaves_chunk_files (combine_srt_body : list string -> string) :
  let r := start_transcription (Scenario.three_chunks (Scenario.fails_on Scenario.chunk1))
             combine_srt_body (Scenario.form false) Scenario.idle in
  temps (snd r) = [Scenario.tmp ".ogg"; Scenario.chunk0; Scenario.chunk1; Scenario.chunk2] /\
  unlinks (snd r) = [Scenario.chunk0; Scenario.tmp ".ogg"] /\
  leftover_temps (snd r) = [Scenario.chunk1; Scenario.chunk2] /\
  status (snd r) = "Error occurred during transcription"%string.
Proof. vm_compute. repeat split. Qed.

(** C4. Nine hours of audio (32,400,000 ms) in a 130 MB artifact are cut
    into seven windows; they are contiguous and start at 0, but
    [7 * (32400000 / 7)] is 32399999.999999996 in binary64, so the last
    window ends at 32,399,999 and the final millisecond is in no chunk. The
    Standard Library's IEEE 754 specification gives the same product. *)
Theorem last_window_stops_short :
  let r := start_transcription_prepare Scenario.nine_hours (Scenario.form false) Scenario.idle in
  num_chunks_of (130 * Scenario.MB) 20 = 7 /\
  chunk_windows 32400000 7 =
    [(0, 4628571); (4628571, 9257142); (9257142, 13885714); (13885714, 18514285);
     (18514285, 23142857); (23142857, 27771428); (27771428, 32399999)] /\
  map export_window (tail (exports (snd r))) = chunk_windows 32400000 7 /\
  (sf_value (sf_int_mul 7 (sf_int_truediv 32400000 7)) < 32400000)%Q.
Proof. vm_compute. repeat split. Qed.

(** C5. The encoder call of [split_audio] passes the format, codec and
    parameter list of [optimize_audio] but no bitrate, whereas the normaliser
    passes ['32k']. *)
Theorem chunk_export_has_no_bitrate :
  let r := start_transcription_prepare (Scenario.three_chunks Scenario.hears_words)
             (Scenario.form false) Scenario.idle in
  (forall chunk name, exp_bitrate (chunk_export chunk name) = None) /\
  (forall audio path, exp_bitrate (optimize_export audio path) = Some "32k"%string) /\
  map exp_bitrate (exports (snd r)) = [Some "32k"%string; None; None; None] /\
  map exp_parameters (exports (snd r)) =
    [speech_parameters; speech_parameters; speech_parameters; speech_parameters].
Proof. vm_compute. repeat split. Qed.

(* ===================================================================== *)
(** ** Instances *)
(* ===================================================================== *)

Lemma split_audio_count_witness :
  exists chunks w',
    split_audio (Scenario.three_chunks Scenario.hears_words) (Scenario.tmp ".ogg") 20
      Scenario.split_ready = (Ok chunks, w') /\
    Z.of_nat (length chunks) = Qceiling (inject_Z (55 * Scenario.MB) / inject_Z (20 * 1024 * 1024)) /\
    length (exports w') = (length (exports Scenario.split_ready) + length chunks)%nat.
Proof.
  refine (proj2 (split_audio_count (Scenario.three_chunks Scenario.hears_words)
            (Scenario.tmp ".ogg") 20 Scenario.split_ready
            (normalized (Scenario.stereo 13750000)) _ _ _ _ _) _).
  - intros call. reflexivity.
  - apply (bool_decide_unpack _). vm_compute. exact I.
  - reflexivity.
  - lia.
  - vm_compute. split; [discriminate | reflexivity].
  - vm_compute. reflexivity.
Defined.

Lemma failed_chunk_aborts_run_witness :
  let r := start_transcription (Scenario.three_chunks (Scenario.fails_on Scenario.chunk1))
             Scenario.no_combiner (Scenario.form false) Scenario.idle in
  fst r = Ok tt /\
  status (snd r) = "Error occurred during transcription"%string /\
  reported (snd r) =
    reported Scenario.idle ++ [Exception "Transcription error: Connection error."] /\
  uploads (snd r) =
    uploads Scenario.idle ++
      map (gui_request (Scenario.form false)) ([Scenario.chunk0] ++ [Scenario.chunk1]) /\
  output_text (snd r) = output_text Scenario.idle /\
  srt_content (snd r) = srt_content Scenario.idle.
Proof.
  apply (failed_chunk_aborts_run
           (Scenario.three_chunks (Scenario.fails_on Scenario.chunk1)) Scenario.no_combiner
           (Scenario.form false) Scenario.idle
           (Scenario.prepared (Scenario.three_chunks (Scenario.fails_on Scenario.chunk1))
              (Scenario.form false))
           [Scenario.chunk0; Scenario.chunk1; Scenario.chunk2]
           [Scenario.chunk0] [Scenario.chunk2] Scenario.chunk1).
  - split; [reflexivity|]. apply (bool_decide_unpack _). vm_compute. exact I.
  - vm_compute. reflexivity.
  - reflexivity.
  - reflexivity.
  - split; [apply (bool_decide_unpack _); vm_compute; exact I|].
    intros c Hc. apply list_elem_of_singleton in Hc. subst c. split.
    + apply (bool_decide_unpack _). vm_compute. exact I.
    + exists "spoken words"%string. vm_compute. reflexivity.
  - apply (bool_decide_unpack _). vm_compute. exact I.
  - apply (bool_decide_unpack _). vm_compute. exact I.
  - vm_compute. reflexivity.
Defined.

Lemma srt_mode_text_is_srt_witness :
  output_text (snd (start_transcription (Scenario.three_chunks Scenario.hears_cues)
                      Scenario.no_combiner (Scenario.form true) Scenario.idle)) =
  String.concat blank_line
    (map (gui_answer (Scenario.three_chunks Scenario.hears_cues) (Scenario.form true))
       [Scenario.chunk0; Scenario.chunk1; Scenario.chunk2]).
Proof.
  refine (proj2 (proj2 (srt_mode_text_is_srt
            (Scenario.three_chunks Scenario.hears_cues) Scenario.no_combiner
            (Scenario.form true) Scenario.idle
            (Scenario.prepared (Scenario.three_chunks Scenario.hears_cues) (Scenario.form true))
            [Scenario.chunk0; Scenario.chunk1; Scenario.chunk2] _ _ _ _ _))).
  - split; [reflexivity|]. apply (bool_decide_unpack _). vm_compute. exact I.
  - reflexivity.
  - vm_compute. reflexivity.
  - reflexivity.
  - split; [apply (bool_decide_unpack _); vm_compute; exact I|].
    intros c Hc. split; [|exists Scenario.one_cue; reflexivity].
    apply elem_of_cons in Hc as [->|Hc]; [apply (bool_decide_unpack _); vm_compute; exact I|].
    apply elem_of_cons in Hc as [->|Hc]; [apply (bool_decide_unpack _); vm_compute; exact I|].
    apply list_elem_of_singleton in Hc as ->.
    apply (bool_decide_unpack _). vm_compute. exact I.
Defined.


(* ===================================================================== *)
(** ** The windows of [split_audio], to the millisecond *)
(* ===================================================================== *)

Lemma int_of_float_floor (p : Q) : (0 <= p)%Q -> int_of_float p = Qfloor p.
Proof.
  intros Hp. destruct p as [a b]. unfold int_of_float, Qfloor. cbn [Qnum Qden].
  unfold Qle in Hp. cbn in Hp. apply Z.quot_div_nonneg; lia.
Qed.

Lemma Qfloor_unique (x : Q) (k : Z) :
  (inject_Z k <= x)%Q -> (x < inject_Z (k + 1))%Q -> Qfloor x = k.
Proof.
  intros Hl Hu.
  pose proof (Qfloor_le x) as H1. pose proof (Qlt_floor x) as H2.
  assert (k < Qfloor x + 1) by (rewrite Zlt_Qlt; lra).
  assert (Qfloor x < k + 1) by (rewrite Zlt_Qlt; lra).
  lia.
Qed.

Lemma rnd_zero (q : Q) : (q == 0)%Q -> rnd q = 0%Q.
Proof. intros E. now rewrite (rnd_comp _ _ E). Qed.

Lemma rnd_positive (q : Q) : (0 < q)%Q -> (0 < rnd q)%Q.
Proof.
  intros Hq. pose proof (rnd_error q Hq) as [Hl _].
  assert (U : (pow2 (-53) < 1)%Q) by reflexivity.
  assert (0 < q - q * pow2 (-53))%Q; [|lra].
  assert (E : (q - q * pow2 (-53) == q * (1 - pow2 (-53)))%Q) by ring.
  rewrite E. apply Qmult_lt_0_compat; lra.
Qed.

Lemma inject_Z_pos (z : Z) : 0 < z -> (0 < inject_Z z)%Q.
Proof. intros H. change 0%Q with (inject_Z 0). now rewrite <- Zlt_Qlt. Qed.

Lemma inject_Z_nonneg (z : Z) : 0 <= z -> (0 <= inject_Z z)%Q.
Proof. intros H. change 0%Q with (inject_Z 0). now rewrite <- Zle_Qle. Qed.

(** The product [i * (L / n)] of the loop, within three units in the last
    place of the exact [i * L / n]. *)
Lemma window_product_error (L n i : Z) :
  0 < n -> 0 < i < 2 ^ 53 -> 0 < L ->
  let x := (inject_Z (i * L) / inject_Z n)%Q in
  let p := float_mul (float_of_int i) (int_truediv L n) in
  (x - 2 * pow2 (-53) * x <= p)%Q /\ (p <= x + 3 * pow2 (-53) * x)%Q.
Proof.
  intros Hn Hi HL x p. subst p. unfold float_mul, float_of_int, int_truediv.
  set (q := (inject_Z L / inject_Z n)%Q).
  pose proof (inject_Z_pos n Hn) as Hnq. pose proof (inject_Z_pos L HL) as HLq.
  pose proof (inject_Z_pos i ltac:(lia)) as Hiq.
  assert (Hq : (0 < q)%Q) by (unfold q; apply Qlt_shift_div_l; lra).
  pose proof (rnd_error q Hq) as [Hcl Hcu].
  pose proof (rnd_positive q Hq) as Hcd.
  set (cd := rnd q) in *.
  assert (Ei : (rnd (inject_Z i) * cd == inject_Z i * cd)%Q).
  { now rewrite (rnd_exact_int i ltac:(lia)). }
  rewrite (rnd_comp _ _ Ei).
  assert (Hy : (0 < inject_Z i * cd)%Q) by (apply Qmult_lt_0_compat; lra).
  pose proof (rnd_error _ Hy) as [Hpl Hpu].
  set (U := pow2 (-53)) in *.
  assert (HU0 : (0 < U)%Q) by reflexivity.
  assert (HU1 : (U * U <= U)%Q) by (subst U; apply Qlt_le_weak; reflexivity).
  assert (Ex : (x == inject_Z i * q)%Q).
  { unfold x, q. rewrite inject_Z_mult. field. lra. }
  set (y := (inject_Z i * cd)%Q) in *.
  assert (Hyl : (inject_Z i * q - inject_Z i * q * U <= y)%Q).
  { unfold y. assert (E : (inject_Z i * q - inject_Z i * q * U == inject_Z i * (q - q * U))%Q) by ring.
    rewrite E. apply Qmult_le_l; lra. }
  assert (Hyu : (y <= inject_Z i * q + inject_Z i * q * U)%Q).
  { unfold y. assert (E : (inject_Z i * q + inject_Z i * q * U == inject_Z i * (q + q * U))%Q) by ring.
    rewrite E. apply Qmult_le_l; lra. }
  rewrite <- Ex in Hyl, Hyu.
  assert (Hx : (0 < x)%Q) by (rewrite Ex; apply Qmult_lt_0_compat; lra).
  assert (HyU1 : ((x - x * U) * (1 - U) <= y * (1 - U))%Q).
  { apply Qmult_le_compat_r; [exact Hyl|]. subst U. apply Qlt_le_weak. reflexivity. }
  assert (HyU2 : (y * (1 + U) <= (x + x * U) * (1 + U))%Q).
  { apply Qmult_le_compat_r; [exact Hyu|]. lra. }
  assert (HxUU : (0 <= x * U * U)%Q).
  { apply Qmult_le_0_compat; [apply Qmult_le_0_compat|]; lra. }
  assert (HxUU' : (x * U * U <= x * U)%Q).
  { rewrite <- Qmult_assoc. apply Qmult_le_l; [exact Hx|]. exact HU1. }
  split.
  - apply Qle_trans with (y - y * U)%Q; [|exact Hpl].
    ring_simplify in HyU1. lra.
  - apply Qle_trans with (y + y * U)%Q; [exact Hpu|].
    ring_simplify in HyU2. lra.
Qed.

Lemma Qfloor_ge (x : Q) (k : Z) : (inject_Z k <= x)%Q -> k <= Qfloor x.
Proof. intros H. apply Qfloor_resp_le in H. now rewrite Qfloor_Z in H. Qed.

Lemma Qfloor_lt_int (x : Q) (k : Z) : (x < inject_Z k)%Q -> Qfloor x < k.
Proof. intros H. pose proof (Qfloor_le x). rewrite Zlt_Qlt. lra. Qed.

Lemma window_bound_accuracy_main (L n i : Z) :
  0 < n -> 0 <= i <= n -> 0 <= L -> 3 * L * n < 2 ^ 53 ->
  (i * L) / n - 1 <= window_bound (int_truediv L n) i <= (i * L) / n /\
  ((i * L) mod n <> 0 -> window_bound (int_truediv L n) i = (i * L) / n).
Proof.
  intros Hn Hi HL Hsmall.
  destruct (Z.eq_dec i 0) as [->|Hi0].
  { rewrite window_bound_0, Z.mul_0_l, Z.div_0_l, Z.mod_0_l by lia. lia. }
  destruct (Z.eq_dec L 0) as [->|HL0].
  { unfold window_bound, float_mul, int_truediv.
    assert (E0 : (inject_Z 0 / inject_Z n == 0)%Q) by (unfold Qdiv; ring).
    rewrite (rnd_zero _ E0).
    assert (E1 : (float_of_int i * 0 == 0)%Q) by ring.
    rewrite (rnd_zero _ E1). change (int_of_float 0) with 0.
    rewrite Z.mul_0_r, Z.div_0_l, Z.mod_0_l by lia. lia. }
  assert (Hi53 : 0 < i < 2 ^ 53) by nia.
  destruct (window_product_error L n i Hn Hi53 ltac:(lia)) as [Hpl Hpu].
  unfold window_bound.
  set (p := float_mul (float_of_int i) (int_truediv L n)) in *.
  set (X := i * L) in *.
  set (x := (inject_Z X / inject_Z n)%Q) in *.
  set (U := pow2 (-53)) in *.
  pose proof (inject_Z_pos n Hn) as Hnq.
  assert (HX : 0 < X) by (unfold X; nia).
  pose proof (inject_Z_pos X HX) as HXq.
  assert (Hxn : (x * inject_Z n == inject_Z X)%Q) by (unfold x; field; lra).
  assert (Hx : (0 < x)%Q) by (unfold x; apply Qlt_shift_div_l; lra).
  assert (H3 : (3 * U * inject_Z X < 1)%Q).
  { assert (E : (U * inject_Z (2 ^ 53) == 1)%Q) by reflexivity.
    rewrite <- E.
    assert (E' : (3 * U * inject_Z X == U * inject_Z (3 * X))%Q).
    { rewrite inject_Z_mult. change (inject_Z 3) with 3%Q. ring. }
    rewrite E'. apply Qmult_lt_l; [reflexivity|]. rewrite <- Zlt_Qlt. unfold X. nia. }
  assert (HU0 : (0 < U)%Q) by reflexivity.
  assert (HUX : (0 < U * inject_Z X)%Q) by (apply Qmult_lt_0_compat; lra).
  set (F := X / n). set (r := X mod n).
  pose proof (Z.div_mod X n ltac:(lia)) as D. fold F r in D.
  pose proof (Z.mod_pos_bound X n Hn) as Hr. fold r in Hr.
  assert (DQ : (inject_Z X == inject_Z n * inject_Z F + inject_Z r)%Q).
  { rewrite <- inject_Z_mult, <- inject_Z_plus. now rewrite <- D. }
  assert (Hrq : (0 <= inject_Z r)%Q) by (apply inject_Z_nonneg; lia).
  assert (Hrq' : (inject_Z r + 1 <= inject_Z n)%Q).
  { change 1%Q with (inject_Z 1). rewrite <- inject_Z_plus, <- Zle_Qle. lia. }
  (* bounds on p times n *)
  assert (Lo : (inject_Z X - 2 * U * inject_Z X <= p * inject_Z n)%Q).
  { apply Qle_trans with ((x - 2 * U * x) * inject_Z n)%Q.
    - assert (E : ((x - 2 * U * x) * inject_Z n == inject_Z X - 2 * U * inject_Z X)%Q)
        by (rewrite <- Hxn; ring).
      rewrite E. lra.
    - apply Qmult_le_compat_r; lra. }
  assert (Hi' : (p * inject_Z n <= inject_Z X + 3 * U * inject_Z X)%Q).
  { apply Qle_trans with ((x + 3 * U * x) * inject_Z n)%Q.
    - apply Qmult_le_compat_r; lra.
    - assert (E : ((x + 3 * U * x) * inject_Z n == inject_Z X + 3 * U * inject_Z X)%Q)
        by (rewrite <- Hxn; ring).
      rewrite E. lra. }
  assert (Hp0 : (0 <= p)%Q).
  { apply Qlt_le_weak. apply (Qmult_lt_r _ _ (inject_Z n) Hnq).
    assert (1 <= inject_Z X)%Q by (change 1%Q with (inject_Z 1); rewrite <- Zle_Qle; lia).
    lra. }
  rewrite (int_of_float_floor p Hp0).
  assert (Up : Qfloor p < F + 1).
  { apply Qfloor_lt_int. apply (Qmult_lt_r _ _ (inject_Z n) Hnq).
    rewrite inject_Z_plus. change (inject_Z 1) with 1%Q.
    lra. }
  assert (Dn : F - 1 <= Qfloor p).
  { apply Qfloor_ge. apply (Qmult_le_r _ _ (inject_Z n) Hnq).
    replace (F - 1) with (F + (-1)) by lia.
    rewrite inject_Z_plus. change (inject_Z (-1)) with (-1 # 1)%Q.
    assert (1 <= inject_Z n)%Q by (change 1%Q with (inject_Z 1); rewrite <- Zle_Qle; lia).
    lra. }
  split; [lia|]. intros Hr0.
  assert (F <= Qfloor p); [|lia].
  apply Qfloor_ge. apply (Qmult_le_r _ _ (inject_Z n) Hnq).
  assert (1 <= inject_Z r)%Q by (change 1%Q with (inject_Z 1); rewrite <- Zle_Qle; lia).
  lra.
Qed.

Lemma chunk_windows_lookup (L n : Z) (k : nat) (a : Z * Z) :
  chunk_windows L n !! k = Some a ->
  (k < Z.to_nat n)%nat /\
  a = (window_bound (int_truediv L n) (Z.of_nat k),
       window_bound (int_truediv L n) (Z.of_nat k + 1)).
Proof.
  unfold chunk_windows. rewrite list_lookup_fmap. intros H.
  destruct (seq 0 (Z.to_nat n) !! k) as [x|] eqn:Ex; [|discriminate].
  apply lookup_seq in Ex as [-> Hk]. cbn in H. injection H as <-. now split.
Qed.

Lemma length_chunk_windows (L n : Z) : length (chunk_windows L n) = Z.to_nat n.
Proof. unfold chunk_windows. now rewrite length_map, length_seq. Qed.

Lemma div_step (L n K : Z) :
  0 < n -> 0 <= L -> 0 <= K ->
  (K * L) / n + L / n <= ((K + 1) * L) / n <= (K * L) / n + L / n + 1.
Proof.
  intros Hn HL HK.
  pose proof (Z.div_mod (K * L) n ltac:(lia)) as D1.
  pose proof (Z.mod_pos_bound (K * L) n Hn) as B1.
  pose proof (Z.div_mod L n ltac:(lia)) as D2.
  pose proof (Z.mod_pos_bound L n Hn) as B2.
  pose proof (Z.div_mod ((K + 1) * L) n ltac:(lia)) as D3.
  pose proof (Z.mod_pos_bound ((K + 1) * L) n Hn) as B3.
  nia.
Qed.

(** X8. Window k of the loop of [split_audio] starts at floor(k * L / n) and
    stops at floor((k + 1) * L / n), each bound possibly one millisecond
    less, which can happen only when the exact quotient is a whole number;
    its length is within [L / n - 1, L / n + 2]. Binary64 rounding of
    [len(audio) / num_chunks] and of the product is accounted for; the
    bound 3 * L * n < 2^53 is where that analysis holds. *)
Theorem chunk_windows_accuracy (L n : Z) (k : nat) (a : Z * Z) :
  0 < n -> 0 <= L -> 3 * L * n < 2 ^ 53 ->
  chunk_windows L n !! k = Some a ->
  let K := Z.of_nat k in
  (K * L) / n - 1 <= fst a <= (K * L) / n /\
  ((K * L) mod n <> 0 -> fst a = (K * L) / n) /\
  ((K + 1) * L) / n - 1 <= snd a <= ((K + 1) * L) / n /\
  (((K + 1) * L) mod n <> 0 -> snd a = ((K + 1) * L) / n) /\
  L / n - 1 <= snd a - fst a <= L / n + 2.
Proof.
  intros Hn HL Hsmall Hk K.
  apply chunk_windows_lookup in Hk as [Hlt ->]. cbn [fst snd]. fold K.
  assert (HK : 0 <= K < n) by lia.
  destruct (window_bound_accuracy_main L n K Hn ltac:(lia) HL Hsmall) as [B1 E1].
  destruct (window_bound_accuracy_main L n (K + 1) Hn ltac:(lia) HL Hsmall) as [B2 E2].
  pose proof (div_step L n K Hn HL ltac:(lia)).
  repeat split; try assumption; lia.
Qed.

(** X7. The windows of the loop of [split_audio] for an audio of L
    milliseconds cut into n chunks, with 1 <= n <= L and 3 * L * n below
    2^53: there are n of them, the first starts at 0, each starts where the
    one before stops, each lies within the audio with its start not after
    its end, and the last stops at L or at L - 1. *)
Theorem chunk_windows_partition (L n : Z) :
  1 <= n <= L -> 3 * L * n < 2 ^ 53 ->
  length (chunk_windows L n) = Z.to_nat n /\
  (forall a, chunk_windows L n !! 0%nat = Some a -> fst a = 0) /\
  (forall k a b, chunk_windows L n !! k = Some a ->
                 chunk_windows L n !! S k = Some b -> snd a = fst b) /\
  (forall k a, chunk_windows L n !! k = Some a -> 0 <= fst a <= snd a /\ snd a <= L) /\
  (forall a, last (chunk_windows L n) = Some a -> L - 1 <= snd a <= L).
Proof.
  intros Hn Hsmall. split; [apply length_chunk_windows|]. split; [|split; [|split]].
  - intros a Ha. apply chunk_windows_lookup in Ha as [_ ->]. apply window_bound_0.
  - intros k a b. apply chunk_windows_contiguous.
  - intros k a Ha. apply chunk_windows_lookup in Ha as [Hlt ->]. cbn [fst snd].
    set (K := Z.of_nat k). assert (HK : 0 <= K < n) by lia.
    destruct (window_bound_accuracy_main L n K ltac:(lia) ltac:(lia) ltac:(lia) Hsmall)
      as [B1 _].
    destruct (window_bound_accuracy_main L n (K + 1) ltac:(lia) ltac:(lia) ltac:(lia) Hsmall)
      as [B2 _].
    pose proof (div_step L n K ltac:(lia) ltac:(lia) ltac:(lia)) as St.
    assert (1 <= L / n) by (apply Z.div_le_lower_bound; lia).
    assert (((K + 1) * L) / n <= L).
    { apply Z.div_le_upper_bound; [lia|]. nia. }
    assert (0 <= window_bound (int_truediv L n) K).
    { destruct (Z.eq_dec K 0) as [->|]; [rewrite window_bound_0; lia|].
      assert (1 <= (K * L) / n) by (apply Z.div_le_lower_bound; nia). lia. }
    lia.
  - intros a Ha. rewrite last_lookup, length_chunk_windows in Ha.
    apply chunk_windows_lookup in Ha as [Hlt ->]. cbn [snd].
    replace (Z.of_nat (Nat.pred (Z.to_nat n)) + 1) with n by lia.
    destruct (window_bound_accuracy_main L n n ltac:(lia) ltac:(lia) ltac:(lia) Hsmall)
      as [B _].
    rewrite (Z.mul_comm n L), Z.div_mul in B by lia. exact B.
Qed.

Lemma num_chunks_of_pos (S c : Z) : 0 < c -> 0 < S -> 1 <= num_chunks_of S c.
Proof.
  intros Hc HS. unfold num_chunks_of, math_ceil, float_div, float_of_int, int_truediv.
  assert (H1 : (0 < rnd (inject_Z S / inject_Z (1024 * 1024)))%Q).
  { apply rnd_positive. apply Qlt_shift_div_l; [reflexivity|].
    pose proof (inject_Z_pos S HS). lra. }
  assert (H2 : (0 < rnd (inject_Z c))%Q) by (apply rnd_positive, inject_Z_pos, Hc).
  assert (H3 : (0 < rnd (rnd (inject_Z S / inject_Z (1024 * 1024)) / rnd (inject_Z c)))%Q).
  { apply rnd_positive. apply Qlt_shift_div_l; lra. }
  pose proof (Qle_ceiling (rnd (rnd (inject_Z S / inject_Z (1024 * 1024)) / rnd (inject_Z c)))).
  assert (0 < Qceiling (rnd (rnd (inject_Z S / inject_Z (1024 * 1024)) / rnd (inject_Z c))));
    [|lia].
  rewrite Zlt_Qlt. change (inject_Z 0) with 0%Q. lra.
Qed.

(* ===================================================================== *)
(** ** What normalising and splitting leave on disk *)
(* ===================================================================== *)

Lemma keeps_files_refl w : keeps_files w w.
Proof. split; [reflexivity | auto]. Qed.

Lemma keeps_files_trans a b c : keeps_files a b -> keeps_files b c -> keeps_files a c.
Proof.
  intros [S1 T1] [S2 T2]. split; [set_solver|].
  intros p Hp. destruct (T2 p Hp) as [H|H]; [|now right].
  destruct (T1 p H) as [H'|H']; [now left | right; set_solver].
Qed.

Section Files.
Variable E : env.

Lemma keeps_files_getsize path : preserves keeps_files (os_path_getsize E path).
Proof. intros w. unfold os_path_getsize. destruct (bool_decide _); apply keeps_files_refl. Qed.

Lemma keeps_files_from_file path : preserves keeps_files (AudioSegment_from_file E path).
Proof.
  intros w. unfold AudioSegment_from_file.
  destruct (bool_decide _); [destruct (decode E path)|]; apply keeps_files_refl.
Qed.

Lemma keeps_files_tempfile suffix : preserves keeps_files (NamedTemporaryFile E suffix).
Proof.
  intros w. split; cbn; [set_solver|].
  intros p Hp. apply elem_of_app in Hp as [Hp|Hp]; [now left|].
  right. set_solver.
Qed.

Lemma keeps_files_export call : preserves keeps_files (AudioSegment_export E call).
Proof.
  intros w. unfold AudioSegment_export.
  destruct (encoder_ok E call); split; cbn; auto; set_solver.
Qed.

Lemma keeps_files_status s : preserves keeps_files (update_status s).
Proof. intros w. split; cbn; [reflexivity | auto]. Qed.

Ltac files_step :=
  first
    [ apply (preserves_bind keeps_files keeps_files_trans)
    | apply (preserves_try_except keeps_files keeps_files_trans)
    | apply (preserves_ret keeps_files keeps_files_refl)
    | apply (preserves_raise keeps_files keeps_files_refl)
    | apply keeps_files_getsize | apply keeps_files_tempfile
    | apply keeps_files_from_file | apply keeps_files_export
    | apply keeps_files_status
    | intro ].

Lemma keeps_files_optimize_audio input : preserves keeps_files (optimize_audio E input).
Proof. unfold optimize_audio. repeat files_step. Qed.

Lemma keeps_files_split_loop audio cd indices :
  forall chunks, preserves keeps_files (split_loop E audio cd indices chunks).
Proof.
  induction indices as [|i rest IH]; intros chunks; cbn [split_loop].
  - repeat files_step.
  - repeat (apply IH || files_step).
Qed.

Lemma keeps_files_split_audio input c : preserves keeps_files (split_audio E input c).
Proof.
  unfold split_audio.
  apply (preserves_bind keeps_files keeps_files_trans); [apply keeps_files_getsize|].
  intros size. destruct (_ <=? _); [repeat files_step|].
  destruct (_ =? _); [repeat files_step|].
  apply (preserves_bind keeps_files keeps_files_trans); [apply keeps_files_from_file|].
  intros audio. destruct (_ =? _); [repeat files_step|]. apply keeps_files_split_loop.
Qed.

(** X2. Whatever its outcome, [optimize_audio] removes no file, calls
    [os.unlink] on nothing and sends nothing to the service, and every
    temporary file it created is still on disk when it returns or raises:
    the function has no clean-up of its own. *)
Theorem optimize_audio_leaves_its_file (input : string) (w : world) :
  let w' := snd (optimize_audio E input w) in
  disk w ⊆ disk w' /\
  (forall p, p ∈ temps w' -> p ∈ temps w \/ p ∈ disk w') /\
  unlinks w' = unlinks w /\ uploads w' = uploads w.
Proof.
  intros w'. subst w'.
  destruct (keeps_files_optimize_audio input w) as [H1 H2].
  destruct (quiet_optimize_audio E input w) as (Hu & Hl & _).
  now repeat split.
Qed.

(** X6. Whatever its outcome, [split_audio] removes no file, calls
    [os.unlink] on nothing and sends nothing to the service, and every
    temporary file it created is still on disk when it returns or raises:
    a failure at chunk i leaves the files of the chunks before it. *)
Theorem split_audio_leaves_its_files (input : string) (c : Z) (w : world) :
  let w' := snd (split_audio E input c w) in
  disk w ⊆ disk w' /\
  (forall p, p ∈ temps w' -> p ∈ temps w \/ p ∈ disk w') /\
  unlinks w' = unlinks w /\ uploads w' = uploads w.
Proof.
  intros w'. subst w'.
  destruct (keeps_files_split_audio input c w) as [H1 H2].
  destruct (quiet_split_audio E input c w) as (Hu & Hl & _).
  now repeat split.
Qed.

(** What a successful [optimize_audio] did. *)
Lemma optimize_audio_inv input w p w' :
  optimize_audio E input w = (Ok p, w') ->
  exists audio,
    decode E input = Some audio /\ p = tmp_name E ".ogg" /\
    w' = after_optimize E audio w.
Proof.
  unfold optimize_audio, try_except, bind, raise, ret, AudioSegment_from_file,
    NamedTemporaryFile, AudioSegment_export, os_path_getsize.
  destruct (bool_decide (input ∈ disk w)); [|discriminate].
  destruct (decode E input) as [audio|]; [|discriminate].
  destruct (encoder_ok E _); [|discriminate].
  destruct (bool_decide _); [|discriminate].
  intros [= <- <-]. now exists audio.
Qed.

(** X1. A call of [optimize_audio] that returns has created one temporary
    file, the path it returns, which is on disk, and has made one encoder
    call: on that path, with the audio set to one channel and 16000 Hz, in
    format ogg with codec libvorbis, bitrate 32k and the speech parameters. *)
Theorem optimize_audio_result (input : string) (w : world) (p : string) (w' : world) :
  optimize_audio E input w = (Ok p, w') ->
  temps w' = temps w ++ [p] /\ p ∈ disk w' /\
  exists call,
    exports w' = exports w ++ [call] /\ exp_path call = p /\
    seg_channels (exp_audio call) = 1 /\ seg_frame_rate (exp_audio call) = 16000 /\
    exp_format call = "ogg"%string /\ exp_codec call = "libvorbis"%string /\
    exp_bitrate call = Some "32k"%string /\ exp_parameters call = speech_parameters.
Proof.
  intros H. apply optimize_audio_inv in H as (audio & _ & -> & ->).
  split; [reflexivity|]. split; [cbn; set_solver|].
  eexists. split; [reflexivity|]. now repeat split.
Qed.

(** What a successful [split_loop] did. *)
Lemma split_loop_inv audio cd indices :
  forall chunks w res w',
    split_loop E audio cd indices chunks w = (Ok res, w') ->
    res = chunks ++ map (chunk_name E) indices /\
    temps w' = temps w ++ map (chunk_name E) indices /\
    disk w' = disk w ∪ list_to_set (map (chunk_name E) indices) /\
    exports w' = exports w ++ map (chunk_call E audio cd) indices /\
    uploads w' = uploads w /\ unlinks w' = unlinks w /\
    local_audio_file w' = local_audio_file w.
Proof.
  induction indices as [|i rest IH]; intros chunks w res w'.
  - cbn [split_loop map]. unfold ret. intros [= <- <-].
    rewrite !app_nil_r, list_to_set_nil. repeat split. set_solver.
  - cbn [split_loop]. unfold bind at 1. rewrite tempfile_eq. fold (chunk_name E i).
    unfold bind at 1, AudioSegment_export. fold (chunk_call E audio cd i).
    destruct (encoder_ok E _); [|discriminate].
    unfold bind at 1, os_path_getsize. destruct (bool_decide _); [|discriminate].
    intros H. apply IH in H as (-> & Ht & Hd & He & Hu & Hl & Hla).
    cbn in Ht, Hd, He, Hu, Hl, Hla.
    rewrite Ht, Hd, He, Hu, Hl, Hla. cbn [map].
    rewrite <- !app_assoc, list_to_set_cons. repeat split. set_solver.
Qed.

End Files.

(* ===================================================================== *)
(** ** Chunk names *)
(* ===================================================================== *)

Lemma digit_char_value (d : Z) :
  0 <= d < 10 -> Z.of_nat (nat_of_ascii (digit_char d)) - 48 = d.
Proof.
  intros H.
  assert (C : d = 0 \/ d = 1 \/ d = 2 \/ d = 3 \/ d = 4 \/ d = 5 \/ d = 6 \/ d = 7
              \/ d = 8 \/ d = 9) by lia.
  repeat (destruct C as [-> | C]; [reflexivity|]). now subst.
Qed.

Lemma read_digits_cons (c : ascii) (s : string) (acc : Z) :
  read_digits (String c s) acc =
  read_digits s (10 * acc + (Z.of_nat (nat_of_ascii c) - 48)).
Proof. reflexivity. Qed.

Lemma read_str_digits (fuel : nat) :
  forall n acc, 0 <= n < 10 ^ Z.of_nat (S fuel) ->
    exists k, forall v,
      read_digits (str_digits fuel n acc) v = read_digits acc (v * 10 ^ k + n) /\ 0 <= k.
Proof.
  induction fuel as [|fuel IH]; intros n acc Hn.
  - exists 1. intros v. rewrite str_digits_O, read_digits_cons.
    change (10 ^ Z.of_nat 1) with 10 in Hn.
    rewrite Z.mod_small, digit_char_value by lia. split; [f_equal; lia | lia].
  - rewrite str_digits_S. destruct (Z.ltb_spec n 10).
    + exists 1. intros v. rewrite read_digits_cons.
      rewrite Z.mod_small, digit_char_value by lia. split; [f_equal; lia | lia].
    + destruct (IH (n / 10) (String (digit_char (n mod 10)) acc)) as [k Hk].
      { split; [apply Z.div_pos; lia|]. apply Z.div_lt_upper_bound; [lia|].
        rewrite <- Z.pow_succ_r by lia. rewrite <- Nat2Z.inj_succ. lia. }
      exists (k + 1). intros v. destruct (Hk v) as [-> Hk0]. split; [|lia].
      rewrite read_digits_cons, digit_char_value by (apply Z.mod_pos_bound; lia).
      f_equal. rewrite Z.pow_add_r, Z.pow_1_r by lia.
      pose proof (Z.div_mod n 10 ltac:(lia)). lia.
Qed.

Lemma pow10_log2 (n : Z) : 0 <= n -> n < 10 ^ Z.of_nat (S (Z.to_nat (Z.log2 n))).
Proof.
  intros Hn. destruct (Z.eq_dec n 0) as [->|Hn0]; [reflexivity|].
  destruct (Z.log2_spec n ltac:(lia)) as [_ Hu].
  pose proof (Z.log2_nonneg n) as Hl.
  rewrite Nat2Z.inj_succ, Z2Nat.id by lia.
  eapply Z.lt_le_trans; [exact Hu|].
  apply Z.pow_le_mono_l. lia.
Qed.

(** Reading back what [str] printed. *)
Lemma read_py_str (n : Z) : 0 <= n -> read_digits (py_str n) 0 = n.
Proof.
  intros Hn. unfold py_str. destruct (Z.ltb_spec n 0); [lia|].
  destruct (read_str_digits (Z.to_nat (Z.log2 n)) n EmptyString) as [k Hk].
  { split; [lia | now apply pow10_log2]. }
  destruct (Hk 0) as [-> _]. reflexivity.
Qed.

Lemma py_str_inj (m n : Z) : 0 <= m -> 0 <= n -> py_str m = py_str n -> m = n.
Proof.
  intros Hm Hn E. rewrite <- (read_py_str m Hm), <- (read_py_str n Hn). now rewrite E.
Qed.

Lemma append_inj_r (a b c : string) : a +:+ c = b +:+ c -> a = b.
Proof.
  revert b. induction a as [|x a IH]; intros [|y b] H.
  - reflexivity.
  - exfalso. apply (f_equal String.length) in H.
    rewrite append_empty_l, append_cons in H. cbn [String.length] in H.
    rewrite length_append in H. lia.
  - exfalso. apply (f_equal String.length) in H.
    rewrite append_empty_l, append_cons in H. cbn [String.length] in H.
    rewrite length_append in H. lia.
  - rewrite !append_cons in H. injection H as -> H. f_equal. now apply IH.
Qed.

Lemma append_inj_l (a b c : string) : a +:+ b = a +:+ c -> b = c.
Proof.
  induction a as [|x a IH]; [now rewrite !append_empty_l|].
  rewrite !append_cons. intros [= H]. now apply IH.
Qed.

Section Split.
Variable E : env.

(** What a successful [split_audio] did. *)
Lemma split_audio_inv input c w chunks w' :
  0 < c ->
  split_audio E input c w = (Ok chunks, w') ->
  input ∈ disk w /\
  ((encoded_size E input <= c * 1024 * 1024 /\ chunks = [input] /\ w' = w) \/
   (c * 1024 * 1024 < encoded_size E input /\
    exists audio,
      decode E input = Some audio /\
      let n := num_chunks_of (encoded_size E input) c in
      let cd := int_truediv (seg_len audio) n in
      let ids := seq 0 (Z.to_nat n) in
      1 <= n /\
      chunks = map (chunk_name E) ids /\
      temps w' = temps w ++ chunks /\
      disk w' = disk w ∪ list_to_set chunks /\
      exports w' = exports w ++ map (chunk_call E audio cd) ids /\
      uploads w' = uploads w /\ unlinks w' = unlinks w /\
      local_audio_file w' = local_audio_file w)).
Proof.
  intros Hc. unfold split_audio, bind at 1, os_path_getsize.
  destruct (bool_decide_reflect (input ∈ disk w)) as [Hin|]; [|discriminate].
  split; [exact Hin|].
  destruct (Z.leb_spec (encoded_size E input) (c * 1024 * 1024)) as [Hle|Hgt].
  { unfold ret in H. injection H as <- <-. now left. }
  destruct (Z.eqb_spec c 0) as [?|_]; [lia|].
  right. split; [exact Hgt|].
  unfold bind at 1, AudioSegment_from_file in H.
  rewrite (bool_decide_true _ Hin) in H.
  destruct (decode E input) as [audio|]; [|discriminate].
  exists audio. split; [reflexivity|].
  pose proof (num_chunks_of_pos (encoded_size E input) c Hc ltac:(lia)) as Hn.
  destruct (Z.eqb_spec (num_chunks_of (encoded_size E input) c) 0) as [?|_]; [lia|].
  apply split_loop_inv in H as (-> & Ht & Hd & He & Hu & Hl & Hla).
  cbv zeta. rewrite app_nil_l. now repeat split.
Qed.

(** Under a working encoder [split_audio] returns. *)
Lemma split_audio_total input c w audio :
  encoder_works E -> input ∈ disk w -> decode E input = Some audio -> 0 < c ->
  exists chunks w', split_audio E input c w = (Ok chunks, w').
Proof.
  intros He Hin Hdec Hc.
  destruct (Z.le_gt_cases (encoded_size E input) (c * 1024 * 1024)) as [Hle|Hgt].
  { exists [input], w. now apply split_audio_small. }
  unfold split_audio.
  rewrite (bind_ok _ _ _ _ _ (getsize_ok _ _ _ Hin)).
  destruct (Z.leb_spec (encoded_size E input) (c * 1024 * 1024)) as [?|_]; [lia|].
  destruct (Z.eqb_spec c 0) as [?|_]; [lia|].
  rewrite (bind_ok _ _ _ _ _ (from_file_ok _ _ _ _ Hin Hdec)).
  pose proof (num_chunks_of_pos (encoded_size E input) c Hc ltac:(lia)) as Hn.
  destruct (Z.eqb_spec (num_chunks_of (encoded_size E input) c) 0) as [?|_]; [lia|].
  destruct (split_loop_ok E audio
              (int_truediv (seg_len audio) (num_chunks_of (encoded_size E input) c))
              (seq 0 (Z.to_nat (num_chunks_of (encoded_size E input) c))) He [] w)
    as (w' & Heq & _).
  eauto.
Qed.

(** X3. A call of [split_audio] that returns never returns an empty list;
    its input is still on disk and so is every path it returns. *)
Theorem split_audio_returns_a_chunk (input : string) (c : Z) (w : world)
    (chunks : list string) (w' : world) :
  0 < c ->
  split_audio E input c w = (Ok chunks, w') ->
  chunks <> [] /\ input ∈ disk w' /\ (forall p, p ∈ chunks -> p ∈ disk w').
Proof.
  intros Hc H.
  apply (split_audio_inv _ _ _ _ _ Hc) in H as [Hin [(_ & -> & ->)|(_ & audio & _ & H)]].
  - split; [discriminate|]. split; [exact Hin|].
    intros p Hp. apply list_elem_of_singleton in Hp. now subst.
  - cbv zeta in H. destruct H as (Hn & -> & _ & Hd & _).
    split.
    + destruct (Z.to_nat _) eqn:F; [lia|]. discriminate.
    + rewrite Hd. split; [set_solver|]. intros p Hp. set_solver.
Qed.

(** X4. When the input is over the limit, a call of [split_audio] that
    returns gives as many paths as [math.ceil(file_size_mb / chunk_size_mb)]
    says; the i-th path is the temporary file asked for with the suffix
    [_chunk{i}.ogg]; the temporary files created are the returned paths, in
    order; and the encoder was called once per index, in order, each time on
    the slice of the decoded input between the two bounds of that index. *)
Theorem split_audio_chunk_files (input : string) (c : Z) (w : world)
    (chunks : list string) (w' : world) :
  0 < c ->
  c * 1024 * 1024 < encoded_size E input ->
  split_audio E input c w = (Ok chunks, w') ->
  exists audio,
    decode E input = Some audio /\
    let n := num_chunks_of (encoded_size E input) c in
    Z.of_nat (length chunks) = n /\
    (forall i : nat, (i < length chunks)%nat ->
       chunks !! i = Some (tmp_name E (chunk_suffix i))) /\
    temps w' = temps w ++ chunks /\
    exports w' =
      exports w ++
      map (chunk_call E audio (int_truediv (seg_len audio) n)) (seq 0 (length chunks)).
Proof.
  intros Hc Hbig H.
  apply (split_audio_inv _ _ _ _ _ Hc) in H as [Hin [(Hle & _)|(_ & audio & Hdec & H)]];
    [lia|].
  cbv zeta in H. destruct H as (Hn & -> & Ht & _ & He & _).
  exists audio. split; [exact Hdec|]. cbv zeta.
  rewrite length_map, length_seq. split; [lia|]. split; [|now split].
  intros i Hi. rewrite list_lookup_fmap, lookup_seq_lt by exact Hi. reflexivity.
Qed.

End Split.

(* ===================================================================== *)
(** ** White space and [strip] *)
(* ===================================================================== *)

(** *** White space, byte by byte *)

Lemma is_space1_true (a : ascii) :
  is_space1 a = true <->
  ((9 <= nat_of_ascii a <= 13)%nat \/ (28 <= nat_of_ascii a <= 32)%nat).
Proof.
  unfold is_space1. cbv zeta.
  rewrite orb_true_iff, !andb_true_iff, !Nat.leb_le. tauto.
Qed.

Lemma is_space2_true (a b : ascii) :
  is_space2 a b = true <->
  (nat_of_ascii a = 194 /\ (nat_of_ascii b = 133 \/ nat_of_ascii b = 160))%nat.
Proof.
  unfold is_space2. cbv zeta.
  rewrite andb_true_iff, orb_true_iff, !Nat.eqb_eq. tauto.
Qed.

Lemma is_space3_true (a b c : ascii) :
  is_space3 a b c = true ->
  (225 <= nat_of_ascii a <= 227 /\ 128 <= nat_of_ascii b <= 154 /\
   128 <= nat_of_ascii c <= 175)%nat.
Proof.
  unfold is_space3. cbv zeta.
  rewrite !orb_true_iff, !andb_true_iff, !orb_true_iff, !andb_true_iff,
    !Nat.eqb_eq, !Nat.leb_le.
  lia.
Qed.

Lemma space2_not_space1 (a b : ascii) :
  is_space2 a b = true -> is_space1 a = false /\ is_space1 b = false.
Proof.
  intros H. apply is_space2_true in H.
  split; apply not_true_is_false; intros F; apply is_space1_true in F; lia.
Qed.

Lemma space3_not_space (a b c : ascii) :
  is_space3 a b c = true ->
  is_space1 a = false /\ is_space1 c = false /\
  (forall x, is_space2 a x = false) /\ is_space2 b c = false.
Proof.
  intros H. apply is_space3_true in H.
  split; [|split; [|split]].
  - apply not_true_is_false. intros F. apply is_space1_true in F. lia.
  - apply not_true_is_false. intros F. apply is_space1_true in F. lia.
  - intros x. apply not_true_is_false. intros F. apply is_space2_true in F. lia.
  - apply not_true_is_false. intros F. apply is_space2_true in F. lia.
Qed.

Lemma space2_LF (a : ascii) : is_space2 a LF = false.
Proof.
  apply not_true_is_false. intros F. apply is_space2_true in F.
  change (nat_of_ascii LF) with 10%nat in F. lia.
Qed.

Lemma space3_LF (a b : ascii) : is_space3 a b LF = false.
Proof.
  apply not_true_is_false. intros F. apply is_space3_true in F.
  change (nat_of_ascii LF) with 10%nat in F. lia.
Qed.

(** *** One character off the left *)

Lemma lstrip_1 (a : ascii) (s : string) :
  is_space1 a = true -> lstrip (String a s) = lstrip s.
Proof. intros H. cbn [lstrip]. now rewrite H. Qed.

Lemma lstrip_2 (a b : ascii) (s : string) :
  is_space2 a b = true -> lstrip (String a (String b s)) = lstrip s.
Proof.
  intros H. destruct (space2_not_space1 a b H) as [H1 _].
  cbn [lstrip]. now rewrite H1, H.
Qed.

Lemma lstrip_3 (a b c : ascii) (s : string) :
  is_space3 a b c = true -> lstrip (String a (String b (String c s))) = lstrip s.
Proof.
  intros H. destruct (space3_not_space a b c H) as (H1 & _ & H2 & _).
  cbn [lstrip]. now rewrite H1, H2, H.
Qed.

Lemma all_space_1 (a : ascii) (s : string) :
  is_space1 a = true -> all_space (String a s) = all_space s.
Proof. intros H. cbn [all_space]. now rewrite H. Qed.

Lemma all_space_2 (a b : ascii) (s : string) :
  is_space2 a b = true -> all_space (String a (String b s)) = all_space s.
Proof.
  intros H. destruct (space2_not_space1 a b H) as [H1 _].
  cbn [all_space]. now rewrite H1, H.
Qed.

Lemma all_space_3 (a b c : ascii) (s : string) :
  is_space3 a b c = true -> all_space (String a (String b (String c s))) = all_space s.
Proof.
  intros H. destruct (space3_not_space a b c H) as (H1 & _ & H2 & _).
  cbn [all_space]. now rewrite H1, H2, H.
Qed.

(** Reading a string from the left, one white-space character at a time,
    until a character that is none, or the end. *)
Lemma space_parse_cases (P : string -> Prop) :
  P EmptyString ->
  (forall a s, is_space1 a = true -> P s -> P (String a s)) ->
  (forall a b s, is_space2 a b = true -> P s -> P (String a (String b s))) ->
  (forall a b c s, is_space3 a b c = true -> P s -> P (String a (String b (String c s)))) ->
  (forall a, is_space1 a = false -> P (String a EmptyString)) ->
  (forall a b, is_space1 a = false -> is_space2 a b = false ->
     P (String a (String b EmptyString))) ->
  (forall a b c s, is_space1 a = false -> is_space2 a b = false ->
     is_space3 a b c = false -> P (String a (String b (String c s)))) ->
  forall s, P s.
Proof.
  intros H0 H1 H2 H3 P1 P2 P3 s.
  assert (G : forall n s, (String.length s < n)%nat -> P s).
  { clear s. induction n as [|n IH]; intros s Hn; [lia|].
    destruct s as [|a s1]; [exact H0|]. cbn [String.length] in Hn.
    destruct (is_space1 a) eqn:E1.
    { apply H1; [exact E1|]. apply IH. lia. }
    destruct s1 as [|b s2]; [now apply P1|].
    cbn [String.length] in Hn.
    destruct (is_space2 a b) eqn:E2.
    { apply H2; [exact E2|]. apply IH. lia. }
    destruct s2 as [|c s3]; [now apply P2|].
    cbn [String.length] in Hn.
    destruct (is_space3 a b c) eqn:E3.
    { apply H3; [exact E3|]. apply IH. lia. }
    now apply P3. }
  apply (G (S (String.length s))). lia.
Qed.

Lemma space_parse (P : string -> Prop) :
  P EmptyString ->
  (forall a s, is_space1 a = true -> P s -> P (String a s)) ->
  (forall a b s, is_space2 a b = true -> P s -> P (String a (String b s))) ->
  (forall a b c s, is_space3 a b c = true -> P s -> P (String a (String b (String c s)))) ->
  (forall s, s <> EmptyString -> lstrip s = s -> all_space s = false -> P s) ->
  forall s, P s.
Proof.
  intros H0 H1 H2 H3 Hp. apply space_parse_cases; try assumption.
  - intros a E1. apply Hp; [discriminate | |]; cbn; now rewrite E1.
  - intros a b E1 E2. apply Hp; [discriminate | |]; cbn; now rewrite E1, E2.
  - intros a b c s E1 E2 E3.
    apply Hp; [discriminate | |]; cbn [lstrip all_space]; now rewrite E1, E2, E3.
Qed.

Lemma lstrip_empty (s : string) : lstrip s = EmptyString <-> all_space s = true.
Proof.
  induction s using space_parse.
  - easy.
  - now rewrite lstrip_1, all_space_1.
  - now rewrite lstrip_2, all_space_2.
  - now rewrite lstrip_3, all_space_3.
  - split; congruence.
Qed.

Lemma lstrip_idem (s : string) : lstrip (lstrip s) = lstrip s.
Proof.
  induction s using space_parse.
  - reflexivity.
  - now rewrite lstrip_1.
  - now rewrite lstrip_2.
  - now rewrite lstrip_3.
  - congruence.
Qed.

Lemma all_space_app (a b : string) :
  all_space a = true -> all_space (a +:+ b) = all_space b.
Proof.
  induction a using space_parse; intros Ha.
  - now rewrite append_empty_l.
  - rewrite all_space_1 in Ha by assumption.
    rewrite append_cons, all_space_1 by assumption. auto.
  - rewrite all_space_2 in Ha by assumption.
    rewrite !append_cons, all_space_2 by assumption. auto.
  - rewrite all_space_3 in Ha by assumption.
    rewrite !append_cons, all_space_3 by assumption. auto.
  - congruence.
Qed.

(** *** The right end *)

Lemma rstrip_cons (a : ascii) (s : string) :
  rstrip (String a s) =
  if is_space_char (String a (rstrip s)) then EmptyString else String a (rstrip s).
Proof. reflexivity. Qed.

Lemma rstrip_all_space (s : string) : all_space s = true -> rstrip s = EmptyString.
Proof.
  induction s using space_parse; intros Hs.
  - reflexivity.
  - rewrite all_space_1 in Hs by assumption.
    rewrite rstrip_cons, IHs by assumption. cbn [is_space_char]. now rewrite H.
  - rewrite all_space_2 in Hs by assumption.
    destruct (space2_not_space1 a b H) as [_ Hb].
    rewrite !rstrip_cons, IHs by assumption. cbn [is_space_char].
    rewrite Hb. cbn [is_space_char]. now rewrite H.
  - rewrite all_space_3 in Hs by assumption.
    destruct (space3_not_space a b c H) as (_ & Hc & _ & Hbc).
    rewrite !rstrip_cons, IHs by assumption. cbn [is_space_char].
    rewrite Hc. cbn [is_space_char]. rewrite Hbc. cbn [is_space_char]. now rewrite H.
  - congruence.
Qed.

(** What [rstrip] drops is white space. *)
Lemma rstrip_split (s : string) :
  exists ws, s = rstrip s +:+ ws /\ all_space ws = true.
Proof.
  induction s as [|a s (ws & Hs & Hw)].
  - now exists EmptyString.
  - rewrite rstrip_cons.
    destruct (is_space_char (String a (rstrip s))) eqn:T.
    + exists (String a s). split; [reflexivity|].
      rewrite Hs. destruct (rstrip s) as [|b [|c [|d r]]]; cbn [is_space_char] in T.
      * rewrite append_empty_l, all_space_1; assumption.
      * rewrite !append_cons, append_empty_l, all_space_2; assumption.
      * rewrite !append_cons, append_empty_l, all_space_3; assumption.
      * discriminate.
    + exists ws. split; [|exact Hw]. rewrite append_cons. now rewrite <- Hs.
Qed.

Lemma rstrip_empty (s : string) : rstrip s = EmptyString <-> all_space s = true.
Proof.
  split; [|apply rstrip_all_space].
  intros H. destruct (rstrip_split s) as (ws & Hs & Hw).
  rewrite H, append_empty_l in Hs. now subst.
Qed.

(** *** [strip] *)

Lemma py_strip_empty (s : string) : py_strip s = EmptyString <-> all_space s = true.
Proof.
  unfold py_strip. rewrite rstrip_empty. split; intros H.
  - apply lstrip_empty. rewrite <- lstrip_idem. now apply lstrip_empty.
  - apply lstrip_empty in H. now rewrite H.
Qed.

Lemma truthy_py_strip (s : string) : truthy (py_strip s) = negb (all_space s).
Proof.
  destruct (all_space s) eqn:A.
  - apply py_strip_empty in A. now rewrite A.
  - destruct (py_strip s) eqn:P; [|reflexivity].
    apply py_strip_empty in P. congruence.
Qed.

Lemma truthy_and_strip (s : string) : truthy s && truthy (py_strip s) = negb (all_space s).
Proof.
  rewrite truthy_py_strip. destruct s; [reflexivity|]. reflexivity.
Qed.

(** What [strip] returns is white space only when it is empty. *)
Lemma all_space_py_strip (s : string) : all_space (py_strip s) = all_space s.
Proof.
  destruct (all_space s) eqn:A.
  - apply py_strip_empty in A. now rewrite A.
  - apply not_true_is_false. intros F. unfold py_strip in F.
    destruct (rstrip_split (lstrip s)) as (ws & Hs & Hw).
    assert (Hl : all_space (lstrip s) = true).
    { rewrite Hs, all_space_app by exact F. exact Hw. }
    apply lstrip_empty in Hl. rewrite lstrip_idem in Hl.
    apply lstrip_empty in Hl. congruence.
Qed.

(** [strip] of a text and of the same text followed by a newline. *)
Lemma lstrip_append_nl (s : string) :
  lstrip (s +:+ nl) = if all_space s then EmptyString else lstrip s +:+ nl.
Proof.
  induction s using space_parse_cases.
  - reflexivity.
  - now rewrite append_cons, !lstrip_1, all_space_1.
  - now rewrite !append_cons, !lstrip_2, all_space_2.
  - now rewrite !append_cons, !lstrip_3, all_space_3.
  - rewrite append_cons, append_empty_l. unfold nl. cbn [lstrip all_space].
    now rewrite H, space2_LF.
  - rewrite !append_cons, append_empty_l. unfold nl. cbn [lstrip all_space].
    now rewrite H, H0, space3_LF.
  - rewrite !append_cons. cbn [lstrip all_space]. now rewrite H, H0, H1.
Qed.

Lemma rstrip_append_nl (s : string) : rstrip (s +:+ nl) = rstrip s.
Proof.
  induction s as [|a s IH]; [reflexivity|].
  now rewrite append_cons, !rstrip_cons, IH.
Qed.

Lemma py_strip_append_nl (s : string) : py_strip (s +:+ nl) = py_strip s.
Proof.
  unfold py_strip. rewrite lstrip_append_nl.
  destruct (all_space s) eqn:A.
  - symmetry. apply rstrip_empty. apply lstrip_empty in A. now rewrite A.
  - apply rstrip_append_nl.
Qed.

(** Spaces beyond ASCII are stripped like the others, and a prompt made of
    them is no prompt. *)
Example py_strip_examples :
  py_strip (Scenario.ideographic_space +:+ " spoken words" +:+ Scenario.no_break_space +:+ nl)
    = "spoken words"%string /\
  all_space (Scenario.no_break_space +:+ Scenario.ideographic_space) = true /\
  req_prompt (build_request Scenario.chunk0 "whisper-1" false
                (Some Scenario.no_break_space) None) = None.
Proof. vm_compute. repeat split. Qed.

(* ===================================================================== *)
(** ** [transcribe]: the request and the errors *)
(* ===================================================================== *)

(** X9. The [prompt] argument of the request is [None] when [transcribe]
    gets no prompt or one made of white space only, and the prompt itself
    otherwise; for the call [start_transcription] makes, it is the stripped
    text of the prompt box, or [None] when that box holds white space only. *)
Theorem blank_prompt_is_omitted (file model : string) (srt : bool)
    (lang : option string) (g : gui) (chunk : string) :
  req_prompt (build_request file model srt None lang) = None /\
  (forall p, req_prompt (build_request file model srt (Some p) lang) =
             if all_space p then None else Some p) /\
  req_prompt (gui_request g chunk) =
    (if all_space (prompt_text g) then None else Some (py_strip (prompt_text g))).
Proof.
  split; [reflexivity|]. split.
  - intros p. unfold build_request. cbn [req_prompt].
    rewrite truthy_and_strip. now destruct (all_space p).
  - unfold gui_request, build_request. cbn [req_prompt].
    rewrite truthy_and_strip, all_space_py_strip.
    now destruct (all_space (prompt_text g)).
Qed.

Section Transcribe.
Variable E : env.

(** The four ways a call of [transcribe] can go. *)
Lemma transcribe_cases audio model srt prompt lang w :
  let req := build_request audio model srt prompt lang in
  let r := transcribe E audio model srt prompt lang w in
  (client E = false /\
   r = (Raise (Exception ("Transcription error: " +:+ not_initialized)), w)) \/
  (client E = true /\ (audio ∉ disk w) /\
   r = (Raise (Exception ("Transcription error: " +:+ exn_str (FileNotFoundError audio))), w)) \/
  (client E = true /\ audio ∈ disk w /\ api E req = None /\
   r = (Raise (Exception ("Transcription error: " +:+ exn_str APIError)),
        with_uploads (uploads w ++ [req]) w)) \/
  (exists t, client E = true /\ audio ∈ disk w /\ api E req = Some t /\
   r = (Ok (t, if srt then Some t else None), with_uploads (uploads w ++ [req]) w)).
Proof.
  intros req r. subst r.
  unfold transcribe, try_except, bind, raise, ret, os_path_getsize, transcriptions_create.
  destruct (client E); cbn [negb]; [|now left].
  right. destruct (bool_decide_reflect (audio ∈ disk w)) as [Hin|Hin]; [|now left].
  right. fold req. destruct (api E req) as [t|]; [right|now left].
  exists t. now destruct srt.
Qed.

(** X10. Every exception that leaves [transcribe] is a plain [Exception]
    whose message starts with "Transcription error: ": the missing client,
    the missing file and the failure of the remote call are all wrapped. *)
Theorem transcribe_wraps_every_error (audio model : string) (srt : bool)
    (prompt lang : option string) (w : world) (e : exn) (w' : world) :
  transcribe E audio model srt prompt lang w = (Raise e, w') ->
  exists msg, e = Exception ("Transcription error: " +:+ msg).
Proof.
  intros H.
  destruct (transcribe_cases audio model srt prompt lang w)
    as [(_ & R)|[(_ & _ & R)|[(_ & _ & _ & R)|(t & _ & _ & _ & R)]]];
    cbv zeta in R; rewrite R in H; inversion H; subst; eauto.
Qed.

(** X11. A call of [transcribe] touches no file, and sends the service at
    most one request, the one built from its arguments; it sends none when
    the client is unset or the audio file is missing, and when it returns,
    the request was sent and the text it returns is the service's answer. *)
Theorem transcribe_sends_at_most_one_request (audio model : string) (srt : bool)
    (prompt lang : option string) (w : world) :
  let req := build_request audio model srt prompt lang in
  let r := transcribe E audio model srt prompt lang w in
  disk (snd r) = disk w /\ unlinks (snd r) = unlinks w /\ temps (snd r) = temps w /\
  (uploads (snd r) = uploads w \/ uploads (snd r) = uploads w ++ [req]) /\
  (client E = false \/ (audio ∉ disk w) -> uploads (snd r) = uploads w) /\
  (forall a, fst r = Ok a -> uploads (snd r) = uploads w ++ [req] /\ api E req = Some (fst a)).
Proof.
  intros req r. subst r.
  destruct (transcribe_cases audio model srt prompt lang w)
    as [(Hc & R)|[(Hc & Hd & R)|[(Hc & Hd & Ha & R)|(t & Hc & Hd & Ha & R)]]];
    cbv zeta in R; rewrite R; cbn [fst snd with_uploads disk unlinks temps uploads];
    fold req; repeat split; auto; try discriminate.
  - intros [?|?]; [congruence | contradiction].
  - intros [?|?]; [congruence | contradiction].
  - injection H as <-. exact Ha.
Qed.

End Transcribe.

(* ===================================================================== *)
(** ** The run as a whole *)
(* ===================================================================== *)

Section Runs.
Variable E : env.
Variable combine_srt_body : list string -> string.

(** X15. [start_transcription] never raises: whatever the form, the disk,
    the decoder, the encoder and the service do, every exception of the body
    is caught by the [except] clause and every exception of the clean-up by
    the [try] inside the [finally] clause. *)
Theorem start_transcription_never_raises (g : gui) (w : world) :
  fst (start_transcription E combine_srt_body g w) = Ok tt.
Proof.
  unfold start_transcription.
  destruct (negb (truthy (file_path g)) || negb (bool_decide (file_path g ∈ disk w)));
    [reflexivity|].
  unfold try_finally, try_except.
  destruct (start_transcription_body _ _ _ _) as [[[]|e] w'].
  - now rewrite finally_eq.
  - now rewrite except_eq, finally_eq.
Qed.

Lemma transcribe_chunks_cons_eq g n i c rest full srt w :
  transcribe_chunks E g n i (c :: rest) full srt w =
  match transcribe E c (model_var g) (create_srt g) (Some (py_strip (prompt_text g)))
          (gui_language g) (with_status (chunk_status n i) w) with
  | (Ok r, w') =>
      (try_except (os_unlink c) (fun _ => ret tt) ;;;
       transcribe_chunks E g n (i + 1) rest (full ++ [fst r])
         match snd r with
         | Some s => if truthy s then srt ++ [s] else srt
         | None => srt
         end) w'
  | (Raise e, w') => (Raise e, w')
  end.
Proof. reflexivity. Qed.

(** One round of the loop: the call fails before or after its request went
    out, or the chunk is transcribed and its file deleted. *)
Lemma transcribe_chunks_step g n i c rest full srt w :
  (exists e, transcribe_chunks E g n i (c :: rest) full srt w =
             (Raise e, with_status (chunk_status n i) w)) \/
  (exists e, transcribe_chunks E g n i (c :: rest) full srt w =
             (Raise e, after_upload g n i c w)) \/
  (exists t, c ∈ disk w /\ api E (gui_request g c) = Some t /\
     transcribe_chunks E g n i (c :: rest) full srt w =
     transcribe_chunks E g n (i + 1) rest (full ++ [t])
       (if create_srt g && truthy t then srt ++ [t] else srt)
       (after_chunk g n i c w)).
Proof.
  rewrite !transcribe_chunks_cons_eq.
  destruct (transcribe_cases E c (model_var g) (create_srt g)
              (Some (py_strip (prompt_text g))) (gui_language g)
              (with_status (chunk_status n i) w))
    as [(Hc & R)|[(Hc & Hd & R)|[(Hc & Hd & Ha & R)|(t & Hc & Hd & Ha & R)]]];
    cbv zeta in R; rewrite R; clear R.
  - left. eexists. reflexivity.
  - left. eexists. reflexivity.
  - right. left. eexists. reflexivity.
  - right. right. exists t. split; [exact Hd|]. split; [exact Ha|].
    cbn [fst snd]. fold (gui_request g c). fold (after_upload g n i c w).
    unfold bind at 1, try_except at 1, os_unlink at 1.
    assert (Hd' : c ∈ disk (after_upload g n i c w)) by exact Hd.
    rewrite (bool_decide_true _ Hd'). fold (after_chunk g n i c w).
    destruct (create_srt g); cbn [andb]; [|reflexivity].
    destruct (truthy t); reflexivity.
Qed.

(** The loop, whatever happens: requests go out in chunk order, one per
    chunk, and a chunk is unlinked only after its own request was answered. *)
Lemma transcribe_chunks_in_order g n chunks :
  forall i full srt w,
    let r := transcribe_chunks E g n i chunks full srt w in
    exists j k : nat,
      (j <= k <= j + 1)%nat /\ (k <= length chunks)%nat /\
      uploads (snd r) = uploads w ++ map (gui_request g) (take k chunks) /\
      unlinks (snd r) = unlinks w ++ take j chunks /\
      (forall a, fst r = Ok a -> j = length chunks).
Proof.
  induction chunks as [|c rest IH]; intros i full srt w r; subst r.
  - exists 0%nat, 0%nat. cbn. rewrite !app_nil_r. repeat split; lia.
  - destruct (transcribe_chunks_step g n i c rest full srt w)
      as [(e & R)|[(e & R)|(t & Hd & Ha & R)]]; rewrite R; clear R.
    + exists 0%nat, 0%nat. cbn. rewrite !app_nil_r. repeat split; try lia. discriminate.
    + exists 0%nat, 1%nat. cbn. rewrite !app_nil_r. repeat split; try lia. discriminate.
    + match goal with
      | |- context [transcribe_chunks E g n (i + 1) rest ?f ?s ?w1] =>
          destruct (IH (i + 1) f s w1) as (j & k & Hjk & Hk & Hu & Hl & Hok)
      end.
      exists (S j), (S k). cbn [take map length].
      cbn [after_chunk after_upload with_disk with_unlinks with_uploads with_status
             uploads unlinks] in Hu, Hl.
      rewrite Hu, Hl, <- !app_assoc. repeat split; try lia.
      intros a Ha'. f_equal. eapply Hok. exact Ha'.
Qed.

(** X16. Whatever happens in the loop of [start_transcription], the requests
    sent are those of the first k chunks, in order, and the [os.unlink] calls
    are on the first j chunks, in order, with j = k or j = k - 1: a chunk is
    deleted only after its own request was answered, and no chunk is skipped.
    When the loop completes, every chunk has been unlinked. *)
Theorem chunks_are_processed_in_order (g : gui) (chunks : list string) (w : world) :
  let r := transcribe_chunks E g (length chunks) 1 chunks [] [] w in
  exists j k : nat,
    (j <= k <= j + 1)%nat /\ (k <= length chunks)%nat /\
    uploads (snd r) = uploads w ++ map (gui_request g) (take k chunks) /\
    unlinks (snd r) = unlinks w ++ take j chunks /\
    (forall a, fst r = Ok a -> j = length chunks).
Proof. apply transcribe_chunks_in_order. Qed.

(** What a successful first half did. *)
Lemma prepare_inv g w0 chunks w2 :
  start_transcription_prepare E g w0 = (Ok chunks, w2) ->
  exists audio,
    decode E (file_path g) = Some audio /\
    split_audio E (tmp_name E ".ogg") 20
      (with_status "Preparing audio chunks..."
         (with_local_audio_file (Some (tmp_name E ".ogg"))
            (after_optimize E audio (with_status "Starting transcription..." w0))))
    = (Ok chunks, w2).
Proof.
  unfold start_transcription_prepare.
  rewrite (bind_ok (update_status _) _ w0 _ tt eq_refl).
  unfold bind at 1.
  destruct (optimize_audio E (file_path g) _) as [[a|e] w1] eqn:Ho; [|discriminate].
  apply optimize_audio_inv in Ho as (audio & Hdec & -> & ->).
  rewrite (bind_ok (modify _) _ _ _ tt eq_refl).
  rewrite (bind_ok (update_status _) _ _ _ tt eq_refl).
  intros H. now exists audio.
Qed.

Lemma prepare_nonempty g w0 chunks w2 :
  start_transcription_prepare E g w0 = (Ok chunks, w2) -> chunks <> [].
Proof.
  intros H. apply prepare_inv in H as (audio & _ & H).
  apply split_audio_inv in H as [_ [(_ & -> & _)|(_ & a' & _ & H)]]; [discriminate| |lia].
  cbv zeta in H. destruct H as (Hn & -> & _).
  destruct (Z.to_nat _) eqn:F; [lia | discriminate].
Qed.

(** X17. When the client is unset ([load_config] did not succeed), a run
    whose audio was normalised and split all the same sends no request, and
    ends in the [except] clause with the error "Transcription error: OpenAI
    client not initialized. Check your API key."; the text widget and the
    subtitle attribute keep their values. *)
Theorem run_without_client_sends_nothing (g : gui) (w w2 : world) (chunks : list string) :
  run_starts g w ->
  start_transcription_prepare E g (with_local_audio_file None w) = (Ok chunks, w2) ->
  client E = false ->
  let r := start_transcription E combine_srt_body g w in
  uploads (snd r) = uploads w /\
  reported (snd r) =
    reported w ++
      [Exception "Transcription error: OpenAI client not initialized. Check your API key."] /\
  status (snd r) = "Error occurred during transcription"%string /\
  output_text (snd r) = output_text w /\ srt_content (snd r) = srt_content w.
Proof.
  intros Hrun Hprep Hc r. subst r.
  pose proof (prepare_nonempty g _ _ _ Hprep) as Hne.
  destruct chunks as [|c rest]; [contradiction|].
  assert (Hloop : transcribe_chunks E g (length (c :: rest)) 1 (c :: rest) [] []
                    (with_status transcribing w2)
                  = (Raise (Exception ("Transcription error: " +:+ not_initialized)),
                     with_status (chunk_status (length (c :: rest)) 1)
                       (with_status transcribing w2))).
  { cbn [transcribe_chunks]. unfold bind at 1, update_status at 1, modify at 1.
    fold (chunk_status (length (c :: rest)) 1). unfold bind at 1.
    destruct (transcribe_cases E c (model_var g) (create_srt g)
                (Some (py_strip (prompt_text g))) (gui_language g)
                (with_status (chunk_status (length (c :: rest)) 1)
                   (with_status transcribing w2)))
      as [(_ & R)|[(Hc' & _)|[(Hc' & _)|(t & Hc' & _)]]]; try congruence.
    cbv zeta in R. now rewrite R. }
  destruct (loop_failure_discards_results E combine_srt_body g w w2 _ _ _ Hrun Hprep Hloop)
    as (_ & Hs & Hr & Hu & Ho & Hc').
  pose proof (quiet_prepare E g (with_local_audio_file None w)) as Hq.
  rewrite Hprep in Hq. destruct Hq as (Hqu & _).
  cbn [snd with_local_audio_file with_status uploads] in Hqu, Hu.
  rewrite Hu, Hqu. now repeat split.
Qed.

End Runs.

Lemma chunk_suffix_injective (i j : nat) : chunk_suffix i = chunk_suffix j -> i = j.
Proof.
  unfold chunk_suffix. intros H. apply append_inj_l, append_inj_r in H.
  apply py_str_inj in H; lia.
Qed.

Lemma chunk_suffix_not_ogg (i : nat) : chunk_suffix i <> ".ogg"%string.
Proof. unfold chunk_suffix. intros H. discriminate H. Qed.

Lemma NoDup_chunk_names (E : env) (n : nat) :
  (forall a b, tmp_name E a = tmp_name E b -> a = b) ->
  NoDup (map (chunk_name E) (seq 0 n)).
Proof.
  intros Hinj. apply NoDup_fmap_2; [|apply NoDup_seq].
  intros i j H. apply Hinj in H. now apply chunk_suffix_injective.
Qed.


(** X5. When temporary names differ for different suffixes, the paths a
    call of [split_audio] returns are pairwise distinct (the decimal
    rendering of the chunk index in the suffix is injective), and when the
    input was split none of them is the temporary file of [optimize_audio]. *)
Theorem split_audio_chunks_distinct (E : env) (input : string) (c : Z) (w : world)
    (chunks : list string) (w' : world) :
  0 < c ->
  (forall a b, tmp_name E a = tmp_name E b -> a = b) ->
  split_audio E input c w = (Ok chunks, w') ->
  NoDup chunks /\
  (c * 1024 * 1024 < encoded_size E input -> tmp_name E ".ogg" ∉ chunks).
Proof.
  intros Hc Hinj H.
  apply (split_audio_inv _ _ _ _ _ _ Hc) in H as [_ [(Hle & -> & _)|(Hgt & audio & _ & H)]].
  - split; [apply NoDup_singleton | lia].
  - cbv zeta in H. destruct H as (_ & -> & _). split; [now apply NoDup_chunk_names|].
    intros _ Hx. apply list_elem_of_fmap in Hx as (i & Hx & _).
    apply Hinj in Hx. symmetry in Hx. now apply chunk_suffix_not_ogg in Hx.
Qed.

Section Cleanup.
Variable E : env.
Variable combine_srt_body : list string -> string.


Lemma optimize_audio_encoder_fails input audio w :
  input ∈ disk w -> decode E input = Some audio ->
  encoder_ok E (optimize_export (normalized audio) (tmp_name E ".ogg")) = false ->
  optimize_audio E input w =
    (Raise (CouldntEncodeError (tmp_name E ".ogg")),
     with_exports (exports w ++ [optimize_export (normalized audio) (tmp_name E ".ogg")])
       (after_tempfile (tmp_name E ".ogg") w)).
Proof.
  intros Hin Hdec Henc.
  unfold optimize_audio, try_except, bind, raise, AudioSegment_from_file,
    NamedTemporaryFile, AudioSegment_export.
  rewrite (bool_decide_true _ Hin), Hdec.
  fold (normalized audio). now rewrite Henc.
Qed.

(** X18. When the encoder call of [optimize_audio] fails, the run ends in
    the [except] clause with that error, and the temporary file created for
    the normalised audio stays on disk: [audio_file] was never bound, so the
    [finally] clause deletes nothing. *)
Theorem failed_normalisation_leaves_its_file (g : gui) (w : world) (audio : audio_segment) :
  run_starts g w ->
  decode E (file_path g) = Some audio ->
  encoder_ok E (optimize_export (normalized audio) (tmp_name E ".ogg")) = false ->
  let r := start_transcription E combine_srt_body g w in
  fst r = Ok tt /\
  disk (snd r) = disk w ∪ {[ tmp_name E ".ogg" ]} /\
  temps (snd r) = temps w ++ [tmp_name E ".ogg"] /\
  unlinks (snd r) = unlinks w /\ uploads (snd r) = uploads w /\
  reported (snd r) = reported w ++ [CouldntEncodeError (tmp_name E ".ogg")].
Proof.
  intros Hrun Hdec Henc r. subst r.
  rewrite (start_transcription_eq E combine_srt_body g w Hrun).
  destruct Hrun as [_ Hin].
  assert (Hbody :
    start_transcription_body E combine_srt_body g (with_local_audio_file None w) =
    (Raise (CouldntEncodeError (tmp_name E ".ogg")),
     with_exports
       (exports w ++ [optimize_export (normalized audio) (tmp_name E ".ogg")])
       (after_tempfile (tmp_name E ".ogg")
          (with_status "Starting transcription..." (with_local_audio_file None w))))).
  { unfold start_transcription_body, start_transcription_prepare.
    apply bind_raise.
    rewrite (bind_ok (update_status _) _ _ _ tt eq_refl).
    apply bind_raise.
    exact (optimize_audio_encoder_fails (file_path g) audio
             (with_status "Starting transcription..." (with_local_audio_file None w))
             Hin Hdec Henc). }
  rewrite Hbody. now repeat split.
Qed.


End Cleanup.

(* ===================================================================== *)
(** ** Timestamps of whole milliseconds *)
(* ===================================================================== *)

Lemma inject_Z_sub (a b : Z) : (inject_Z (a - b) == inject_Z a - inject_Z b)%Q.
Proof. unfold Z.sub. rewrite inject_Z_plus, inject_Z_opp. ring. Qed.

Lemma round_half_even_unique (s : Q) (k : Z) :
  (inject_Z k - (1 # 2) < s)%Q -> (s < inject_Z k + (1 # 2))%Q -> round_half_even s = k.
Proof.
  intros Hl Hu. pose proof (round_half_even_near s) as [Nl Nu].
  set (t := round_half_even s) in *.
  assert (k - 1 < t) by (rewrite Zlt_Qlt, inject_Z_sub; change (inject_Z 1) with 1%Q; lra).
  assert (t < k + 1) by (rewrite Zlt_Qlt, inject_Z_plus; change (inject_Z 1) with 1%Q; lra).
  lia.
Qed.

Lemma Qfloor_div_Z (a d : Z) : 0 < d -> Qfloor (inject_Z a / inject_Z d) = a / d.
Proof.
  intros Hd. pose proof (inject_Z_pos d Hd) as Hq.
  pose proof (Z.div_mod a d ltac:(lia)) as D.
  pose proof (Z.mod_pos_bound a d Hd) as B.
  apply Qfloor_unique.
  - apply Qle_shift_div_l; [exact Hq|]. rewrite <- inject_Z_mult, <- Zle_Qle. nia.
  - apply Qlt_shift_div_r; [exact Hq|]. rewrite <- inject_Z_mult, <- Zlt_Qlt. nia.
Qed.

Lemma Qfloor_minus_Z (y : Q) (k : Z) : Qfloor (y - inject_Z k) = Qfloor y - k.
Proof.
  pose proof (Qfloor_le y) as Hl. pose proof (Qlt_floor y) as Hu.
  rewrite inject_Z_plus in Hu. change (inject_Z 1) with 1%Q in Hu.
  apply Qfloor_unique.
  - rewrite inject_Z_sub. lra.
  - replace (Qfloor y - k + 1) with (Qfloor y + 1 - k) by lia.
    rewrite inject_Z_sub, inject_Z_plus. change (inject_Z 1) with 1%Q. lra.
Qed.

(** The float nearest to [T / 1000] is within half a millisecond of it. *)
Lemma rounded_ms_error (T : Z) :
  0 <= T < 2 ^ 52 ->
  let x := int_truediv T 1000 in
  (inject_Z T - (1 # 2) < x * 1000)%Q /\ (x * 1000 < inject_Z T + (1 # 2))%Q /\
  (T mod 1000 = 0 -> (x == inject_Z (T / 1000))%Q).
Proof.
  intros HT x. subst x. unfold int_truediv. change (inject_Z 1000) with 1000%Q.
  assert (Hexact : T mod 1000 = 0 -> (rnd (inject_Z T / 1000) == inject_Z (T / 1000))%Q).
  { intros Hm. pose proof (Z.div_mod T 1000 ltac:(lia)) as D.
    assert (E : (inject_Z T / 1000 == inject_Z (T / 1000))%Q).
    { rewrite D at 1. rewrite Hm, Z.add_0_r, inject_Z_mult.
      change (inject_Z 1000) with 1000%Q. field. }
    rewrite (rnd_comp _ _ E). apply rnd_exact_int.
    split; [apply Z.div_pos; lia|].
    apply Z.div_lt_upper_bound; lia. }
  destruct (Z.eq_dec T 0) as [->|Hne].
  { split; [reflexivity|]. split; [reflexivity|]. exact Hexact. }
  assert (HTq : (0 < inject_Z T)%Q) by (apply inject_Z_pos; lia).
  assert (Hq : (0 < inject_Z T / 1000)%Q) by (apply Qlt_shift_div_l; lra).
  pose proof (rnd_error _ Hq) as [Hl Hu].
  set (x := rnd (inject_Z T / 1000)) in *.
  assert (HT2 : (inject_Z T < inject_Z (2 ^ 52))%Q) by (rewrite <- Zlt_Qlt; lia).
  change (inject_Z (2 ^ 52)) with 4503599627370496%Q in HT2.
  assert (U : (pow2 (-53) == 1 # 9007199254740992)%Q) by reflexivity.
  rewrite U in Hl, Hu.
  assert (E : (inject_Z T / 1000 * 1000 == inject_Z T)%Q) by (field; lra).
  apply (Qmult_le_compat_r _ _ 1000) in Hl; [|lra].
  apply (Qmult_le_compat_r _ _ 1000) in Hu; [|lra].
  assert (El : ((inject_Z T / 1000 - inject_Z T / 1000 * (1 # 9007199254740992)) * 1000
                == inject_Z T - inject_Z T * (1 # 9007199254740992))%Q) by (field; lra).
  assert (Eu : ((inject_Z T / 1000 + inject_Z T / 1000 * (1 # 9007199254740992)) * 1000
                == inject_Z T + inject_Z T * (1 # 9007199254740992))%Q) by (field; lra).
  rewrite El in Hl. rewrite Eu in Hu.
  split; [lra|]. split; [lra|]. exact Hexact.
Qed.

(** Floor of the rounded time over a whole number of seconds. *)
Lemma floor_of_rounded_ms (T d : Z) :
  0 <= T < 2 ^ 52 -> 0 < d ->
  Qfloor (int_truediv T 1000 / inject_Z d) = T / (1000 * d).
Proof.
  intros HT Hd. destruct (rounded_ms_error T HT) as (Hl & Hu & Hex).
  cbv zeta in Hl, Hu, Hex. set (x := int_truediv T 1000) in *.
  pose proof (inject_Z_pos d Hd) as Hdq.
  pose proof (Z.div_mod T (1000 * d) ltac:(lia)) as D.
  pose proof (Z.mod_pos_bound T (1000 * d) ltac:(lia)) as B.
  set (q := T / (1000 * d)) in *. set (r := T mod (1000 * d)) in *.
  destruct (Z.eq_dec r 0) as [Hr|Hr].
  - assert (Hm : T mod 1000 = 0).
    { rewrite D, Hr, Z.add_0_r, <- Z.mul_assoc, Z.mul_comm. apply Z.mod_mul. lia. }
    rewrite (Qfloor_comp _ _ (Qdiv_comp _ _ (Hex Hm) _ _ (Qeq_refl _))).
    rewrite Qfloor_div_Z by exact Hd. rewrite Z.div_div by lia. reflexivity.
  - assert (HTq : inject_Z T = inject_Z (1000 * d * q + r)) by now rewrite <- D.
    rewrite inject_Z_plus, !inject_Z_mult in HTq.
    change (inject_Z 1000) with 1000%Q in HTq.
    assert (Hr1 : (1 <= inject_Z r)%Q).
    { change 1%Q with (inject_Z 1). rewrite <- Zle_Qle. lia. }
    assert (Hr2 : (inject_Z r <= 1000 * inject_Z d - 1)%Q).
    { change 1%Q with (inject_Z 1). change 1000%Q with (inject_Z 1000).
      rewrite <- inject_Z_mult, <- inject_Z_sub, <- Zle_Qle. lia. }
    apply Qfloor_unique.
    + apply Qle_shift_div_l; [exact Hdq|]. rewrite HTq in Hl.
      assert (T1 : (1000 * (inject_Z q * inject_Z d) <= x * 1000)%Q) by lra. lra.
    + apply Qlt_shift_div_r; [exact Hdq|]. rewrite HTq in Hu.
      rewrite inject_Z_plus. change (inject_Z 1) with 1%Q.
      assert (T1 : (x * 1000 < 1000 * ((inject_Z q + 1) * inject_Z d))%Q) by lra. lra.
Qed.

Lemma format_06_3f_value (x : Q) (t : Z) :
  (0 <= x)%Q -> round_half_even (x * inject_Z 1000) = t -> 0 <= t <= 60000 ->
  format_06_3f x = pad2 (py_str (t / 1000)) +:+ String "." (pad3 (py_str (t mod 1000))).
Proof.
  intros H0 Ht Hr. unfold format_06_3f.
  assert (Hs : Qle_bool x 0 && negb (Qeq_bool x 0) = false).
  { destruct (Qle_bool x 0) eqn:L; [|reflexivity].
    apply Qle_bool_iff in L. assert (E : (x == 0)%Q) by lra.
    apply Qeq_bool_iff in E. now rewrite E. }
  rewrite Hs. cbn [sign_of].
  assert (Ea : (Qabs x * inject_Z 1000 == x * inject_Z 1000)%Q)
    by now rewrite Qabs_pos.
  rewrite (round_half_even_comp _ _ Ea), Ht.
  assert (Hip : 0 <= t / 1000 <= 60).
  { split; [apply Z.div_pos; lia | apply Z.div_le_upper_bound; lia]. }
  pose proof (Z.mod_pos_bound t 1000 ltac:(lia)) as Hfp.
  unfold zero_pad, pad2, pad3. rewrite !append_empty_l.
  cbn [String.length]. rewrite !Nat.sub_0_r.
  pose proof (length_py_str_le_2 (t / 1000) ltac:(lia)) as L2.
  pose proof (length_py_str_le_3 (t mod 1000) Hfp) as L3.
  rewrite append_assoc. f_equal.
  rewrite length_append. cbn [String.length].
  rewrite length_append, length_zeros. f_equal. lia.
Qed.

Lemma all_digits_pad3 (z : Z) : 0 <= z -> all_digits (pad3 (py_str z)) = true.
Proof.
  intros Hz. unfold pad3.
  now rewrite all_digits_append, all_digits_zeros, all_digits_py_str.
Qed.

Lemma format_timestamp_whole_ms_fields (T : Z) :
  0 <= T < 2 ^ 52 ->
  _format_timestamp (int_truediv T 1000) =
    pad2 (py_str (T / 3600000)) +:+ ":" +:+
    pad2 (py_str (T / 60000 mod 60)) +:+ ":" +:+
    pad2 (py_str (T / 1000 mod 60)) +:+ "," +:+
    pad3 (py_str (T mod 1000)).
Proof.
  intros HT. unfold _format_timestamp, float_floordiv.
  rewrite !int_of_float_inject.
  set (x := int_truediv T 1000).
  pose proof (floor_of_rounded_ms T 3600 HT ltac:(lia)) as Hh.
  pose proof (floor_of_rounded_ms T 60 HT ltac:(lia)) as Hm.
  fold x in Hh, Hm. change (1000 * 3600) with 3600000 in Hh.
  change (1000 * 60) with 60000 in Hm.
  rewrite Hh.
  assert (Hmin : Qfloor (float_mod x (inject_Z 3600) / inject_Z 60) = T / 60000 mod 60).
  { unfold float_mod. rewrite Hh.
    assert (E : ((x - inject_Z 3600 * inject_Z (T / 3600000)) / inject_Z 60
                 == x / inject_Z 60 - inject_Z (60 * (T / 3600000)))%Q).
    { rewrite inject_Z_mult. change (inject_Z 3600) with 3600%Q.
      change (inject_Z 60) with 60%Q. field. }
    rewrite (Qfloor_comp _ _ E), Qfloor_minus_Z, Hm.
    rewrite (Z.mod_eq (T / 60000) 60) by lia.
    rewrite Z.div_div by lia. reflexivity. }
  rewrite Hmin.
  assert (Hsec : float_mod x (inject_Z 60) = (x - inject_Z 60 * inject_Z (T / 60000))%Q).
  { unfold float_mod. now rewrite Hm. }
  destruct (rounded_ms_error T HT) as (Hl & Hu & _). cbv zeta in Hl, Hu. fold x in Hl, Hu.
  pose proof (Z.mod_pos_bound T 60000 ltac:(lia)) as B6.
  pose proof (Z.mod_eq T 60000 ltac:(lia)) as M6.
  assert (Hs0 : (0 <= float_mod x (inject_Z 60))%Q).
  { apply float_mod_range. reflexivity. }
  assert (Hrt : round_half_even (float_mod x (inject_Z 60) * inject_Z 1000) = T mod 60000).
  { rewrite Hsec. apply round_half_even_unique.
    - rewrite M6, inject_Z_sub, !inject_Z_mult.
      change (inject_Z 60000) with 60000%Q. change (inject_Z 60) with 60%Q.
      change (inject_Z 1000) with 1000%Q. lra.
    - rewrite M6, inject_Z_sub, !inject_Z_mult.
      change (inject_Z 60000) with 60000%Q. change (inject_Z 60) with 60%Q.
      change (inject_Z 1000) with 1000%Q. lra. }
  rewrite (format_06_3f_value _ _ Hs0 Hrt ltac:(lia)).
  assert (Z1 : T mod 60000 / 1000 = T / 1000 mod 60).
  { pose proof (Z.div_mod T 1000 ltac:(lia)). pose proof (Z.mod_pos_bound T 1000 ltac:(lia)).
    pose proof (Z.div_mod (T / 1000) 60 ltac:(lia)).
    pose proof (Z.mod_pos_bound (T / 1000) 60 ltac:(lia)).
    symmetry. apply (Z.div_unique_pos _ _ _ (T mod 1000)); [lia|].
    rewrite M6. pose proof (Z.div_div T 1000 60 ltac:(lia) ltac:(lia)) as DD.
    change (1000 * 60) with 60000 in DD. lia. }
  assert (Z2 : T mod 60000 mod 1000 = T mod 1000).
  { change 60000 with (1000 * 60).
    apply Z.mod_mod_divide. exists 60. lia. }
  rewrite Z1, Z2.
  assert (0 <= T / 3600000) by (apply Z.div_pos; lia).
  pose proof (Z.mod_pos_bound (T / 60000) 60 ltac:(lia)).
  pose proof (Z.mod_pos_bound (T / 1000) 60 ltac:(lia)).
  pose proof (Z.mod_pos_bound T 1000 ltac:(lia)).
  rewrite !format_02d_nonneg by lia.
  rewrite !replace_char_append.
  rewrite (replace_dot_digits (pad2 (py_str (T / 3600000)))),
    (replace_dot_digits (pad2 (py_str (T / 60000 mod 60)))),
    (replace_dot_digits (pad2 (py_str (T / 1000 mod 60)))) by (apply all_digits_pad2; lia).
  change (replace_char "." "," ":") with ":"%string.
  change (replace_char "." "," (String "." ?s))
    with (String "," (replace_char "." "," s)).
  rewrite (replace_dot_digits _ (all_digits_pad3 (T mod 1000) ltac:(lia))). reflexivity.
Qed.

(** X12. For a time of T whole milliseconds, given as the float [T / 1000]
    with T below 2^52, [_format_timestamp] prints exactly the hours
    T / 3600000, the minutes (T / 60000) mod 60, the seconds (T / 1000) mod 60
    and the milliseconds T mod 1000, zero padded to two, two, two and three
    digits: the rounding of [T / 1000] to binary64 never shows. *)
Theorem format_timestamp_whole_ms (T : Z) :
  0 <= T < 2 ^ 52 ->
  _format_timestamp (int_truediv T 1000) =
    pad2 (py_str (T / 3600000)) +:+ ":" +:+
    pad2 (py_str (T / 60000 mod 60)) +:+ ":" +:+
    pad2 (py_str (T / 1000 mod 60)) +:+ "," +:+
    pad3 (py_str (T mod 1000)).
Proof. apply format_timestamp_whole_ms_fields. Qed.

Lemma format_timestamp_whole_ms_witness :
  _format_timestamp (int_truediv 3723004 1000) = "01:02:03,004"%string.
Proof.
  rewrite (format_timestamp_whole_ms 3723004) by (split; [lia | reflexivity]).
  reflexivity.
Defined.

(** X13. [_format_timestamp] rounds the seconds to three decimals without
    carrying into the minutes: a time in the last half millisecond of minute
    m (above 60 * m + 59.9995 and below 60 * (m + 1)) is printed with the
    minute of m and the seconds field "60,000". *)
Theorem format_timestamp_no_carry (m : Z) (x : Q) :
  0 <= m ->
  (inject_Z (60 * m) + (599995 # 10000) < x)%Q -> (x < inject_Z (60 * (m + 1)))%Q ->
  _format_timestamp x =
    pad2 (py_str (m / 60)) +:+ ":" +:+ pad2 (py_str (m mod 60)) +:+ ":60,000".
Proof.
  intros Hm Hl Hu. unfold _format_timestamp, float_floordiv.
  rewrite !int_of_float_inject.
  rewrite inject_Z_mult in Hl. rewrite inject_Z_mult, inject_Z_plus in Hu.
  change (inject_Z 60) with 60%Q in *. change (inject_Z 3600) with 3600%Q.
  change (inject_Z 1) with 1%Q in Hu.
  pose proof (Z.div_mod m 60 ltac:(lia)) as D.
  pose proof (Z.mod_pos_bound m 60 ltac:(lia)) as B.
  set (h := m / 60) in *. set (r := m mod 60) in *.
  assert (Hmq : (inject_Z m == 60 * inject_Z h + inject_Z r)%Q).
  { rewrite D, inject_Z_plus, inject_Z_mult. reflexivity. }
  assert (Hr0 : (0 <= inject_Z r)%Q) by (apply inject_Z_nonneg; lia).
  assert (Hr1 : (inject_Z r <= 59)%Q).
  { change 59%Q with (inject_Z 59). rewrite <- Zle_Qle. lia. }
  assert (F60 : Qfloor (x / 60) = m).
  { apply Qfloor_unique.
    - apply Qle_shift_div_l; lra.
    - rewrite inject_Z_plus. change (inject_Z 1) with 1%Q. apply Qlt_shift_div_r; lra. }
  assert (F3600 : Qfloor (x / 3600) = h).
  { apply Qfloor_unique.
    - apply Qle_shift_div_l; lra.
    - rewrite inject_Z_plus. change (inject_Z 1) with 1%Q. apply Qlt_shift_div_r; lra. }
  rewrite F3600.
  assert (Hmin : Qfloor (float_mod x 3600 / 60) = r).
  { unfold float_mod. rewrite F3600.
    assert (E : ((x - 3600 * inject_Z h) / 60 == x / 60 - inject_Z (60 * h))%Q).
    { rewrite inject_Z_mult. change (inject_Z 60) with 60%Q. field. }
    rewrite (Qfloor_comp _ _ E), Qfloor_minus_Z, F60. lia. }
  rewrite Hmin.
  assert (Hsec : float_mod x 60 = (x - 60 * inject_Z m)%Q).
  { unfold float_mod. now rewrite F60. }
  assert (Hs0 : (0 <= float_mod x 60)%Q) by (apply float_mod_range; reflexivity).
  assert (Hrt : round_half_even (float_mod x 60 * inject_Z 1000) = 60000).
  { rewrite Hsec. change (inject_Z 1000) with 1000%Q.
    apply round_half_even_unique; change (inject_Z 60000) with 60000%Q; lra. }
  rewrite (format_06_3f_value _ _ Hs0 Hrt ltac:(lia)).
  assert (0 <= h) by (apply Z.div_pos; lia).
  rewrite !format_02d_nonneg by lia.
  rewrite !replace_char_append.
  rewrite (replace_dot_digits (pad2 (py_str h))),
    (replace_dot_digits (pad2 (py_str r))) by (apply all_digits_pad2; lia).
  reflexivity.
Qed.

Lemma format_timestamp_no_carry_witness :
  _format_timestamp (983039 # 8192) = "00:01:60,000"%string.
Proof.
  rewrite (format_timestamp_no_carry 1 (983039 # 8192))
    by (try lia; reflexivity).
  reflexivity.
Defined.



(* ===================================================================== *)
(** ** Subtitle blocks, the language grid, saving and start-up *)
(* ===================================================================== *)

Lemma enumerate_lookup {A} (l : list A) (start : Z) (k : nat) (x : A) :
  l !! k = Some x -> enumerate start l !! k = Some (start + Z.of_nat k, x).
Proof.
  revert start k. induction l as [|y l IH]; intros start k H; [discriminate|].
  destruct k as [|k]; cbn [enumerate].
  - injection H as ->. cbn. now rewrite Z.add_0_r.
  - change (enumerate (start + 1) l !! k = Some (start + Z.of_nat (S k), x)).
    change (l !! k = Some x) in H.
    rewrite (IH (start + 1) k H). do 2 f_equal. lia.
Qed.

Lemma length_enumerate {A} (l : list A) (start : Z) : length (enumerate start l) = length l.
Proof. revert start. induction l as [|y l IH]; intros start; cbn; [reflexivity|]. now rewrite IH. Qed.

Lemma format_timestamp_ms (T : Z) :
  0 <= T < 2 ^ 52 -> _format_timestamp (int_truediv T 1000) = srt_time T.
Proof. apply format_timestamp_whole_ms_fields. Qed.

(** X14. [_generate_srt] joins one block per segment with a newline; the
    block of the segment at index k is numbered k + 1 and, for a segment
    whose start and end are whole milliseconds, reads: the number, the two
    timestamps printed field by field and separated by " --> ", and the
    stripped text, each followed by a newline. *)
Theorem generate_srt_blocks (segments : list segment) (k : nat) (s : segment) (a b : Z) :
  segments !! k = Some s ->
  0 <= a < 2 ^ 52 -> 0 <= b < 2 ^ 52 ->
  segment_start s = int_truediv a 1000 ->
  segment_end s = int_truediv b 1000 ->
  exists blocks,
    _generate_srt segments = String.concat nl blocks /\
    length blocks = length segments /\
    blocks !! k =
      Some (py_str (Z.of_nat k + 1) +:+ nl +:+ srt_time a +:+ " --> " +:+ srt_time b
            +:+ nl +:+ py_strip (segment_text s) +:+ nl).
Proof.
  intros Hk Ha Hb Hs He.
  exists (map (fun p => srt_block (fst p) (snd p)) (enumerate 1 segments)).
  split; [reflexivity|]. split; [now rewrite length_map, length_enumerate|].
  rewrite list_lookup_fmap, (enumerate_lookup _ _ _ _ Hk). cbn [fmap option_fmap option_map fst snd].
  unfold srt_block. rewrite Hs, He, !format_timestamp_ms by assumption.
  now rewrite (Z.add_comm 1).
Qed.

Lemma language_grid_from (langs : list (string * string)) :
  forall (row col : Z) (k : nat) (p : string * string),
    0 <= col <= 3 ->
    langs !! k = Some p ->
    language_grid langs row col !! k =
      Some {| rb_text := fst p; rb_value := snd p;
              rb_row := row + (col + Z.of_nat k) / 4;
              rb_column := (col + Z.of_nat k) mod 4 |}.
Proof.
  induction langs as [|[name code] rest IH]; intros row col k p Hc Hk; [discriminate|].
  cbn [language_grid]. destruct k as [|k].
  - injection Hk as <-. rewrite Z.add_0_r.
    rewrite Z.div_small, Z.mod_small, Z.add_0_r by lia.
    now destruct (3 <? col + 1).
  - cbn in Hk.
    destruct (Z.ltb_spec 3 (col + 1)) as [H|H]; cbn [lookup list_lookup].
    + assert (col = 3) by lia. subst col.
      change (language_grid rest (row + 1) 0 !! k =
              Some {| rb_text := fst p; rb_value := snd p;
                      rb_row := row + (3 + Z.of_nat (S k)) / 4;
                      rb_column := (3 + Z.of_nat (S k)) mod 4 |}).
      rewrite (IH (row + 1) 0 k p ltac:(lia) Hk).
      replace (3 + Z.of_nat (S k)) with (0 + Z.of_nat k + 1 * 4) by lia.
      rewrite Z.div_add, Z.mod_add by lia. do 2 f_equal. lia.
    + change (language_grid rest row (col + 1) !! k =
              Some {| rb_text := fst p; rb_value := snd p;
                      rb_row := row + (col + Z.of_nat (S k)) / 4;
                      rb_column := (col + Z.of_nat (S k)) mod 4 |}).
      rewrite (IH row (col + 1) k p ltac:(lia) Hk).
      replace (col + 1 + Z.of_nat k) with (col + Z.of_nat (S k)) by lia. reflexivity.
Qed.

(** X22. The loop of [setup_ui] that places the language buttons puts the
    button of the k-th language in row k / 4 and column k mod 4, with that
    language's name as its text and its code as its value: four columns,
    filled row by row. *)
Theorem language_grid_cells (langs : list (string * string)) (k : nat)
    (p : string * string) :
  langs !! k = Some p ->
  language_grid langs 0 0 !! k =
    Some {| rb_text := fst p; rb_value := snd p;
            rb_row := Z.of_nat k / 4; rb_column := Z.of_nat k mod 4 |}.
Proof.
  intros Hk. rewrite (language_grid_from langs 0 0 k p ltac:(lia) Hk).
  now rewrite !Z.add_0_l.
Qed.

Lemma language_grid_cells_witness :
  language_grid common_langs 0 0 !! 5%nat =
    Some {| rb_text := "Deutsch"; rb_value := "de"; rb_row := 1; rb_column := 1 |}.
Proof. exact (language_grid_cells common_langs 5 ("Deutsch", "de")%string eq_refl). Defined.

(** X20. [save_output] saves nothing, and asks nothing, when the text widget
    holds white space only; when it writes, the text written is the stripped
    text of the widget, which is not empty, under the name the dialog
    returned, which is not empty; the only change it ever makes is to create
    the file of that name, and only once [open] succeeded on it; it raises
    only what the dialog raises. Right after [clear_output] there is nothing
    to save. *)
Theorem save_output_writes_stripped_text (D : desk) (g : gui) (w : world) :
  let r := save_output D g w in
  let asked := asksaveasfilename D (initialfile D (file_path g)) in
  (all_space (output_text w) = true -> r = (Ok NoTranscription, w)) /\
  (forall f t, fst r = Ok (Saved f t) ->
     t = py_strip (output_text w) /\ t <> EmptyString /\
     asked = Ok f /\ f <> EmptyString /\
     snd r = with_disk (disk w ∪ {[ f ]}) w) /\
  (snd r = w \/
   exists f, asked = Ok f /\ f <> EmptyString /\ open_ok D f = true /\
             snd r = with_disk (disk w ∪ {[ f ]}) w) /\
  (forall e, fst r = Raise e <-> all_space (output_text w) = false /\ asked = Raise e) /\
  fst (save_output D g (snd (clear_output w))) = Ok NoTranscription.
Proof.
  intros r asked. subst r asked. unfold save_output, output_text_get.
  rewrite !py_strip_append_nl, !truthy_py_strip.
  cbn [clear_output modify snd with_output_text output_text].
  split; [intros ->; reflexivity|].
  destruct (all_space (output_text w)) eqn:A; cbn [negb fst snd].
  { split; [discriminate|]. split; [now left|]. split; [|reflexivity].
    intros e. split; [discriminate | intros [? _]; discriminate]. }
  destruct (asksaveasfilename D (initialfile D (file_path g))) as [f|e0] eqn:F;
    cbn [fst snd].
  2:{ split; [discriminate|]. split; [now left|]. split; [|reflexivity].
      intros e. split; [intros [= ->]; now split | intros [_ [= ->]]; reflexivity]. }
  assert (Hne : truthy f = true -> f <> EmptyString) by (intros T ->; discriminate).
  destruct (truthy f) eqn:T; [destruct (open_ok D f) eqn:O; [destruct (write_ok D f)|]|];
    cbn [fst snd]; (split; [|split; [|split; [|reflexivity]]]);
    try discriminate; try (now left);
    try (intros e; split; [discriminate | intros [_ ?]; discriminate]).
  - intros f' t [= <- <-]. split; [reflexivity|]. split.
    + intros P. apply py_strip_empty in P. congruence.
    + split; [reflexivity|]. split; [now apply Hne | reflexivity].
  - right. exists f. split; [reflexivity|]. split; [now apply Hne|]. now split.
  - right. exists f. split; [reflexivity|]. split; [now apply Hne|]. now split.
Qed.

Ltac crush_deps :=
  repeat match goal with
         | H : _ /\ _ |- _ => destruct H
         | H : exists _, _ |- _ => destruct H
         | H : is_Some _ |- _ => destruct H
         end;
  try congruence; try discriminate; eauto;
  try (exfalso;
       match goal with
       | H : forall _, _ <> _ |- _ => solve [eapply H; reflexivity]
       end).

(** X21. On a new [WhisperTranscriber], [check_dependencies] returns [True]
    exactly when running ffmpeg raised nothing (whatever its exit status),
    [load_dotenv] raised nothing, the environment holds a non-empty API key,
    the client could be built and the model variable could be read; it
    raises exactly when running ffmpeg raises something other than
    [FileNotFoundError], and then that very exception leaves it; in every
    other case it returns [False]. The client is set exactly when
    [load_config] was reached and succeeded, in particular whenever the
    result is [True], and with the key of the environment; and when ffmpeg
    did not run the configuration is not even read. *)
Theorem check_dependencies_sets_client (H : host) :
  let r := check_dependencies H new_transcriber in
  let configured :=
    (exists status, run_ffmpeg H = Ok status) /\ load_dotenv H = Ok tt /\
    (exists key, getenv_api_key H = Some key /\ key <> EmptyString /\
                 new_client H key = Ok tt) in
  (fst r = Ok true <-> configured /\ (exists model, model_var_get H = Ok model)) /\
  (forall e, fst r = Raise e <->
             run_ffmpeg H = Raise e /\ (forall path, e <> FileNotFoundError path)) /\
  (is_Some (self_client (snd r)) <-> configured) /\
  (forall key, self_client (snd r) = Some key ->
     self_api_key (snd r) = Some key /\ getenv_api_key H = Some key) /\
  ((forall status, run_ffmpeg H <> Ok status) -> snd r = new_transcriber).
Proof.
  intros r configured. subst r configured.
  unfold check_dependencies, check_ffmpeg, load_config, new_transcriber.
  cbn [self_api_key self_client].
  destruct (run_ffmpeg H) as [status|e0].
  - destruct (load_dotenv H) as [[]|e1]; cbn [fst snd self_client self_api_key].
    + destruct (getenv_api_key H) as [[|c key]|]; cbn [truthy fst snd self_client self_api_key].
      * repeat split; intros; crush_deps.
      * destruct (new_client H (String c key)) as [[]|e2] eqn:N;
          destruct (model_var_get H) as [model|e3] eqn:V;
          cbn [fst snd self_client self_api_key];
          repeat split; intros; crush_deps.
      * repeat split; intros; crush_deps.
    + repeat split; intros; crush_deps.
  - destruct e0; cbn [fst snd self_client];
      repeat split; intros; crush_deps.
Qed.

(* ===================================================================== *)
(** ** Further concrete runs *)
(* ===================================================================== *)

Lemma tmp_injective (a b : string) : Scenario.tmp a = Scenario.tmp b -> a = b.
Proof. unfold Scenario.tmp. apply append_inj_l. Qed.


Lemma chunk_windows_accuracy_witness :
  let K := 6 in
  let a := (27771428, 32399999) in
  (K * 32400000) / 7 - 1 <= fst a <= (K * 32400000) / 7 /\
  ((K * 32400000) mod 7 <> 0 -> fst a = (K * 32400000) / 7) /\
  ((K + 1) * 32400000) / 7 - 1 <= snd a <= ((K + 1) * 32400000) / 7 /\
  (((K + 1) * 32400000) mod 7 <> 0 -> snd a = ((K + 1) * 32400000) / 7) /\
  32400000 / 7 - 1 <= snd a - fst a <= 32400000 / 7 + 2.
Proof.
  apply (chunk_windows_accuracy 32400000 7 6 (27771428, 32399999));
    [lia | lia | reflexivity | vm_compute; reflexivity].
Defined.

Lemma chunk_windows_partition_witness :
  length (chunk_windows 32400000 7) = 7%nat /\
  (forall a, chunk_windows 32400000 7 !! 0%nat = Some a -> fst a = 0) /\
  (forall k a b, chunk_windows 32400000 7 !! k = Some a ->
                 chunk_windows 32400000 7 !! S k = Some b -> snd a = fst b) /\
  (forall k a, chunk_windows 32400000 7 !! k = Some a ->
               0 <= fst a <= snd a /\ snd a <= 32400000) /\
  (forall a, last (chunk_windows 32400000 7) = Some a -> 32400000 - 1 <= snd a <= 32400000).
Proof.
  apply (chunk_windows_partition 32400000 7); [lia | reflexivity].
Defined.

Lemma optimize_audio_result_witness :
  let E := Scenario.one_chunk Scenario.hears_words in
  let p := Scenario.tmp ".ogg" in
  let w' := after_optimize E (Scenario.stereo 2500000) Scenario.idle in
  temps w' = temps Scenario.idle ++ [p] /\ p ∈ disk w' /\
  exists call,
    exports w' = exports Scenario.idle ++ [call] /\ exp_path call = p /\
    seg_channels (exp_audio call) = 1 /\ seg_frame_rate (exp_audio call) = 16000 /\
    exp_format call = "ogg"%string /\ exp_codec call = "libvorbis"%string /\
    exp_bitrate call = Some "32k"%string /\ exp_parameters call = speech_parameters.
Proof.
  apply (optimize_audio_result (Scenario.one_chunk Scenario.hears_words) Scenario.talk
           Scenario.idle).
  apply (optimize_audio_ok (Scenario.one_chunk Scenario.hears_words) Scenario.talk
           (Scenario.stereo 2500000) Scenario.idle).
  - intros call. reflexivity.
  - apply (bool_decide_unpack _). vm_compute. exact I.
  - reflexivity.
Defined.

Lemma split_audio_returns_a_chunk_witness :
  let w := after_optimize (Scenario.one_chunk Scenario.hears_words)
             (Scenario.stereo 2500000) Scenario.idle in
  [Scenario.tmp ".ogg"] <> [] /\ Scenario.tmp ".ogg" ∈ disk w /\
  (forall p, p ∈ [Scenario.tmp ".ogg"] -> p ∈ disk w).
Proof.
  apply (split_audio_returns_a_chunk (Scenario.one_chunk Scenario.hears_words)
           (Scenario.tmp ".ogg") 20
           (after_optimize (Scenario.one_chunk Scenario.hears_words)
              (Scenario.stereo 2500000) Scenario.idle)); [lia|].
  apply split_audio_small.
  - apply (bool_decide_unpack _). vm_compute. exact I.
  - vm_compute. discriminate.
Defined.

Lemma three_chunks_split :
  exists chunks w',
    split_audio (Scenario.three_chunks Scenario.hears_words) (Scenario.tmp ".ogg") 20
      Scenario.split_ready = (Ok chunks, w').
Proof.
  apply (split_audio_total _ _ _ _ (normalized (Scenario.stereo 13750000))).
  - intros call. reflexivity.
  - apply (bool_decide_unpack _). vm_compute. exact I.
  - reflexivity.
  - lia.
Qed.

Lemma split_audio_chunk_files_witness :
  exists chunks w' audio,
    split_audio (Scenario.three_chunks Scenario.hears_words) (Scenario.tmp ".ogg") 20
      Scenario.split_ready = (Ok chunks, w') /\
    decode (Scenario.three_chunks Scenario.hears_words) (Scenario.tmp ".ogg") = Some audio /\
    Z.of_nat (length chunks) = 3 /\
    (forall i : nat, (i < length chunks)%nat ->
       chunks !! i = Some (Scenario.tmp (chunk_suffix i))) /\
    temps w' = temps Scenario.split_ready ++ chunks /\
    exports w' =
      exports Scenario.split_ready ++
      map (chunk_call (Scenario.three_chunks Scenario.hears_words) audio
             (int_truediv (seg_len audio) 3))
          (seq 0 (length chunks)).
Proof.
  destruct three_chunks_split as (chunks & w' & H).
  destruct (split_audio_chunk_files (Scenario.three_chunks Scenario.hears_words)
              (Scenario.tmp ".ogg") 20 Scenario.split_ready chunks w'
              ltac:(lia) ltac:(vm_compute; reflexivity) H) as (audio & Hd & Hrest).
  exists chunks, w', audio. split; [exact H|]. split; [exact Hd|]. exact Hrest.
Defined.

Lemma split_audio_chunks_distinct_witness :
  exists chunks w',
    split_audio (Scenario.three_chunks Scenario.hears_words) (Scenario.tmp ".ogg") 20
      Scenario.split_ready = (Ok chunks, w') /\
    NoDup chunks /\
    (20 * 1024 * 1024 < 55 * Scenario.MB -> Scenario.tmp ".ogg" ∉ chunks).
Proof.
  destruct three_chunks_split as (chunks & w' & H).
  exists chunks, w'. split; [exact H|].
  exact (split_audio_chunks_distinct (Scenario.three_chunks Scenario.hears_words)
           (Scenario.tmp ".ogg") 20 Scenario.split_ready chunks w'
           ltac:(lia) tmp_injective H).
Defined.

Lemma transcribe_wraps_every_error_witness :
  exists msg,
    Exception "Transcription error: Connection error." =
    Exception ("Transcription error: " +:+ msg).
Proof.
  apply (transcribe_wraps_every_error
           (Scenario.three_chunks (Scenario.fails_on Scenario.chunk1))
           Scenario.chunk1 "whisper-1" false None None
           (with_disk {[ Scenario.chunk1 ]} Scenario.idle)
           (Exception "Transcription error: Connection error.")
           (with_uploads
              [build_request Scenario.chunk1 "whisper-1" false None None]
              (with_disk {[ Scenario.chunk1 ]} Scenario.idle))).
  apply (transcribe_api_fail (Scenario.three_chunks (Scenario.fails_on Scenario.chunk1))
           eq_refl Scenario.chunk1 "whisper-1" false None None
           (with_disk {[ Scenario.chunk1 ]} Scenario.idle)).
  - apply (bool_decide_unpack _). vm_compute. exact I.
  - vm_compute. reflexivity.
Defined.

Lemma generate_srt_blocks_witness :
  exists blocks,
    _generate_srt Scenario.two_cues = String.concat nl blocks /\
    length blocks = length Scenario.two_cues /\
    blocks !! 1%nat =
      Some (py_str (Z.of_nat 1 + 1) +:+ nl +:+ srt_time 2500 +:+ " --> " +:+ srt_time 3723004
            +:+ nl +:+ py_strip "Welcome back." +:+ nl).
Proof.
  apply (generate_srt_blocks Scenario.two_cues 1
           {| segment_start := int_truediv 2500 1000;
              segment_end := int_truediv 3723004 1000;
              segment_text := "Welcome back." |} 2500 3723004);
    try reflexivity; split; solve [lia | reflexivity].
Defined.

Lemma run_without_client_sends_nothing_witness :
  let r := start_transcription (Scenario.without_client (Scenario.one_chunk Scenario.hears_words))
             Scenario.no_combiner (Scenario.form false) Scenario.idle in
  uploads (snd r) = uploads Scenario.idle /\
  reported (snd r) =
    reported Scenario.idle ++
      [Exception "Transcription error: OpenAI client not initialized. Check your API key."] /\
  status (snd r) = "Error occurred during transcription"%string /\
  output_text (snd r) = output_text Scenario.idle /\
  srt_content (snd r) = srt_content Scenario.idle.
Proof.
  apply (run_without_client_sends_nothing
           (Scenario.without_client (Scenario.one_chunk Scenario.hears_words)) Scenario.no_combiner
           (Scenario.form false) Scenario.idle
           (Scenario.prepared (Scenario.without_client (Scenario.one_chunk Scenario.hears_words))
              (Scenario.form false))
           [Scenario.tmp ".ogg"]).
  - split; [reflexivity|]. apply (bool_decide_unpack _). vm_compute. exact I.
  - vm_compute. reflexivity.
  - reflexivity.
Defined.

Lemma failed_normalisation_leaves_its_file_witness :
  let r := start_transcription (Scenario.broken_encoder (Scenario.one_chunk Scenario.hears_words))
             Scenario.no_combiner (Scenario.form false) Scenario.idle in
  fst r = Ok tt /\
  disk (snd r) = disk Scenario.idle ∪ {[ Scenario.tmp ".ogg" ]} /\
  temps (snd r) = temps Scenario.idle ++ [Scenario.tmp ".ogg"] /\
  unlinks (snd r) = unlinks Scenario.idle /\ uploads (snd r) = uploads Scenario.idle /\
  reported (snd r) = reported Scenario.idle ++ [CouldntEncodeError (Scenario.tmp ".ogg")].
Proof.
  apply (failed_normalisation_leaves_its_file
           (Scenario.broken_encoder (Scenario.one_chunk Scenario.hears_words)) Scenario.no_combiner
           (Scenario.form false) Scenario.idle (Scenario.stereo 2500000)).
  - split; [reflexivity|]. apply (bool_decide_unpack _). vm_compute. exact I.
  - reflexivity.
  - reflexivity.
Defined.

